(** * Entries import / export pipeline: a shallow embedding

    The TypeScript helpers of the data-entry front end
    (validation, date, entriesXlsxImport, entriesImportExport,
    entriesXlsxExport, the PDF exporter and analytics) are embedded as Rocq
    functions and their specification is checked against them.  Parts II
    and IV add the mutations of the entries queries, the authorization
    errors and the entry functions of the canister, with the properties
    that link them to the helpers.

    Conventions.
    - A JavaScript string is the list of its UTF-16 code units
      ([jsstring := list Z]); [js "..."] writes an ASCII literal.
    - JavaScript integers are [Z]; a value that may be NaN / undefined /
      null is an [option].
    - Code that can throw lives in the [completion] monad; a [try]/[catch]
      is a match on the completion.
    - The host environment (time zone, clock, Intl formatting, pop-up
      blocker) is passed explicitly. *)

From Stdlib Require Import ZArith List Bool Lia String Ascii DecimalString.
From Stdlib Require Import Permutation Sorted.
From Stdlib Require DecimalPos.
Import ListNotations.
Open Scope Z_scope.

(* ================================================================== *)
(** * Part I: definitions                                              *)
(* ================================================================== *)

(** ** JavaScript strings *)

Definition jsstring := list Z.

Definition js (s : string) : jsstring :=
  map (fun a => Z.of_N (N_of_ascii a)) (list_ascii_of_string s).

Definition jseq (a b : jsstring) : bool :=
  if list_eq_dec Z.eq_dec a b then true else false.

(** [String(n)] for an integer-valued number below 1e21. *)
Definition numberToString (n : Z) : jsstring :=
  js (NilZero.string_of_int (Z.to_int n)).

(** ECMA-262 WhiteSpace and LineTerminator code points: what
    [String.prototype.trim], [parseInt] and [parseFloat] strip. *)
Definition isWhiteSpace (c : Z) : bool :=
  existsb (Z.eqb c)
    [9; 10; 11; 12; 13; 32; 160; 5760; 8232; 8233; 8239; 8287; 12288; 65279]
  || ((8192 <=? c) && (c <=? 8202)).

Fixpoint trimStart (s : jsstring) : jsstring :=
  match s with
  | c :: rest => if isWhiteSpace c then trimStart rest else s
  | [] => []
  end.

Definition trimEnd (s : jsstring) : jsstring := rev (trimStart (rev s)).

Definition trim (s : jsstring) : jsstring := trimEnd (trimStart s).

(** [s.length] *)
Definition jslength (s : jsstring) : Z := Z.of_nat (List.length s).

(** [!s] for a string: only the empty string is falsy. *)
Definition falsy (s : jsstring) : bool :=
  match s with [] => true | _ => false end.

Definition isDigit (c : Z) : bool := (48 <=? c) && (c <=? 57).

(** ASCII part of [toLowerCase].  The synonym dictionary below is keyed by
    ASCII strings without the letter k, so the two non-ASCII code points
    whose lower case is ASCII-related (U+212A, U+0130) cannot produce a
    key; every other code unit is mapped outside ASCII or left alone. *)
Definition toLowerCase (s : jsstring) : jsstring :=
  map (fun c => if (65 <=? c) && (c <=? 90) then c + 32 else c) s.

(** [s.split(sep)] for a one-character separator. *)
Fixpoint splitOn (sep : Z) (cur : jsstring) (s : jsstring) : list jsstring :=
  match s with
  | [] => [cur]
  | c :: rest =>
      if c =? sep then cur :: splitOn sep [] rest
      else splitOn sep (cur ++ [c]) rest
  end.

Definition split (sep : Z) (s : jsstring) : list jsstring := splitOn sep [] s.

(** [text.split(/\r?\n/)]: a line feed, or a carriage return directly
    followed by a line feed, separates; a lone carriage return does not. *)
Fixpoint splitLinesFrom (cur : jsstring) (s : jsstring) : list jsstring :=
  match s with
  | [] => [cur]
  | c :: rest =>
      if c =? 10 then cur :: splitLinesFrom [] rest
      else
        match rest with
        | d :: rest' =>
            if (c =? 13) && (d =? 10) then cur :: splitLinesFrom [] rest'
            else splitLinesFrom (cur ++ [c]) rest
        | [] => splitLinesFrom (cur ++ [c]) rest
        end
  end.

Definition splitLines (s : jsstring) : list jsstring := splitLinesFrom [] s.

(** [a.join(sep)] *)
Fixpoint join (sep : jsstring) (parts : list jsstring) : jsstring :=
  match parts with
  | [] => []
  | [p] => p
  | p :: rest => p ++ sep ++ join sep rest
  end.

(** ** Exceptions *)

Inductive completion (A : Type) : Type :=
| Normal (a : A)
| Throw (message : jsstring).
Arguments Normal {A} a.
Arguments Throw {A} message.

Definition bind {A B} (c : completion A) (k : A -> completion B) : completion B :=
  match c with
  | Normal a => k a
  | Throw m => Throw m
  end.

Notation "x <- c ;; k" := (bind c (fun x => k))
  (at level 61, c at next level, right associativity).

(** ** validation.ts *)

Record ValidationResult := mkValidation {
  isValid : bool;
  error : option jsstring
}.

Definition valid : ValidationResult := mkValidation true None.
Definition invalid (msg : jsstring) : ValidationResult := mkValidation false (Some msg).

Definition blank (value : jsstring) : bool :=
  falsy value || jseq (trim value) [].

Definition validateRequired (value fieldName : jsstring) : ValidationResult :=
  if blank value then invalid (fieldName ++ js " is required")
  else valid.

(** [/^\d+$/.test(value)]: one or more ASCII digits and nothing else. *)
Definition digitsOnly (value : jsstring) : bool :=
  negb (falsy value) && forallb isDigit value.

Definition validateMobileNumber (value : jsstring) : ValidationResult :=
  if blank value then invalid (js "Mobile Number is required")
  else if negb (digitsOnly value) then
    invalid (js "Mobile Number must contain only digits")
  else if (jslength value <? 10) || (jslength value >? 15) then
    invalid (js "Mobile Number must be between 10 and 15 digits")
  else valid.

(** *** Numeric literals: [parseInt(s, 10)] and [parseFloat(s)] *)

Definition parseSign (s : jsstring) : bool * jsstring :=
  match s with
  | c :: rest =>
      if c =? 45 then (true, rest)
      else if c =? 43 then (false, rest)
      else (false, s)
  | [] => (false, [])
  end.

(** Longest prefix of decimal digits, and what follows it. *)
Fixpoint spanDigits (s : jsstring) : jsstring * jsstring :=
  match s with
  | c :: rest =>
      if isDigit c then let (ds, r) := spanDigits rest in (c :: ds, r)
      else ([], s)
  | [] => ([], [])
  end.

Definition digitsValue (ds : jsstring) : Z :=
  fold_left (fun acc c => acc * 10 + (c - 48)) ds 0.

Definition startsWith (prefix s : jsstring) : bool :=
  jseq (firstn (List.length prefix) s) prefix.

(** [parseInt(s, 10)]: leading white space, an optional sign, then the
    longest run of digits; [None] is NaN.  The integer is kept exact: the
    double that JavaScript returns differs from it only above 2^53, far
    outside the range in which a Date is valid. *)
Definition parseInt10 (s : jsstring) : option Z :=
  let (negative, body) := parseSign (trimStart s) in
  let (ds, _) := spanDigits body in
  if falsy ds then None
  else Some (if negative then - digitsValue ds else digitsValue ds).

(** The result of [parseFloat] before rounding to a double:
    [Decimal neg d e] stands for (-1)^neg * d * 10^e. *)
Inductive number :=
| NaN
| Infinity (negative : bool)
| Decimal (negative : bool) (digits : Z) (exponent : Z).

(** ExponentPart, when present and complete; otherwise it is not part of
    the literal. *)
Definition exponentPart (s : jsstring) : Z :=
  match s with
  | c :: rest =>
      if (c =? 101) || (c =? 69) then
        let (negative, rest') := parseSign rest in
        let (ds, _) := spanDigits rest' in
        if falsy ds then 0
        else if negative then - digitsValue ds else digitsValue ds
      else 0
  | [] => 0
  end.

(** [parseFloat]: the longest prefix of the left-trimmed string that is a
    StrDecimalLiteral. *)
Definition parseFloat (s : jsstring) : number :=
  let (negative, body) := parseSign (trimStart s) in
  if startsWith (js "Infinity") body then Infinity negative
  else
    let (ip, r1) := spanDigits body in
    match r1 with
    | c :: r2 =>
        if c =? 46 then
          let (fp, r3) := spanDigits r2 in
          if falsy ip && falsy fp then NaN
          else Decimal negative (digitsValue (ip ++ fp))
                       (exponentPart r3 - jslength fp)
        else if falsy ip then NaN
        else Decimal negative (digitsValue ip) (exponentPart r1)
    | [] =>
        if falsy ip then NaN else Decimal negative (digitsValue ip) 0
    end.

Definition isNaN (n : number) : bool :=
  match n with NaN => true | _ => false end.

(** A positive decimal rounds to +0 as a double exactly when it is at most
    2^-1075, half the smallest subnormal. *)
Definition roundsToZero (digits exponent : Z) : bool :=
  (digits =? 0)
  || ((exponent <? 0) && (digits * 2 ^ 1075 <=? 10 ^ (- exponent))).

(** [n <= 0] on the double that [n] rounds to. *)
Definition leZero (n : number) : bool :=
  match n with
  | NaN => false
  | Infinity negative => negative
  | Decimal negative d e => negative || roundsToZero d e
  end.

Definition validateAmount (value : jsstring) : ValidationResult :=
  if blank value then invalid (js "Amount is required")
  else
    let numValue := parseFloat value in
    if isNaN numValue then invalid (js "Amount must be a valid number")
    else if leZero numValue then invalid (js "Amount must be greater than 0")
    else valid.

(** ** date.ts, over the ECMA-262 Date arithmetic *)

Definition msPerDay : Z := 86400000.

Definition Day (t : Z) : Z := t / msPerDay.

Definition DaysInYear (y : Z) : Z :=
  if (y mod 4 =? 0) && (negb (y mod 100 =? 0) || (y mod 400 =? 0))
  then 366 else 365.

Definition DayFromYear (y : Z) : Z :=
  365 * (y - 1970) + (y - 1969) / 4 - (y - 1901) / 100 + (y - 1601) / 400.

(** The largest year whose first day is not after day [d]: an estimate
    from the mean year length, corrected by at most one year. *)
Definition YearFromDay (d : Z) : Z :=
  let y := 1970 + (400 * d) / 146097 in
  if d <? DayFromYear y then y - 1
  else if DayFromYear (y + 1) <=? d then y + 1
  else y.

Definition YearFromTime (t : Z) : Z := YearFromDay (Day t).

Definition InLeapYear (t : Z) : Z :=
  if DaysInYear (YearFromTime t) =? 366 then 1 else 0.

Definition DayWithinYear (t : Z) : Z := Day t - DayFromYear (YearFromTime t).

Definition MonthFromTime (t : Z) : Z :=
  let d := DayWithinYear t in
  let leap := InLeapYear t in
  if d <? 31 then 0
  else if d <? 59 + leap then 1
  else if d <? 90 + leap then 2
  else if d <? 120 + leap then 3
  else if d <? 151 + leap then 4
  else if d <? 181 + leap then 5
  else if d <? 212 + leap then 6
  else if d <? 243 + leap then 7
  else if d <? 273 + leap then 8
  else if d <? 304 + leap then 9
  else if d <? 334 + leap then 10
  else 11.

(** Days of the year that precede month [m] (0 = January). *)
Definition daysBeforeMonth (m leap : Z) : Z :=
  nth (Z.to_nat m)
      [0; 31; 59 + leap; 90 + leap; 120 + leap; 151 + leap; 181 + leap;
       212 + leap; 243 + leap; 273 + leap; 304 + leap; 334 + leap] 0.

Definition DateFromTime (t : Z) : Z :=
  DayWithinYear t - daysBeforeMonth (MonthFromTime t) (InLeapYear t) + 1.

(** MakeDay: month overflow carries into the year, day overflow into the
    following months.  The arithmetic is exact; where ECMA-262 gives up on
    arguments that are not finite or too large, the day computed here is
    beyond what [TimeClip] accepts, the parts read by [parseInt] being
    non-negative. *)
Definition MakeDay (year month date : Z) : Z :=
  let ym := year + month / 12 in
  let mn := month mod 12 in
  DayFromYear ym
  + daysBeforeMonth mn (if DaysInYear ym =? 366 then 1 else 0)
  + date - 1.

Definition MakeDate (day time : Z) : Z := day * msPerDay + time.

(** A time value outside +-8.64e15 ms is NaN (an Invalid Date). *)
Definition TimeClip (t : Z) : option Z :=
  if Z.abs t <=? 8640000000000000 then Some t else None.

Inductive daysResult :=
| Null
| NaNDays
| Days (d : Z).

Section LocalTime.

(** The host's time zone: [LocalTZA t true] is the offset in force at
    UTC time [t], [LocalTZA t false] the offset used to interpret the
    local time [t]. *)
Variable LocalTZA : Z -> bool -> Z.

Definition LocalTime (t : Z) : Z := t + LocalTZA t true.
Definition UTC (t : Z) : Z := t - LocalTZA t false.

(** [new Date(year, month, day)] *)
Definition newDate (year month day : Z) : option Z :=
  let yr := if (0 <=? year) && (year <=? 99) then 1900 + year else year in
  TimeClip (UTC (MakeDate (MakeDay yr month day) 0)).

Definition getFullYear (date : option Z) : option Z :=
  option_map (fun t => YearFromTime (LocalTime t)) date.
Definition getMonth (date : option Z) : option Z :=
  option_map (fun t => MonthFromTime (LocalTime t)) date.
Definition getDate (date : option Z) : option Z :=
  option_map (fun t => DateFromTime (LocalTime t)) date.

(** [date.setHours(0, 0, 0, 0)] *)
Definition setHoursZero (date : option Z) : option Z :=
  match date with
  | Some t => TimeClip (UTC (MakeDate (Day (LocalTime t)) 0))
  | None => None
  end.

(** [a !== b] for a possibly-NaN [a] and a number [b]. *)
Definition strictNeq (a : option Z) (b : Z) : bool :=
  match a with
  | Some x => negb (x =? b)
  | None => true
  end.

Definition parseManualDate (dateString : jsstring) : option Z :=
  if falsy dateString then None
  else
    match split 45 dateString with
    | [p0; p1; p2] =>
        match parseInt10 p0, parseInt10 p1, parseInt10 p2 with
        | Some year, Some m, Some day =>
            let month := m - 1 in
            let date := newDate year month day in
            if strictNeq (getFullYear date) year
               || strictNeq (getMonth date) month
               || strictNeq (getDate date) day
            then None
            else date
        | _, _, _ => None
        end
    | _ => None
    end.

(** [now] is the instant [new Date()] returns.  [Math.floor] of the
    double quotient is the integer floor for every difference of two
    time values less than 2^27 days apart. *)
Definition calculateDaysSince (now : Z) (manualDateString : jsstring)
  : daysResult :=
  match parseManualDate manualDateString with
  | None => Null
  | Some t =>
      match setHoursZero (Some now), setHoursZero (Some t) with
      | Some today, Some manualDate =>
          let diffMs := today - manualDate in
          Days (diffMs / (1000 * 60 * 60 * 24))
      | _, _ => NaNDays
      end
  end.

End LocalTime.

(** ** entriesXlsxImport.ts *)

Record ParsedRow := mkParsedRow {
  manualDate : jsstring;
  customerName : jsstring;
  mobileNumber : jsstring;
  amountRs : jsstring
}.

Record ImportError := mkImportError {
  row : Z;
  message : jsstring
}.

Record ImportResult := mkImportResult {
  validRows : list ParsedRow;
  errors : list ImportError
}.

(** [keyof ParsedRow] *)
Inductive ParsedRowKey :=
| KManualDate
| KCustomerName
| KMobileNumber
| KAmountRs.

Definition COLUMN_MAPPINGS : list (jsstring * ParsedRowKey) :=
  [ (js "manual date", KManualDate);
    (js "manualdate", KManualDate);
    (js "date", KManualDate);
    (js "customer name", KCustomerName);
    (js "customername", KCustomerName);
    (js "name", KCustomerName);
    (js "mobile number", KMobileNumber);
    (js "mobilenumber", KMobileNumber);
    (js "mobile", KMobileNumber);
    (js "phone", KMobileNumber);
    (js "amount (rs.)", KAmountRs);
    (js "amount", KAmountRs);
    (js "amountrs", KAmountRs);
    (js "amount rs", KAmountRs) ].

Fixpoint ownProperty (table : list (jsstring * ParsedRowKey)) (key : jsstring)
  : option ParsedRowKey :=
  match table with
  | [] => None
  | (k, v) :: rest => if jseq k key then Some v else ownProperty rest key
  end.

(** What a header cell is mapped to.  [COLUMN_MAPPINGS] is an object
    literal, so a lookup that misses its own keys continues in
    Object.prototype; of the members found there only [constructor] and
    [__proto__] are spelled without capitals and so can equal a
    lower-cased header.  Such a value is truthy but names no ParsedRow
    field. *)
Inductive columnTarget :=
| Field (k : ParsedRowKey)
| ObjectMember.

Definition normalizeColumnName (header : jsstring) : option columnTarget :=
  let normalized := trim (toLowerCase header) in
  match ownProperty COLUMN_MAPPINGS normalized with
  | Some k => Some (Field k)
  | None =>
      if jseq normalized (js "constructor") || jseq normalized (js "__proto__")
      then Some ObjectMember
      else None
  end.

(** State of the scanner in [parseCSVLine]: the fields pushed so far, the
    field being accumulated, and the quote mode. *)
Fixpoint parseCSVLineFrom (result : list jsstring) (current : jsstring)
    (inQuotes : bool) (line : jsstring) : list jsstring :=
  match line with
  | [] => result ++ [trim current]
  | char :: rest =>
      if char =? 34 then
        match rest with
        | nextChar :: rest' =>
            if inQuotes && (nextChar =? 34)
            then parseCSVLineFrom result (current ++ [34]) inQuotes rest'
            else parseCSVLineFrom result current (negb inQuotes) rest
        | [] => parseCSVLineFrom result current (negb inQuotes) rest
        end
      else if (char =? 44) && negb inQuotes then
        parseCSVLineFrom (result ++ [trim current]) [] inQuotes rest
      else parseCSVLineFrom result (current ++ [char]) inQuotes rest
  end.

Definition parseCSVLine (line : jsstring) : list jsstring :=
  parseCSVLineFrom [] [] false line.

Definition rowPrefix (rowIndex : Z) : jsstring :=
  js "Row " ++ numberToString rowIndex ++ js ": ".

(** A validation error message is never the empty string, so
    [if (v.error)] tests for its presence. *)
Definition validateRow (r : ParsedRow) (rowIndex : Z) : option jsstring :=
  match error (validateRequired (manualDate r) (js "Manual Date")) with
  | Some e => Some (rowPrefix rowIndex ++ e)
  | None =>
  match error (validateRequired (customerName r) (js "Customer Name")) with
  | Some e => Some (rowPrefix rowIndex ++ e)
  | None =>
  match error (validateMobileNumber (mobileNumber r)) with
  | Some e => Some (rowPrefix rowIndex ++ e)
  | None =>
  match error (validateAmount (amountRs r)) with
  | Some e => Some (rowPrefix rowIndex ++ e)
  | None => None
  end end end end.

(** [Partial<ParsedRow>]: a field is [None] until it is assigned. *)
Record PartialRow := mkPartialRow {
  pManualDate : option jsstring;
  pCustomerName : option jsstring;
  pMobileNumber : option jsstring;
  pAmountRs : option jsstring
}.

Definition emptyPartialRow : PartialRow := mkPartialRow None None None None.

Definition assign (p : PartialRow) (k : ParsedRowKey) (v : jsstring) : PartialRow :=
  match k with
  | KManualDate => mkPartialRow (Some v) (pCustomerName p) (pMobileNumber p) (pAmountRs p)
  | KCustomerName => mkPartialRow (pManualDate p) (Some v) (pMobileNumber p) (pAmountRs p)
  | KMobileNumber => mkPartialRow (pManualDate p) (pCustomerName p) (Some v) (pAmountRs p)
  | KAmountRs => mkPartialRow (pManualDate p) (pCustomerName p) (pMobileNumber p) (Some v)
  end.

(** [x || ''] *)
Definition orEmpty (x : option jsstring) : jsstring :=
  match x with Some s => s | None => [] end.

Definition typeErrorUndefined : jsstring :=
  js "Cannot read properties of undefined".

(** The inner loop [for (j = 0; j < Math.min(values.length,
    fieldMapping.length); j++)]; [n] counts the iterations left.  Reading
    [values[j].trim()] throws a TypeError when [values[j]] is undefined. *)
Fixpoint assignFields (n : nat) (j : nat) (values : list jsstring)
    (fieldMapping : list (option columnTarget)) (parsedRow : PartialRow)
    (hasAnyField : bool) : completion (PartialRow * bool) :=
  match n with
  | O => Normal (parsedRow, hasAnyField)
  | S n' =>
      match nth_error fieldMapping j with
      | Some (Some fieldName) =>
          match nth_error values j with
          | Some v =>
              let parsedRow' :=
                match fieldName with
                | Field k => assign parsedRow k (trim v)
                | ObjectMember => parsedRow
                end in
              assignFields n' (S j) values fieldMapping parsedRow' true
          | None => Throw typeErrorUndefined
          end
      | _ => assignFields n' (S j) values fieldMapping parsedRow hasAnyField
      end
  end.

Inductive rowOutcome :=
| RowSkipped
| RowInvalid (validationError : jsstring)
| RowValid (completeRow : ParsedRow).

(** The body of the per-row [try] block. *)
Definition tryRow (fieldMapping : list (option columnTarget)) (rowNumber : Z)
    (line : jsstring) : completion rowOutcome :=
  let values := parseCSVLine line in
  st <- assignFields (Nat.min (List.length values) (List.length fieldMapping))
                     0 values fieldMapping emptyPartialRow false ;;
  let (parsedRow, hasAnyField) := st in
  if negb hasAnyField then Normal RowSkipped
  else
    let completeRow :=
      mkParsedRow (orEmpty (pManualDate parsedRow))
                  (orEmpty (pCustomerName parsedRow))
                  (orEmpty (pMobileNumber parsedRow))
                  (orEmpty (pAmountRs parsedRow)) in
    match validateRow completeRow rowNumber with
    | Some validationError => Normal (RowInvalid validationError)
    | None => Normal (RowValid completeRow)
    end.

Definition pushError (acc : ImportResult) (e : ImportError) : ImportResult :=
  mkImportResult (validRows acc) (errors acc ++ [e]).

Definition pushValid (acc : ImportResult) (r : ParsedRow) : ImportResult :=
  mkImportResult (validRows acc ++ [r]) (errors acc).

(** The loop [for (i = 1; i < lines.length; i++)], entered with the lines
    after the header and [i = 1]. *)
Fixpoint rowsLoop (fieldMapping : list (option columnTarget))
    (rest : list jsstring) (i : Z) (acc : ImportResult) : ImportResult :=
  match rest with
  | [] => acc
  | l :: rest' =>
      let rowNumber := i + 1 in
      let line := trim l in
      if falsy line then rowsLoop fieldMapping rest' (i + 1) acc
      else
        match tryRow fieldMapping rowNumber line with
        | Normal RowSkipped => rowsLoop fieldMapping rest' (i + 1) acc
        | Normal (RowInvalid validationError) =>
            rowsLoop fieldMapping rest' (i + 1)
              (pushError acc (mkImportError rowNumber validationError))
        | Normal (RowValid completeRow) =>
            rowsLoop fieldMapping rest' (i + 1) (pushValid acc completeRow)
        | Throw m =>
            rowsLoop fieldMapping rest' (i + 1)
              (pushError acc
                 (mkImportError rowNumber
                    (rowPrefix rowNumber ++ js "Failed to parse row - " ++ m)))
        end
  end.

(** How the promise returned by [parseXLSXFile] settles. *)
Inductive settled :=
| Rejected (reason : jsstring)
| Resolved (result : ImportResult).

Definition isSome {A} (o : option A) : bool :=
  match o with Some _ => true | None => false end.

(** The non-blank lines of the text. *)
Definition fileLines (text : jsstring) : list jsstring :=
  filter (fun line => negb (falsy (trim line))) (splitLines text).

(** The [try] block of [reader.onload]. *)
Definition onloadBody (text : jsstring) : completion settled :=
  if falsy text then Normal (Rejected (js "Failed to read file"))
  else
    let lines := fileLines text in
    if Nat.eqb (List.length lines) 0 then Normal (Rejected (js "File is empty"))
    else
      match nth_error lines 0 with
      | None => Throw typeErrorUndefined
      | Some headerLine =>
          let headers := parseCSVLine headerLine in
          let fieldMapping := map normalizeColumnName headers in
          if negb (existsb isSome fieldMapping) then
            Normal (Rejected (js "No recognized columns found in the file"))
          else
            let r := rowsLoop fieldMapping (tl lines) 1 (mkImportResult [] []) in
            if Nat.eqb (List.length (validRows r)) 0
               && Nat.eqb (List.length (errors r)) 0
            then Normal (Rejected (js "No data rows found in the file"))
            else Normal (Resolved r)
      end.

Definition onload (text : jsstring) : settled :=
  match onloadBody text with
  | Normal s => s
  | Throw m => Rejected (js "Failed to parse file: " ++ m)
  end.

(** What the FileReader delivers. *)
Inductive readOutcome :=
| ReadFailed
| ReadText (text : jsstring).

Definition parseXLSXFile (file : readOutcome) : settled :=
  match file with
  | ReadFailed => Rejected (js "Failed to read file")
  | ReadText text => onload text
  end.

(** ** backend.d.ts *)

Module Backend.
Record Entry := mkEntry {
  id : jsstring;
  customerName : jsstring;
  createdAt : Z;
  mobileNumber : jsstring;
  amountRs : Z;
  manualDate : jsstring
}.
End Backend.

(** ** entriesImportExport.ts, entriesXlsxExport.ts and the PDF exporter *)

Definition EXPORT_COLUMNS : list jsstring :=
  [ js "Manual Date"; js "DAYS"; js "Customer Name"; js "Mobile Number";
    js "Amount (Rs.)"; js "Created At" ].

(** [string | number] *)
Inductive cell :=
| Str (s : jsstring)
| Num (n : Z)
| NumNaN.

(** [String(field)] *)
Definition cellToString (c : cell) : jsstring :=
  match c with
  | Str s => s
  | Num n => numberToString n
  | NumNaN => js "NaN"
  end.

Definition includes (c : Z) (s : jsstring) : bool := existsb (Z.eqb c) s.

(** [str.replace] with the global quote pattern: every double quote
    becomes two. *)
Definition doubleQuotes (s : jsstring) : jsstring :=
  flat_map (fun c => if c =? 34 then [34; 34] else [c]) s.

Definition escapeCSVField (field : cell) : jsstring :=
  let str := cellToString field in
  if includes 44 str || includes 34 str || includes 10 str
  then [34] ++ doubleQuotes str ++ [34]
  else str.

(** [s.replace(pattern, replacement)] with a string pattern: the first
    occurrence only. *)
Fixpoint replaceFirst (pattern replacement s : jsstring) : jsstring :=
  if startsWith pattern s then replacement ++ skipn (List.length pattern) s
  else
    match s with
    | [] => []
    | c :: rest => c :: replaceFirst pattern replacement rest
    end.

(** [s.padEnd(width)] *)
Definition padEnd (s : jsstring) (width : Z) : jsstring :=
  s ++ repeat 32 (Z.to_nat (width - jslength s)).

(** [Math.max(...xs)]; [None] is -Infinity. *)
Definition mathMax (xs : list Z) : option Z :=
  fold_right (fun x acc => match acc with
                           | None => Some x
                           | Some m => Some (Z.max x m)
                           end) None xs.

(** What an exporter does to the browser. *)
Inductive effect :=
| NewBlob (content type : jsstring)
| CreateAnchor
| CreateObjectURL
| SetHref
| SetDownload (filename : jsstring)
| HideLink
| AppendLink
| ClickLink
| RemoveLink
| RevokeObjectURL
| WindowOpen
| DocumentWrite (html : jsstring)
| DocumentClose
| ConsoleError (label : jsstring).

Definition noEntries : jsstring := js "No entries to export".

Definition dq : jsstring := [34].
Definition lineFeed : jsstring := [10].

Definition pdfHead : jsstring :=
  js "
      <!DOCTYPE html>
      <html>
        <head>
          <meta charset=" ++ dq ++ js "utf-8" ++ dq ++ js ">
          <title>Data Entries</title>
          <style>
            body {
              font-family: Arial, sans-serif;
              margin: 20px;
            }
            h1 {
              color: #10b981;
              margin-bottom: 20px;
            }
            table {
              width: 100%;
              border-collapse: collapse;
              margin-top: 20px;
            }
            th, td {
              border: 1px solid #ddd;
              padding: 8px;
              text-align: left;
            }
            th {
              background-color: #10b981;
              color: white;
              font-weight: bold;
            }
            tr:nth-child(even) {
              background-color: #f5f5f5;
            }
            @media print {
              body { margin: 0; }
              button { display: none; }
            }
          </style>
        </head>
        <body>
          <h1>Data Entries</h1>
          <button onclick=" ++ dq ++ js "window.print()" ++ dq ++ js " style="
  ++ dq ++ js "padding: 10px 20px; background: #10b981; color: white; border: none; border-radius: 4px; cursor: pointer; margin-bottom: 10px;"
  ++ dq ++ js ">Print / Save as PDF</button>
          <table>
            <thead>
              <tr>".

Definition pdfMiddle : jsstring :=
  js "</tr>
            </thead>
            <tbody>
              ".

Definition pdfTail : jsstring :=
  js "
            </tbody>
          </table>
        </body>
      </html>
    ".

Section Exporters.

Variable LocalTZA : Z -> bool -> Z.
(** The instant at which the export runs. *)
Variable now : Z.
(** [formatTimestamp]: the nanosecond timestamp goes through a double
    and [toLocaleString('en-US', ...)]; its text is the host's. *)
Variable formatTimestamp : Z -> jsstring.
(** Whether the browser refuses to build the download ([new Blob] and
    the DOM calls after it throw). *)
Variable downloadFails : bool.
(** Whether [window.open] returns a window rather than null. *)
Variable popupAllowed : bool.

(** [Number(entry.amountRs)] is exact for amounts below 2^53. *)
Definition buildExportRow (entry : Backend.Entry) : list cell :=
  let days := calculateDaysSince LocalTZA now (Backend.manualDate entry) in
  [ Str (Backend.manualDate entry);
    match days with
    | Null => Str []
    | NaNDays => NumNaN
    | Days d => Num d
    end;
    Str (Backend.customerName entry);
    Str (Backend.mobileNumber entry);
    Num (Backend.amountRs entry);
    Str (formatTimestamp (Backend.createdAt entry)) ].

Definition csvContentOf (entries : list Backend.Entry) : jsstring :=
  let rows := map buildExportRow entries in
  let csvRows :=
    join (js ",") (map (fun h => escapeCSVField (Str h)) EXPORT_COLUMNS)
    :: map (fun r => join (js ",") (map escapeCSVField r)) rows in
  join lineFeed csvRows.

(** Blob, anchor element, click, clean-up. *)
Definition download (content type filename : jsstring)
  : list effect * completion unit :=
  if downloadFails then ([], Throw (js "Blob is not defined"))
  else
    ([ NewBlob content type; CreateAnchor; CreateObjectURL; SetHref;
       SetDownload filename; HideLink; AppendLink; ClickLink; RemoveLink;
       RevokeObjectURL ],
     Normal tt).

(** [try { body } catch (error) { console.error(label, error); throw new
    Error(failure) }] *)
Definition guarded (body : list effect * completion unit)
    (label failure : jsstring) : list effect * completion unit :=
  match body with
  | (effects, Normal tt) => (effects, Normal tt)
  | (effects, Throw _) => (effects ++ [ConsoleError label], Throw failure)
  end.

Definition exportToCSV (entries : list Backend.Entry) (filename : jsstring)
  : list effect * completion unit :=
  if Nat.eqb (List.length entries) 0 then ([], Throw noEntries)
  else
    guarded
      (download (csvContentOf entries) (js "text/csv;charset=utf-8;") filename)
      (js "CSV export error:")
      (js "Failed to export CSV file. Please try again.").

Definition exportToXLSX (entries : list Backend.Entry) (filename : jsstring)
  : list effect * completion unit :=
  if Nat.eqb (List.length entries) 0 then ([], Throw noEntries)
  else
    guarded
      (let BOM := [65279] in
       download (BOM ++ csvContentOf entries) (js "text/csv;charset=utf-8;")
                (replaceFirst (js ".xlsx") (js ".csv") filename))
      (js "Export error:")
      (js "Failed to export file. Please try again.").

Definition textContentOf (entries : list Backend.Entry) : jsstring :=
  let rows := map buildExportRow entries in
  let cellAt (r : list cell) (i : nat) := cellToString (nth i r (Str (js "undefined"))) in
  let colWidths :=
    map (fun hi : nat * jsstring =>
           let (i, header) := hi in
           match mathMax (map (fun r => jslength (cellAt r i)) rows) with
           | Some maxDataWidth => Z.max (jslength header) maxDataWidth
           | None => jslength header
           end)
        (combine (seq 0 (List.length EXPORT_COLUMNS)) EXPORT_COLUMNS) in
  let widthAt (i : nat) := nth i colWidths 0 in
  let headerRow :=
    join (js " | ")
      (map (fun hi : nat * jsstring => let (i, header) := hi in padEnd header (widthAt i))
           (combine (seq 0 (List.length EXPORT_COLUMNS)) EXPORT_COLUMNS)) in
  let separator :=
    join (js "-+-") (map (fun w => repeat 45 (Z.to_nat w)) colWidths) in
  let dataRows :=
    map (fun r =>
           join (js " | ")
             (map (fun ic : nat * cell => let (i, c) := ic in padEnd (cellToString c) (widthAt i))
                  (combine (seq 0 (List.length r)) r)))
        rows in
  join lineFeed
    ([ js "Data Entries"; repeat 61 (List.length headerRow); []; headerRow;
       separator ] ++ dataRows).

Definition exportToText (entries : list Backend.Entry) (filename : jsstring)
  : list effect * completion unit :=
  if Nat.eqb (List.length entries) 0 then ([], Throw noEntries)
  else
    guarded
      (download (textContentOf entries) (js "text/plain;charset=utf-8;") filename)
      (js "Text export error:")
      (js "Failed to export text file. Please try again.").

Definition htmlOf (entries : list Backend.Entry) : jsstring :=
  let rows := map buildExportRow entries in
  let tableRows :=
    join []
      (map (fun r =>
              js "<tr>"
              ++ join [] (map (fun c => js "<td>" ++ cellToString c ++ js "</td>") r)
              ++ js "</tr>")
           rows) in
  pdfHead
  ++ join [] (map (fun col => js "<th>" ++ col ++ js "</th>") EXPORT_COLUMNS)
  ++ pdfMiddle ++ tableRows ++ pdfTail.

Definition exportToPDF (entries : list Backend.Entry) (filename : jsstring)
  : list effect * completion unit :=
  if Nat.eqb (List.length entries) 0 then ([], Throw noEntries)
  else
    guarded
      (let html := htmlOf entries in
       if popupAllowed
       then ([WindowOpen; DocumentWrite html; DocumentClose], Normal tt)
       else ([WindowOpen], Throw (js "Please allow pop-ups to export PDF")))
      (js "PDF export error:")
      (js "Failed to export PDF. Please try again.").

End Exporters.

(** ** analytics.ts *)

Module Totals.
(** The anonymous [{ totalAmount, count }] objects held in the Map. *)
Record t (num : Type) := mk {
  totalAmount : num;
  count : Z
}.
Arguments mk {num} totalAmount count.
Arguments totalAmount {num} t.
Arguments count {num} t.
End Totals.

Record MonthlyData (num : Type) := mkMonthlyData {
  month : option jsstring;
  monthIndex : Z;
  totalAmount : num;
  count : Z
}.
Arguments mkMonthlyData {num} month monthIndex totalAmount count.
Arguments month {num} m.
Arguments monthIndex {num} m.
Arguments totalAmount {num} m.
Arguments count {num} m.

Definition monthNames : list jsstring :=
  [ js "Jan"; js "Feb"; js "Mar"; js "Apr"; js "May"; js "Jun";
    js "Jul"; js "Aug"; js "Sep"; js "Oct"; js "Nov"; js "Dec" ].

(** A JavaScript [Map] with number keys: its entries in insertion order. *)
Definition jsMap (V : Type) := list (Z * V).

Fixpoint mapGet {V} (m : jsMap V) (key : Z) : option V :=
  match m with
  | [] => None
  | (k, v) :: rest => if k =? key then Some v else mapGet rest key
  end.

(** [m.set(key, v)]: an existing key keeps its place, a new one goes last.
    Mutating the object stored under [key] is the same update. *)
Fixpoint mapSet {V} (m : jsMap V) (key : Z) (v : V) : jsMap V :=
  match m with
  | [] => [(key, v)]
  | (k, old) :: rest =>
      if k =? key then (k, v) :: rest else (k, old) :: mapSet rest key v
  end.

Section Analytics.

Variable LocalTZA : Z -> bool -> Z.

(** JavaScript numbers as they are summed: [numAdd] is the addition of
    doubles, [Number] the conversion of a bigint.  Nothing is assumed
    of them, so the results hold with rounding as well as without. *)
Variable num : Type.
Variable numZero : num.
Variable numAdd : num -> num -> num.
Variable Number : Z -> num.

Definition initialMonths : jsMap (Totals.t num) :=
  fold_left (fun m i => mapSet m i (Totals.mk numZero 0))
            (map Z.of_nat (seq 0 12)) [].

(** The callback passed to [entries.forEach]. *)
Definition addToMonth (year : Z) (monthlyMap : jsMap (Totals.t num))
    (entry : Backend.Entry) : completion (jsMap (Totals.t num)) :=
  let date := parseManualDate LocalTZA (Backend.manualDate entry) in
  match date with
  | None => Normal monthlyMap
  | Some _ =>
      if negb (strictNeq (getFullYear LocalTZA date) year) then
        match getMonth LocalTZA date with
        | Some month =>
            match mapGet monthlyMap month with
            | Some existing =>
                Normal
                  (mapSet monthlyMap month
                     (Totals.mk
                        (numAdd (Totals.totalAmount existing)
                                (Number (Backend.amountRs entry)))
                        (Totals.count existing + 1)))
            | None => Throw typeErrorUndefined
            end
        | None => Throw typeErrorUndefined
        end
      else Normal monthlyMap
  end.

Fixpoint forEachEntry (year : Z) (entries : list Backend.Entry)
    (monthlyMap : jsMap (Totals.t num)) : completion (jsMap (Totals.t num)) :=
  match entries with
  | [] => Normal monthlyMap
  | entry :: rest =>
      m <- addToMonth year monthlyMap entry ;;
      forEachEntry year rest m
  end.

Definition aggregateByMonth (entries : list Backend.Entry) (year : Z)
  : completion (list (MonthlyData num)) :=
  m <- forEachEntry year entries initialMonths ;;
  Normal
    (map (fun kv : Z * Totals.t num =>
            let (monthIndex, data) := kv in
            mkMonthlyData (if monthIndex <? 0 then None
                           else nth_error monthNames (Z.to_nat monthIndex))
                          monthIndex
                          (Totals.totalAmount data)
                          (Totals.count data))
         m).

End Analytics.

(* ================================================================== *)
(** * Part II: vocabulary of the properties, and more of the code      *)
(* ================================================================== *)

(** ** Rows of an import *)

(** Row numbers as the loop hands them out: the line at index [i] of the
    non-blank lines is row [i + 1]. *)
Fixpoint numberedFrom (i : Z) (rest : list jsstring) : list (Z * jsstring) :=
  match rest with
  | [] => []
  | l :: rest' => (i + 1, l) :: numberedFrom (i + 1) rest'
  end.

(** What one numbered line contributes. *)
Definition outcomeOf (fieldMapping : list (option columnTarget))
    (nl : Z * jsstring) : rowOutcome :=
  let (rowNumber, l) := nl in
  if falsy (trim l) then RowSkipped
  else
    match tryRow fieldMapping rowNumber (trim l) with
    | Normal o => o
    | Throw m =>
        RowInvalid (rowPrefix rowNumber ++ js "Failed to parse row - " ++ m)
    end.

Definition failuresOf (fieldMapping : list (option columnTarget))
    (rows : list (Z * jsstring)) : list ImportError :=
  flat_map (fun nl => match outcomeOf fieldMapping nl with
                      | RowInvalid m => [mkImportError (fst nl) m]
                      | _ => []
                      end) rows.

Definition successesOf (fieldMapping : list (option columnTarget))
    (rows : list (Z * jsstring)) : list ParsedRow :=
  flat_map (fun nl => match outcomeOf fieldMapping nl with
                      | RowValid r => [r]
                      | _ => []
                      end) rows.

Definition headerMapping (header : jsstring) : list (option columnTarget) :=
  map normalizeColumnName (parseCSVLine header).

(** ** Time zones *)

(** A zone whose offset from UTC never changes; [offset] is in
    milliseconds, positive east of Greenwich. *)
Definition fixedZone (offset : Z) : Z -> bool -> Z := fun _ _ => offset.

Definition hour : Z := 3600000.

(** United States Eastern Time in 2024: UTC-5, and UTC-4 from 10 March
    07:00 UTC to 3 November 06:00 UTC.  A local time skipped or repeated
    by a change is read with the offset in force before the change. *)
Definition easternTime2024 : Z -> bool -> Z :=
  fun t isUTC =>
    let springForward := 1710054000000 in
    let fallBack := 1730613600000 in
    if isUTC then
      if t <? springForward then -5 * hour
      else if t <? fallBack then -4 * hour
      else -5 * hour
    else
      if t <? springForward - 4 * hour then -5 * hour
      else if t <? fallBack - 4 * hour then -4 * hour
      else -5 * hour.

(** ** Calendar dates as text *)

(** Number of days of month [mn] (0 = January) of year [y]. *)
Definition daysInMonth (y mn : Z) : Z :=
  nth (Z.to_nat mn)
      [31; if DaysInYear y =? 366 then 29 else 28; 31; 30; 31; 30;
       31; 31; 30; 31; 30; 31] 0.

(** [n] written with two and with four decimal digits. *)
Definition pad2 (n : Z) : jsstring := [48 + n / 10; 48 + n mod 10].
Definition pad4 (n : Z) : jsstring :=
  [48 + n / 1000; 48 + n / 100 mod 10; 48 + n / 10 mod 10; 48 + n mod 10].

(** The text YYYY-MM-DD of year [y], month [m] (1 = January), day [d]. *)
Definition formatYMD (y m d : Z) : jsstring :=
  pad4 y ++ [45] ++ pad2 m ++ [45] ++ pad2 d.

(** ** Monthly buckets *)

Section AnalyticsVocabulary.

Variable LocalTZA : Z -> bool -> Z.
Variable num : Type.
Variable numZero : num.
Variable numAdd : num -> num -> num.
Variable Number : Z -> num.

(** The entry's date parses, its year is [year] and its month is [i]. *)
Definition inMonth (year i : Z) (entry : Backend.Entry) : bool :=
  match parseManualDate LocalTZA (Backend.manualDate entry) with
  | Some t =>
      (YearFromTime (LocalTime LocalTZA t) =? year)
      && (MonthFromTime (LocalTime LocalTZA t) =? i)
  | None => false
  end.

(** The sum of the amounts of [entries], added one after the other in
    list order starting from zero. *)
Definition sumAmounts (entries : list Backend.Entry) : num :=
  fold_left numAdd (map (fun e => Number (Backend.amountRs e)) entries) numZero.

Definition monthKeys : list Z := map Z.of_nat (seq 0 12).

Definition tabulate (v : Z -> Totals.t num) : jsMap (Totals.t num) :=
  map (fun i => (i, v i)) monthKeys.

Definition update (v : Z -> Totals.t num) (i : Z) (x : Totals.t num)
  : Z -> Totals.t num :=
  fun k => if k =? i then x else v k.

Definition addEntry (acc : Totals.t num) (entry : Backend.Entry) : Totals.t num :=
  Totals.mk (numAdd (Totals.totalAmount acc) (Number (Backend.amountRs entry)))
            (Totals.count acc + 1).

(** The bucket of month [i] (0 = January) named [name]. *)
Definition bucketOf (entries : list Backend.Entry) (year : Z)
    (i : Z) (name : jsstring) : MonthlyData num :=
  mkMonthlyData (Some name) i
    (sumAmounts (filter (inMonth year i) entries))
    (Z.of_nat (List.length (filter (inMonth year i) entries))).

End AnalyticsVocabulary.

Arguments tabulate {num} v.
Arguments update {num} v i x.
Arguments addEntry {num} numAdd Number acc entry.


(** ** Decimal numerals *)

(** The number written by the digits [u] after the digits already read
    amount to [acc]. *)
Fixpoint uintValue (u : Decimal.uint) (acc : Z) : Z :=
  match u with
  | Decimal.Nil => acc
  | Decimal.D0 l => uintValue l (acc * 10 + 0)
  | Decimal.D1 l => uintValue l (acc * 10 + 1)
  | Decimal.D2 l => uintValue l (acc * 10 + 2)
  | Decimal.D3 l => uintValue l (acc * 10 + 3)
  | Decimal.D4 l => uintValue l (acc * 10 + 4)
  | Decimal.D5 l => uintValue l (acc * 10 + 5)
  | Decimal.D6 l => uintValue l (acc * 10 + 6)
  | Decimal.D7 l => uintValue l (acc * 10 + 7)
  | Decimal.D8 l => uintValue l (acc * 10 + 8)
  | Decimal.D9 l => uintValue l (acc * 10 + 9)
  end.

(** ** Entries that survive an export and a re-import *)

(** The row an exported entry is read back as. *)
Definition rowOfEntry (e : Backend.Entry) : ParsedRow :=
  mkParsedRow (trim (Backend.manualDate e))
              (trim (Backend.customerName e))
              (trim (Backend.mobileNumber e))
              (numberToString (Backend.amountRs e)).

(** An entry whose fields pass the validators of the form, whose amount
    is written exactly by [Number], and whose date and name hold no line
    feed. *)
Definition importable (e : Backend.Entry) : Prop :=
  blank (Backend.manualDate e) = false
  /\ blank (Backend.customerName e) = false
  /\ isValid (validateMobileNumber (Backend.mobileNumber e)) = true
  /\ 0 < Backend.amountRs e < 2 ^ 53
  /\ includes 10 (Backend.manualDate e) = false
  /\ includes 10 (Backend.customerName e) = false.

(** The fields the header line of an export is mapped to. *)
Definition exportedMapping : list (option columnTarget) :=
  [ Some (Field KManualDate); None; Some (Field KCustomerName);
    Some (Field KMobileNumber); Some (Field KAmountRs); None ].

(** ** What an import returns *)

(** A row that passes the four validators and whose fields carry no
    surrounding white space. *)
Definition acceptedRow (r : ParsedRow) : Prop :=
  isValid (validateRequired (manualDate r) (js "Manual Date")) = true
  /\ isValid (validateRequired (customerName r) (js "Customer Name")) = true
  /\ isValid (validateMobileNumber (mobileNumber r)) = true
  /\ isValid (validateAmount (amountRs r)) = true
  /\ trim (manualDate r) = manualDate r
  /\ trim (customerName r) = customerName r
  /\ trim (mobileNumber r) = mobileNumber r
  /\ trim (amountRs r) = amountRs r.

(** The fields assigned so far carry no surrounding white space. *)
Definition trimmedPartial (p : PartialRow) : Prop :=
  trim (orEmpty (pManualDate p)) = orEmpty (pManualDate p)
  /\ trim (orEmpty (pCustomerName p)) = orEmpty (pCustomerName p)
  /\ trim (orEmpty (pMobileNumber p)) = orEmpty (pMobileNumber p)
  /\ trim (orEmpty (pAmountRs p)) = orEmpty (pAmountRs p).

(** The messages the validators of a row can give. *)
Definition validationMessages : list jsstring :=
  [ js "Manual Date is required"; js "Customer Name is required";
    js "Mobile Number is required";
    js "Mobile Number must contain only digits";
    js "Mobile Number must be between 10 and 15 digits";
    js "Amount is required"; js "Amount must be a valid number";
    js "Amount must be greater than 0" ].

(** ** analytics.ts, continued: [aggregateByYear] and [getAvailableYears] *)

Module Yearly.
Record t (num : Type) := mk {
  year : Z;
  totalAmount : num;
  count : Z
}.
Arguments mk {num} year totalAmount count.
Arguments year {num} t.
Arguments totalAmount {num} t.
Arguments count {num} t.
End Yearly.

(** [xs.sort(compare)]: the sort is stable, so its result is that of a
    stable insertion sort. *)
Fixpoint insertBy {A} (compare : A -> A -> Z) (x : A) (l : list A) : list A :=
  match l with
  | [] => [x]
  | y :: rest =>
      if compare x y <=? 0 then x :: y :: rest
      else y :: insertBy compare x rest
  end.

Fixpoint sortBy {A} (compare : A -> A -> Z) (l : list A) : list A :=
  match l with
  | [] => []
  | x :: rest => insertBy compare x (sortBy compare rest)
  end.

(** A JavaScript [Set] of numbers: its members in insertion order. *)
Definition setAdd (s : list Z) (x : Z) : list Z :=
  if existsb (Z.eqb x) s then s else s ++ [x].

Section AnalyticsByYear.

Variable LocalTZA : Z -> bool -> Z.
Variable num : Type.
Variable numZero : num.
Variable numAdd : num -> num -> num.
Variable Number : Z -> num.

(** The callback of [entries.forEach] in [aggregateByYear]. *)
Definition addToYear (yearlyMap : jsMap (Totals.t num)) (entry : Backend.Entry)
  : jsMap (Totals.t num) :=
  let date := parseManualDate LocalTZA (Backend.manualDate entry) in
  match getFullYear LocalTZA date with
  | None => yearlyMap
  | Some year =>
      let existing :=
        match mapGet yearlyMap year with
        | Some data => data
        | None => Totals.mk numZero 0
        end in
      mapSet yearlyMap year
        (Totals.mk (numAdd (Totals.totalAmount existing)
                           (Number (Backend.amountRs entry)))
                   (Totals.count existing + 1))
  end.

Definition aggregateByYear (entries : list Backend.Entry)
  : list (Yearly.t num) :=
  let yearlyMap := fold_left addToYear entries [] in
  sortBy (fun a b => Yearly.year a - Yearly.year b)
    (map (fun kv : Z * Totals.t num =>
            let (year, data) := kv in
            Yearly.mk year (Totals.totalAmount data) (Totals.count data))
         yearlyMap).

Definition getAvailableYears (entries : list Backend.Entry) : list Z :=
  let years :=
    fold_left
      (fun years entry =>
         match getFullYear LocalTZA
                 (parseManualDate LocalTZA (Backend.manualDate entry)) with
         | Some year => setAdd years year
         | None => years
         end)
      entries [] in
  sortBy (fun a b => b - a) years.

(** The entry's date parses and its year is [year]. *)
Definition inYear (year : Z) (entry : Backend.Entry) : bool :=
  match parseManualDate LocalTZA (Backend.manualDate entry) with
  | Some t => YearFromTime (LocalTime LocalTZA t) =? year
  | None => false
  end.

End AnalyticsByYear.

(** ** Yearly buckets *)

Section AnalyticsByYearVocabulary.

Variable LocalTZA : Z -> bool -> Z.
Variable num : Type.
Variable numZero : num.
Variable numAdd : num -> num -> num.
Variable Number : Z -> num.

(** The bucket of [year]: the sum and the number of the entries whose
    date parses to that year. *)
Definition yearBucket (entries : list Backend.Entry) (year : Z)
  : Yearly.t num :=
  Yearly.mk year
    (sumAmounts num numZero numAdd Number (filter (inYear LocalTZA year) entries))
    (Z.of_nat (List.length (filter (inYear LocalTZA year) entries))).

(** The number of entries counted in the yearly bucket of [year], zero
    when there is no such bucket. *)
Definition yearCount (buckets : list (Yearly.t num)) (year : Z) : Z :=
  match find (fun b => Yearly.year b =? year) buckets with
  | Some b => Yearly.count b
  | None => 0
  end.

(** [yearlyMap.get(year) || { totalAmount: 0, count: 0 }] *)
Definition orZero (o : option (Totals.t num)) : Totals.t num :=
  match o with
  | Some data => data
  | None => Totals.mk numZero 0
  end.

(** The number of entries counted in the twelve monthly buckets. *)
Definition monthCounts (months : list (MonthlyData num)) : Z :=
  fold_left Z.add (map (fun m => count m) months) 0.

End AnalyticsByYearVocabulary.

Arguments yearCount {num} buckets year.
Arguments monthCounts {num} months.
Arguments orZero {num} numZero o.

(** ** The table of the text export *)

(** [String(row[i])] *)
Definition cellAt (r : list cell) (i : nat) : jsstring :=
  cellToString (nth i r (Str (js "undefined"))).



(** ** The canister: the Motoko actor *)

Module Canister.

(** The entry functions of the actor, over the entries it holds.  A
    [Text] is the list of its Unicode code points, a [Principal] the list
    of its bytes.  The user profiles and the upgrade hooks are left out. *)
Definition text := list Z.
Definition principal := list Z.

Definition textEq (a b : text) : bool :=
  if list_eq_dec Z.eq_dec a b then true else false.

(** [Text.compare]: lexicographic in the code points. *)
Fixpoint compareText (a b : text) : comparison :=
  match a, b with
  | [], [] => Eq
  | [], _ :: _ => Lt
  | _ :: _, [] => Gt
  | x :: a', y :: b' =>
      match x ?= y with
      | Eq => compareText a' b'
      | Lt => Lt
      | Gt => Gt
      end
  end.

(** [t.trim(#char c)] *)
Fixpoint trimStartChar (c : Z) (t : text) : text :=
  match t with
  | x :: rest => if x =? c then trimStartChar c rest else t
  | [] => []
  end.

Definition trimEndChar (c : Z) (t : text) : text :=
  rev (trimStartChar c (rev t)).

Definition trimChar (c : Z) (t : text) : text :=
  trimEndChar c (trimStartChar c t).

Module Entry.
Record t := mk {
  id : text;
  manualDate : text;
  customerName : text;
  mobileNumber : text;
  amountRs : N;
  createdAt : Z;
  owner : option principal
}.
End Entry.

Module EntryInput.
Record t := mk {
  id : text;
  manualDate : text;
  customerName : text;
  mobileNumber : text;
  amountRs : N
}.
End EntryInput.

(** The variants of [CreateEntryError], [UpdateEntryError] and
    [DeleteEntryError]. *)
Inductive EntryError :=
| emptyField (field message : text)
| invalidAmount (message : text)
| notFound (message : text)
| unauthorized (message : text).

Definition compareByCreatedAtNewestFirst (entry1 entry2 : Entry.t)
  : comparison :=
  Entry.createdAt entry2 ?= Entry.createdAt entry1.

(** What the functions below read of [accessControlState]: the answers
    of [AccessControl.hasPermission] for the role [#user] and of
    [AccessControl.isAdmin]. *)
Record AccessControl := mkAccessControl {
  hasPermission : principal -> bool;
  isAdmin : principal -> bool
}.

(** A [Map] with [Text] keys: its entries in ascending key order. *)
Definition store := list (text * Entry.t).

Fixpoint get (m : store) (key : text) : option Entry.t :=
  match m with
  | [] => None
  | (k, v) :: rest => if textEq key k then Some v else get rest key
  end.

(** [m.add(key, value)] replaces the value of a key already there. *)
Fixpoint add (m : store) (key : text) (value : Entry.t) : store :=
  match m with
  | [] => [(key, value)]
  | (k, v) :: rest =>
      match compareText key k with
      | Lt => (key, value) :: (k, v) :: rest
      | Eq => (key, value) :: rest
      | Gt => (k, v) :: add rest key value
      end
  end.

Fixpoint remove (m : store) (key : text) : store :=
  match m with
  | [] => []
  | (k, v) :: rest =>
      if textEq key k then remove rest key else (k, v) :: remove rest key
  end.

(** [array.sort(compare)]: the sort is stable. *)
Fixpoint insertOrdered {A} (compare : A -> A -> comparison) (x : A)
    (l : list A) : list A :=
  match l with
  | [] => [x]
  | y :: rest =>
      match compare x y with
      | Gt => y :: insertOrdered compare x rest
      | _ => x :: y :: rest
      end
  end.

Fixpoint sortOrdered {A} (compare : A -> A -> comparison) (l : list A)
  : list A :=
  match l with
  | [] => []
  | x :: rest => insertOrdered compare x (sortOrdered compare rest)
  end.

(** A call traps, and the canister keeps the state it had, or it
    returns a value and leaves the entries [entries]. *)
Inductive outcome (A : Type) :=
| Trap (message : text)
| Return (value : A) (entries : store).
Arguments Trap {A} message.
Arguments Return {A} value entries.

(** The four checks that [createEntry] and [updateEntry] both spell out,
    in this order. *)
Definition checkFields (input : EntryInput.t) : option EntryError :=
  if textEq (trimChar 32 (EntryInput.manualDate input)) [] then
    Some (emptyField (js "manualDate")
            (js "Manual date is required. Please enter a valid date."))
  else if textEq (trimChar 32 (EntryInput.customerName input)) [] then
    Some (emptyField (js "customerName")
            (js "Customer name is required. Please enter a valid name."))
  else if textEq (trimChar 32 (EntryInput.mobileNumber input)) [] then
    Some (emptyField (js "mobileNumber")
            (js "Mobile number is required. Please enter a valid mobile number."))
  else if (EntryInput.amountRs input =? 0)%N then
    Some (invalidAmount
            (js "Amount must be greater than zero. Please enter a valid amount."))
  else None.

(** [now] is what [Time.now()] returns during the call. *)
Definition createEntry (ac : AccessControl) (entries : store)
    (caller : principal) (now : Z) (input : EntryInput.t)
  : outcome (option EntryError) :=
  if negb (hasPermission ac caller) then
    Trap (js "Unauthorized: Only users can create entries")
  else
    match checkFields input with
    | Some error => Return (Some error) entries
    | None =>
        let newEntry :=
          Entry.mk (EntryInput.id input) (EntryInput.manualDate input)
                   (EntryInput.customerName input)
                   (EntryInput.mobileNumber input)
                   (EntryInput.amountRs input) now (Some caller) in
        Return None (add entries (Entry.id newEntry) newEntry)
    end.

Definition principalEq (a b : principal) : bool :=
  if list_eq_dec Z.eq_dec a b then true else false.

(** [owner != ?caller] *)
Definition ownerIsNot (owner : option principal) (caller : principal)
  : bool :=
  match owner with
  | Some p => negb (principalEq p caller)
  | None => true
  end.

Definition updateEntry (ac : AccessControl) (entries : store)
    (caller : principal) (id : text) (updatedFields : EntryInput.t)
  : outcome (option EntryError) :=
  if negb (hasPermission ac caller) then
    Trap (js "Unauthorized: Only users can update entries")
  else
    match get entries id with
    | None =>
        Return
          (Some (notFound
                   (js "Entry not found. Cannot update non-existent entry.")))
          entries
    | Some originalEntry =>
        if ownerIsNot (Entry.owner originalEntry) caller
           && negb (isAdmin ac caller)
        then
          Return
            (Some (unauthorized
                     (js "Unauthorized: You can only update your own entries.")))
            entries
        else
          match checkFields updatedFields with
          | Some error => Return (Some error) entries
          | None =>
              let updatedEntry :=
                Entry.mk (Entry.id originalEntry)
                         (EntryInput.manualDate updatedFields)
                         (EntryInput.customerName updatedFields)
                         (EntryInput.mobileNumber updatedFields)
                         (EntryInput.amountRs updatedFields)
                         (Entry.createdAt originalEntry)
                         (Entry.owner originalEntry) in
              Return None (add entries id updatedEntry)
          end
    end.

Definition deleteEntry (ac : AccessControl) (entries : store)
    (caller : principal) (id : text) : outcome (option EntryError) :=
  if negb (hasPermission ac caller) then
    Trap (js "Unauthorized: Only users can delete entries")
  else
    match get entries id with
    | None =>
        Return
          (Some (notFound
                   (js "Entry not found. Cannot delete non-existent entry.")))
          entries
    | Some entry =>
        if ownerIsNot (Entry.owner entry) caller && negb (isAdmin ac caller)
        then
          Return
            (Some (unauthorized
                     (js "Unauthorized: You can only delete your own entries.")))
            entries
        else Return None (remove entries id)
    end.

Definition listEntriesNewestFirst (ac : AccessControl) (entries : store)
    (caller : principal) : outcome (list Entry.t) :=
  if negb (hasPermission ac caller) then
    Trap (js "Unauthorized: Only users can list entries")
  else
    Return (sortOrdered compareByCreatedAtNewestFirst (map snd entries))
           entries.

(** An update call to the canister. *)
Inductive call :=
| CreateEntry (ac : AccessControl) (caller : principal) (now : Z)
    (input : EntryInput.t)
| UpdateEntry (ac : AccessControl) (caller : principal) (id : text)
    (updatedFields : EntryInput.t)
| DeleteEntry (ac : AccessControl) (caller : principal) (id : text).

Definition entriesAfter {A} (before : store) (o : outcome A) : store :=
  match o with
  | Trap _ => before
  | Return _ entries => entries
  end.

Definition step (entries : store) (c : call) : store :=
  match c with
  | CreateEntry ac caller now input =>
      entriesAfter entries (createEntry ac entries caller now input)
  | UpdateEntry ac caller id updatedFields =>
      entriesAfter entries (updateEntry ac entries caller id updatedFields)
  | DeleteEntry ac caller id =>
      entriesAfter entries (deleteEntry ac entries caller id)
  end.

(** The entries after the calls [calls], made one after the other to a
    canister that holds no entry. *)
Definition run (calls : list call) : store := fold_left step calls [].

(** The keys ascend. *)
Definition keyLt (a b : text * Entry.t) : Prop :=
  compareText (fst a) (fst b) = Lt.

(** The text holds a character other than a space. *)
Definition notBlank (t : text) : bool :=
  existsb (fun x => negb (x =? 32)) t.

(** What is stored under [key] carries that id, three fields that are
    not blank, an amount above zero and an owner. *)
Definition wellStored (kv : text * Entry.t) : Prop :=
  Entry.id (snd kv) = fst kv
  /\ notBlank (Entry.manualDate (snd kv)) = true
  /\ notBlank (Entry.customerName (snd kv)) = true
  /\ notBlank (Entry.mobileNumber (snd kv)) = true
  /\ (0 < Entry.amountRs (snd kv))%N
  /\ Entry.owner (snd kv) <> None.

(** No entry comes before one created later. *)
Definition newerOrSame (a b : Entry.t) : Prop :=
  Entry.createdAt b <= Entry.createdAt a.

(** The keys ascend and every entry is well stored. *)
Definition invariant (m : store) : Prop :=
  StronglySorted keyLt m /\ Forall wellStored m.

(** The call may change what is stored under [key], where [entry] is
    stored: a creation under that id by any user, an update or a
    deletion of that id by the owner or an administrator. *)
Definition mayChange (c : call) (key : text) (entry : Entry.t) : bool :=
  match c with
  | CreateEntry ac caller _ input =>
      hasPermission ac caller && textEq (EntryInput.id input) key
  | UpdateEntry ac caller id _ =>
      hasPermission ac caller && textEq id key
      && (negb (ownerIsNot (Entry.owner entry) caller) || isAdmin ac caller)
  | DeleteEntry ac caller id =>
      hasPermission ac caller && textEq id key
      && (negb (ownerIsNot (Entry.owner entry) caller) || isAdmin ac caller)
  end.

(** An access control under which every principal is a user and none an
    administrator, and two inputs, for the examples. *)
Definition usersOnly : AccessControl :=
  mkAccessControl (fun _ => true) (fun _ => false).

Definition firstInput : EntryInput.t :=
  EntryInput.mk (js "1700000000000-abc") (js "2024-03-10") (js "Jane Doe")
                (js "1234567890") 500.

Definition secondInput : EntryInput.t :=
  EntryInput.mk (js "ignored") (js "2024-03-11") (js "Jane Roe")
                (js "1234567890") 750.

End Canister.

(** ** authErrors.ts *)

(** [s.includes(pattern)] *)
Fixpoint includesString (pattern s : jsstring) : bool :=
  startsWith pattern s
  || match s with
     | [] => false
     | _ :: rest => includesString pattern rest
     end.

(** [error] is [None] for a missing error and [Some message] for an
    Error object.  The ASCII part of [toLowerCase] decides the test: of
    the other code units only U+212A and U+0130 have a lower case that
    involves an ASCII letter, k for the first, and for the second an i
    that a combining dot follows, whereas the i of [unauthorized] is
    followed by z. *)
Definition isAuthorizationError (error : option jsstring) : bool :=
  match error with
  | None => false
  | Some errorMessage =>
      includesString (js "unauthorized") (toLowerCase errorMessage)
  end.

Definition getAuthPromptMessage : jsstring :=
  js "Please sign in with Internet Identity to access this feature.".
Definition getCreateEntryAuthMessage : jsstring :=
  js "Please sign in with Internet Identity to save entries.".
Definition getViewEntriesAuthMessage : jsstring :=
  js "Please sign in with Internet Identity to view entries.".
Definition getUpdateEntryAuthMessage : jsstring :=
  js "Please sign in with Internet Identity to update entries.".
Definition getDeleteEntryAuthMessage : jsstring :=
  js "Please sign in with Internet Identity to delete entries.".

(** ** Doubles *)

(** The integer nearest to p/q, the even one of two that are equally
    near, for 0 <= p and 0 < q. *)
Definition roundHalfEven (p q : Z) : Z :=
  let f := p / q in
  let r := p mod q in
  if 2 * r <? q then f
  else if q <? 2 * r then f + 1
  else if Z.even f then f
  else f + 1.

(** p/q divided by 2^e, as a fraction. *)
Definition scaled (p q e : Z) : Z * Z :=
  if 0 <=? e then (p, q * 2 ^ e) else (p * 2 ^ (- e), q).

(** The integer part of the binary logarithm of p/q, for 0 < p, q. *)
Definition binaryExponent (p q : Z) : Z :=
  let l := Z.log2 p - Z.log2 q in
  let (n, d) := scaled p q l in
  if n <? d then l - 1 else l.

(** The double nearest to p/q, for 0 <= p and 0 < q, in the rounding of
    IEEE 754 to nearest, ties to even: [Some (m, e)] is m * 2^e with a
    significand m of at most 53 bits and e at least -1074, [None] is
    Infinity. *)
Definition toDouble (p q : Z) : option (Z * Z) :=
  if p =? 0 then Some (0, 0)
  else
    let e := Z.max (binaryExponent p q - 52) (-1074) in
    let (n, d) := scaled p q e in
    let m := roundHalfEven n d in
    if (971 <? e) || ((e =? 971) && (m =? 2 ^ 53)) then None
    else Some (m, e).

(** [Math.floor] and [Math.ceil] of the double m * 2^e. *)
Definition floorOf (me : Z * Z) : Z :=
  let (m, e) := me in
  if 0 <=? e then m * 2 ^ e else m / 2 ^ (- e).

Definition ceilOf (me : Z * Z) : Z :=
  let (m, e) := me in
  if 0 <=? e then m * 2 ^ e else - ((- m) / 2 ^ (- e)).

(** The fraction that [Decimal _ digits exponent] stands for. *)
Definition fractionOf (digits exponent : Z) : Z * Z :=
  if 0 <=? exponent then (digits * 10 ^ exponent, 1)
  else (digits, 10 ^ (- exponent)).

(** ** queries.ts: the mutations *)

(** What [await] gives: the promise is rejected with an Error object
    that has this message, or fulfilled with a value. *)
Module Await.
Inductive t (A : Type) :=
| Rejected (message : jsstring)
| Fulfilled (value : A).
Arguments Rejected {A} message.
Arguments Fulfilled {A} value.
End Await.

(** [EntryInput] of backend.d.ts *)
Module EntryInput.
Record t := mk {
  id : jsstring;
  manualDate : jsstring;
  customerName : jsstring;
  mobileNumber : jsstring;
  amountRs : Z
}.
End EntryInput.

(** The three methods of the actor that the mutations call, each with
    the answer it gives to the call at hand. *)
Module Actor.
Record t := mk {
  createEntry : EntryInput.t -> Await.t (option Canister.EntryError);
  updateEntry :
    jsstring -> EntryInput.t -> Await.t (option Canister.EntryError);
  deleteEntry : jsstring -> Await.t (option Canister.EntryError)
}.
End Actor.

Record UpdateEntryInput := mkUpdateEntryInput {
  updateId : jsstring;
  updateFields : ParsedRow
}.

(** The catch block of the three mutations: an authorization error is
    replaced by the prompt to sign in, any other error is thrown again. *)
Definition catchAuthorization (prompt : jsstring) (attempt : completion unit)
  : completion unit :=
  match attempt with
  | Normal tt => Normal tt
  | Throw message =>
      if isAuthorizationError (Some message) then Throw prompt
      else Throw message
  end.

(** The try blocks, given what awaiting the call gives. *)
Definition createEntryAttempt (answer : Await.t (option Canister.EntryError))
  : completion unit :=
  catchAuthorization getCreateEntryAuthMessage
    match answer with
    | Await.Rejected message => Throw message
    | Await.Fulfilled None => Normal tt
    | Await.Fulfilled (Some result) =>
        Throw
          match result with
          | Canister.emptyField _ message => message
          | Canister.invalidAmount message => message
          | _ => js "Failed to save entry. Please try again."
          end
    end.

Definition updateEntryAttempt (answer : Await.t (option Canister.EntryError))
  : completion unit :=
  catchAuthorization getUpdateEntryAuthMessage
    match answer with
    | Await.Rejected message => Throw message
    | Await.Fulfilled None => Normal tt
    | Await.Fulfilled (Some result) =>
        Throw
          match result with
          | Canister.emptyField _ message => message
          | Canister.invalidAmount message => message
          | Canister.notFound message => message
          | Canister.unauthorized message => message
          end
    end.

Definition deleteEntryAttempt (answer : Await.t (option Canister.EntryError))
  : completion unit :=
  catchAuthorization getDeleteEntryAuthMessage
    match answer with
    | Await.Rejected message => Throw message
    | Await.Fulfilled None => Normal tt
    | Await.Fulfilled (Some result) =>
        Throw
          match result with
          | Canister.notFound message => message
          | Canister.unauthorized message => message
          | _ => js "Failed to delete entry. Please try again."
          end
    end.

Section Mutations.

(** The message of the RangeError that [BigInt] throws for a number that
    is not an integer: the engine words it. *)
Variable notAnInteger : number -> jsstring.

(** [BigInt(Math.floor(n))] for what [parseFloat] returned. *)
Definition toBigIntFloor (n : number) : completion Z :=
  match n with
  | NaN => Throw (notAnInteger n)
  | Infinity _ => Throw (notAnInteger n)
  | Decimal negative digits exponent =>
      let (p, q) := fractionOf digits exponent in
      match toDouble p q with
      | None => Throw (notAnInteger (Infinity negative))
      | Some me => Normal (if negative then - ceilOf me else floorOf me)
      end
  end.

(** [mutationFn] of [useCreateEntry]; [id] is the id it makes up from
    the clock and a random number. *)
Definition createEntryMutationFn (actor : option Actor.t) (id : jsstring)
    (input : ParsedRow) : completion unit :=
  match actor with
  | None => Throw (js "Actor not initialized")
  | Some actor =>
      amount <- toBigIntFloor (parseFloat (amountRs input)) ;;
      let entryInput :=
        EntryInput.mk id (manualDate input) (customerName input)
                      (mobileNumber input) amount in
      createEntryAttempt (Actor.createEntry actor entryInput)
  end.

Definition updateEntryMutationFn (actor : option Actor.t)
    (input : UpdateEntryInput) : completion unit :=
  match actor with
  | None => Throw (js "Actor not initialized")
  | Some actor =>
      amount <- toBigIntFloor (parseFloat (amountRs (updateFields input))) ;;
      let entryInput :=
        EntryInput.mk (updateId input) (manualDate (updateFields input))
                      (customerName (updateFields input))
                      (mobileNumber (updateFields input)) amount in
      updateEntryAttempt
        (Actor.updateEntry actor (updateId input) entryInput)
  end.

Definition deleteEntryMutationFn (actor : option Actor.t) (id : jsstring)
  : completion unit :=
  match actor with
  | None => Throw (js "Actor not initialized")
  | Some actor => deleteEntryAttempt (Actor.deleteEntry actor id)
  end.

End Mutations.

(** [retry] of [useListEntries] *)
Definition retryListEntries (failureCount : Z) (error : option jsstring)
  : bool :=
  if isAuthorizationError error then false else failureCount <? 3.

(** An actor whose calls all succeed, the rejection an agent raises for a
    trap of [createEntry], and an access control that knows no user, for
    the examples. *)
Definition obligingActor : Actor.t :=
  Actor.mk (fun _ => Await.Fulfilled None) (fun _ _ => Await.Fulfilled None)
           (fun _ => Await.Fulfilled None).

Definition quotedTrap : jsstring :=
  js "Call was rejected: Canister trapped explicitly: Unauthorized: Only users can create entries".

Definition noUsers : Canister.AccessControl :=
  Canister.mkAccessControl (fun _ => false) (fun _ => false).

(** The first cell of the header line names a column. *)
Definition firstColumnRecognised (text : jsstring) : bool :=
  match fileLines text with
  | header :: _ =>
      match headerMapping header with
      | Some _ :: _ => true
      | _ => false
      end
  | [] => false
  end.

(** ** AnalyticsSection.tsx *)

(** The year the monthly chart shows when the component is first
    rendered; [currentYear] is [new Date().getFullYear()]. *)
Definition initialSelectedYear (LocalTZA : Z -> bool -> Z)
    (entries : list Backend.Entry) (currentYear : Z) : Z :=
  let availableYears := getAvailableYears LocalTZA entries in
  if existsb (Z.eqb currentYear) availableYears then currentYear
  else
    match availableYears with
    | year :: _ => if year =? 0 then currentYear else year
    | [] => currentYear
    end.

(** The entry has a date that parses. *)
Definition hasDate (LocalTZA : Z -> bool -> Z) (entry : Backend.Entry) : bool :=
  isSome (parseManualDate LocalTZA (Backend.manualDate entry)).

(** The number of entries counted in the yearly buckets. *)
Definition yearCounts {num} (buckets : list (Yearly.t num)) : Z :=
  fold_left Z.add (map (fun b => Yearly.count b) buckets) 0.

(* ================================================================== *)
(** * Part III: properties                                             *)
(* ================================================================== *)

(** ** White space and trimming *)

Lemma trimStart_nil_iff (s : jsstring) :
  trimStart s = [] <-> forallb isWhiteSpace s = true.
Proof.
  induction s as [|c s IH]; simpl.
  - tauto.
  - destruct (isWhiteSpace c); simpl.
    + exact IH.
    + split; discriminate.
Qed.

Lemma trimStart_head (s : jsstring) (c : Z) (r : jsstring) :
  trimStart s = c :: r -> isWhiteSpace c = false.
Proof.
  induction s as [|x s IH]; simpl; [discriminate|].
  destruct (isWhiteSpace x) eqn:E; [exact IH|].
  intros H; injection H as -> _; exact E.
Qed.

Lemma forallb_rev {A} (p : A -> bool) (l : list A) :
  forallb p (rev l) = forallb p l.
Proof.
  induction l as [|x l IH]; simpl; [reflexivity|].
  rewrite forallb_app, IH; simpl.
  rewrite andb_true_r; apply andb_comm.
Qed.

Lemma trim_nil_iff (s : jsstring) :
  trim s = [] <-> forallb isWhiteSpace s = true.
Proof.
  unfold trim, trimEnd.
  rewrite <- trimStart_nil_iff.
  split.
  - intros H.
    apply (f_equal (@rev Z)) in H; rewrite rev_involutive in H; simpl in H.
    apply trimStart_nil_iff in H; rewrite forallb_rev in H.
    destruct (trimStart s) as [|c r] eqn:E; [reflexivity|].
    apply trimStart_head in E.
    simpl in H; rewrite E in H; discriminate.
  - intros ->; reflexivity.
Qed.

Lemma jseq_true_iff (a b : jsstring) : jseq a b = true <-> a = b.
Proof.
  unfold jseq; destruct (list_eq_dec Z.eq_dec a b); split; congruence.
Qed.

(** [blank] holds of the empty string and of strings of white space
    only. *)
Lemma blank_iff (s : jsstring) :
  blank s = forallb isWhiteSpace s.
Proof.
  unfold blank.
  destruct (forallb isWhiteSpace s) eqn:E.
  - apply trim_nil_iff in E; rewrite E; simpl; apply orb_true_r.
  - destruct s as [|c s]; [discriminate|]; simpl.
    destruct (jseq (trim (c :: s)) []) eqn:J; [|reflexivity].
    apply jseq_true_iff, trim_nil_iff in J; congruence.
Qed.

(** ** Validation *)

Lemma digitsOnly_negb_iff (value : jsstring) :
  blank value = false ->
  negb (digitsOnly value) = existsb (fun c => negb (isDigit c)) value.
Proof.
  intros Hb; unfold digitsOnly.
  destruct value as [|c s]; [discriminate|].
  cbn [falsy negb andb].
  generalize (c :: s); intros l.
  induction l as [|x l IH]; simpl; [reflexivity|].
  destruct (isDigit x); simpl; [exact IH|reflexivity].
Qed.

(** C8.  [validateMobileNumber] is total and decides in this order: a
    value that is empty or all white space is required; otherwise a value
    with a character that is not a digit must contain only digits;
    otherwise a length outside 10..15 is refused; everything else passes. *)
Theorem validateMobileNumber_cases (value : jsstring) :
  (forallb isWhiteSpace value = true
   /\ validateMobileNumber value = invalid (js "Mobile Number is required"))
  \/
  (forallb isWhiteSpace value = false
   /\ existsb (fun c => negb (isDigit c)) value = true
   /\ validateMobileNumber value
      = invalid (js "Mobile Number must contain only digits"))
  \/
  (forallb isWhiteSpace value = false
   /\ existsb (fun c => negb (isDigit c)) value = false
   /\ (jslength value < 10 \/ 15 < jslength value)
   /\ validateMobileNumber value
      = invalid (js "Mobile Number must be between 10 and 15 digits"))
  \/
  (forallb isWhiteSpace value = false
   /\ existsb (fun c => negb (isDigit c)) value = false
   /\ 10 <= jslength value <= 15
   /\ validateMobileNumber value = valid).
Proof.
  unfold validateMobileNumber.
  rewrite <- blank_iff.
  destruct (blank value) eqn:Hb; [left; split; reflexivity|right].
  rewrite (digitsOnly_negb_iff value Hb).
  destruct (existsb _ value) eqn:Hd; [left; repeat split; reflexivity|right].
  destruct (jslength value <? 10) eqn:H1; simpl.
  - left; repeat split; try reflexivity. left; lia.
  - destruct (jslength value >? 15) eqn:H2.
    + left; repeat split; try reflexivity. right; lia.
    + right; repeat split; try reflexivity; lia.
Qed.

(** The decision made by [validateAmount], in terms of what [parseFloat]
    returns. *)
Lemma validateAmount_cases (value : jsstring) :
  validateAmount value =
    if forallb isWhiteSpace value then invalid (js "Amount is required")
    else
      match parseFloat value with
      | NaN => invalid (js "Amount must be a valid number")
      | Infinity negative =>
          if negative then invalid (js "Amount must be greater than 0")
          else valid
      | Decimal negative d e =>
          if negative || roundsToZero d e
          then invalid (js "Amount must be greater than 0")
          else valid
      end.
Proof.
  unfold validateAmount; rewrite blank_iff.
  destruct (forallb isWhiteSpace value); [reflexivity|].
  destruct (parseFloat value) as [|n|n d e]; reflexivity.
Qed.

(** C3.  The text Infinity is not empty, [parseFloat] reads it as the
    value Infinity, which is neither NaN nor at most 0, so the amount is
    accepted although it denotes no real number. *)
Theorem validateAmount_Infinity_passes :
  parseFloat (js "Infinity") = Infinity false
  /\ validateAmount (js "Infinity") = valid.
Proof. split; reflexivity. Qed.

(** A numeric prefix is enough: what follows it is ignored. *)
Lemma validateAmount_prefix_passes :
  parseFloat (js "12abc") = Decimal false 12 0
  /\ validateAmount (js "12abc") = valid.
Proof. split; reflexivity. Qed.

(** ** The quote-aware splitter *)

Lemma parseCSVLineFrom_quoted (s cur : jsstring) (res : list jsstring) :
  parseCSVLineFrom res cur true (doubleQuotes s ++ [34])
  = res ++ [trim (cur ++ s)].
Proof.
  revert cur; induction s as [|c s IH]; intros cur.
  - simpl. rewrite app_nil_r; reflexivity.
  - cbn [doubleQuotes flat_map].
    destruct (c =? 34) eqn:E.
    + apply Z.eqb_eq in E; subst c.
      cbn [app parseCSVLineFrom Z.eqb Pos.eqb andb].
      fold (doubleQuotes s).
      rewrite IH, <- app_assoc; reflexivity.
    + cbn [app parseCSVLineFrom]. rewrite E.
      cbn [negb andb]. rewrite andb_false_r.
      fold (doubleQuotes s).
      rewrite IH, <- app_assoc; reflexivity.
Qed.

Lemma parseCSVLineFrom_plain (s cur : jsstring) (res : list jsstring) :
  includes 44 s = false -> includes 34 s = false ->
  parseCSVLineFrom res cur false s = res ++ [trim (cur ++ s)].
Proof.
  revert cur; induction s as [|c s IH]; intros cur Hc Hq.
  - simpl. rewrite app_nil_r; reflexivity.
  - unfold includes in Hc, Hq; cbn [existsb] in Hc, Hq.
    apply orb_false_elim in Hc as [Hc1 Hc2].
    apply orb_false_elim in Hq as [Hq1 Hq2].
    rewrite Z.eqb_sym in Hc1; rewrite Z.eqb_sym in Hq1.
    cbn [parseCSVLineFrom]. rewrite Hq1, Hc1. cbn [andb].
    rewrite (IH _ Hc2 Hq2), <- app_assoc; reflexivity.
Qed.

(** Escaping a field and splitting the result gives the field back, up to
    the trimming the splitter applies to every field. *)
Lemma parseCSVLine_escapeCSVField (s : jsstring) :
  parseCSVLine (escapeCSVField (Str s)) = [trim s].
Proof.
  unfold parseCSVLine, escapeCSVField; cbn [cellToString].
  destruct (includes 44 s) eqn:Hc; cbn [orb].
  - cbn [app parseCSVLineFrom Z.eqb Pos.eqb].
    destruct (doubleQuotes s ++ [34]) eqn:E.
    + destruct (doubleQuotes s); discriminate.
    + cbn [andb negb]. rewrite <- E. apply (parseCSVLineFrom_quoted s [] []).
  - destruct (includes 34 s) eqn:Hq; cbn [orb].
    + cbn [app parseCSVLineFrom Z.eqb Pos.eqb].
      destruct (doubleQuotes s ++ [34]) eqn:E.
      * destruct (doubleQuotes s); discriminate.
      * cbn [andb negb]. rewrite <- E. apply (parseCSVLineFrom_quoted s [] []).
    + destruct (includes 10 s).
      * cbn [app parseCSVLineFrom Z.eqb Pos.eqb].
        destruct (doubleQuotes s ++ [34]) eqn:E.
        -- destruct (doubleQuotes s); discriminate.
        -- cbn [andb negb]. rewrite <- E. apply (parseCSVLineFrom_quoted s [] []).
      * apply (parseCSVLineFrom_plain s [] [] Hc Hq).
Qed.

(** C5.  The field made of a, a comma, a quoted b, a line feed and c is
    written wrapped in quotes with its two quotes doubled, and the
    splitter reads that text back as the one original field. *)
Theorem escapeCSVField_roundtrip_example :
  escapeCSVField (Str [97; 44; 34; 98; 34; 10; 99])
  = [34; 97; 44; 34; 34; 98; 34; 34; 10; 99; 34]
  /\ parseCSVLine [34; 97; 44; 34; 34; 98; 34; 34; 10; 99; 34]
     = [[97; 44; 34; 98; 34; 10; 99]].
Proof. split; reflexivity. Qed.

Lemma parseCSVLineFrom_length_bounded (n : nat) :
  forall line result current inQuotes,
    (List.length line <= n)%nat ->
    (List.length result
     < List.length (parseCSVLineFrom result current inQuotes line))%nat.
Proof.
  induction n as [|n IH]; intros line result current inQuotes Hn;
    destruct line as [|char rest]; cbn [parseCSVLineFrom];
    try (rewrite length_app; simpl; lia); simpl in Hn; try lia.
  destruct (char =? 34).
  - destruct rest as [|nextChar rest'].
    + apply IH; simpl; lia.
    + destruct (inQuotes && (nextChar =? 34)); apply IH; simpl in *; lia.
  - destruct ((char =? 44) && negb inQuotes).
    + eapply Nat.lt_trans; [|apply IH; lia].
      rewrite length_app; simpl; lia.
    + apply IH; lia.
Qed.

Lemma parseCSVLineFrom_length (line : jsstring) :
  forall result current inQuotes,
    (List.length result
     < List.length (parseCSVLineFrom result current inQuotes line))%nat.
Proof.
  intros; apply (parseCSVLineFrom_length_bounded (List.length line)); lia.
Qed.

(** Inside its bounds the inner loop never reads an undefined value. *)
Lemma assignFields_normal (n : nat) :
  forall j values fieldMapping parsedRow hasAnyField,
    (j + n <= List.length values)%nat ->
    exists st, assignFields n j values fieldMapping parsedRow hasAnyField
               = Normal st.
Proof.
  induction n as [|n IH]; intros j values fieldMapping parsedRow hasAnyField Hb;
    cbn [assignFields].
  - eexists; reflexivity.
  - destruct (nth_error fieldMapping j) as [[fieldName|]|].
    + destruct (nth_error values j) as [v|] eqn:Ev.
      * apply IH; lia.
      * apply nth_error_None in Ev; lia.
    + apply IH; lia.
    + apply IH; lia.
Qed.

Lemma tryRow_normal (fieldMapping : list (option columnTarget))
    (rowNumber : Z) (line : jsstring) :
  exists outcome, tryRow fieldMapping rowNumber line = Normal outcome.
Proof.
  unfold tryRow.
  destruct (assignFields_normal
              (Nat.min (List.length (parseCSVLine line)) (List.length fieldMapping))
              0 (parseCSVLine line) fieldMapping emptyPartialRow false)
    as [[parsedRow hasAnyField] E]; [lia|].
  rewrite E; cbn [bind].
  destruct (negb hasAnyField); [eexists; reflexivity|].
  destruct (validateRow _ rowNumber); eexists; reflexivity.
Qed.

(** An opening quote that is never closed: the rest of the line, commas
    included, is one field. *)
Lemma parseCSVLine_unterminated_quote :
  parseCSVLine ([34] ++ js "a,b") = [js "a,b"]
  /\ parseCSVLine (js "a" ++ [34] ++ js "b,c") = [js "ab,c"].
Proof. split; reflexivity. Qed.

(** C10.  [parseCSVLine] is defined on every string, balanced quotes or
    not, and yields at least one field; the [try] block that calls it
    completes normally on every line, so the [catch] that would turn an
    exception into a row error is never entered. *)
Theorem parseCSVLine_total_catch_unreachable (line : jsstring) :
  (1 <= List.length (parseCSVLine line))%nat
  /\ forall fieldMapping rowNumber,
       exists outcome, tryRow fieldMapping rowNumber line = Normal outcome.
Proof.
  split.
  - pose proof (parseCSVLineFrom_length line [] [] false) as H.
    unfold parseCSVLine; simpl in H; lia.
  - intros; apply tryRow_normal.
Qed.

(** ** The importer *)

Lemma rowsLoop_spec (fieldMapping : list (option columnTarget))
    (rest : list jsstring) :
  forall i acc,
    rowsLoop fieldMapping rest i acc
    = mkImportResult
        (validRows acc ++ successesOf fieldMapping (numberedFrom i rest))
        (errors acc ++ failuresOf fieldMapping (numberedFrom i rest)).
Proof.
  induction rest as [|l rest IH]; intros i acc.
  - simpl. rewrite !app_nil_r. destruct acc; reflexivity.
  - cbn [rowsLoop numberedFrom].
    unfold successesOf, failuresOf; cbn [flat_map outcomeOf fst].
    fold (successesOf fieldMapping (numberedFrom (i + 1) rest)).
    fold (failuresOf fieldMapping (numberedFrom (i + 1) rest)).
    destruct (falsy (trim l)); [rewrite IH; reflexivity|].
    destruct (tryRow fieldMapping (i + 1) (trim l)) as [[| m | r] | m];
      rewrite IH; cbn [pushError pushValid validRows errors app];
      rewrite <- ?app_assoc; reflexivity.
Qed.

Lemma assignFields_unmapped (n : nat) :
  forall j values fieldMapping parsedRow hasAnyField,
    existsb isSome fieldMapping = false ->
    assignFields n j values fieldMapping parsedRow hasAnyField
    = Normal (parsedRow, hasAnyField).
Proof.
  induction n as [|n IH]; intros j values fieldMapping parsedRow hasAnyField Hn;
    cbn [assignFields]; [reflexivity|].
  destruct (nth_error fieldMapping j) as [[fieldName|]|] eqn:E.
  - apply nth_error_In in E.
    assert (existsb isSome fieldMapping = true) as Ht
      by (apply existsb_exists; exists (Some fieldName); split; [exact E|reflexivity]).
    congruence.
  - apply IH; exact Hn.
  - apply IH; exact Hn.
Qed.

(** A row can only fail validation under a header with a recognised
    column: otherwise the row has no field and is skipped. *)
Lemma outcomeOf_unmapped (fieldMapping : list (option columnTarget))
    (nl : Z * jsstring) :
  existsb isSome fieldMapping = false ->
  outcomeOf fieldMapping nl = RowSkipped.
Proof.
  intros Hn; destruct nl as [rowNumber l]; unfold outcomeOf.
  destruct (falsy (trim l)); [reflexivity|].
  unfold tryRow. rewrite (assignFields_unmapped _ _ _ _ _ _ Hn).
  reflexivity.
Qed.

Lemma flat_map_nil_iff {A B} (f : A -> list B) (l : list A) :
  flat_map f l = [] <-> forall x, In x l -> f x = [].
Proof.
  induction l as [|a l IH]; simpl.
  - split; [intros _ x []|reflexivity].
  - split.
    + intros H. apply app_eq_nil in H as [H1 H2].
      intros x [<-|Hx]; [exact H1|apply IH; assumption].
    + intros H. rewrite (H a (or_introl eq_refl)).
      simpl. apply IH. intros x Hx; apply H; right; exact Hx.
Qed.

Lemma onload_structure (text : jsstring) :
  onload text =
    if falsy text then Rejected (js "Failed to read file")
    else
      match fileLines text with
      | [] => Rejected (js "File is empty")
      | header :: rest =>
          if negb (existsb isSome (headerMapping header)) then
            Rejected (js "No recognized columns found in the file")
          else
            match successesOf (headerMapping header) (numberedFrom 1 rest),
                  failuresOf (headerMapping header) (numberedFrom 1 rest) with
            | [], [] => Rejected (js "No data rows found in the file")
            | valids, failures => Resolved (mkImportResult valids failures)
            end
      end.
Proof.
  unfold onload, onloadBody.
  destruct (falsy text); [reflexivity|].
  destruct (fileLines text) as [|header rest]; [reflexivity|].
  cbn [List.length Nat.eqb nth_error tl]. fold (headerMapping header).
  destruct (negb (existsb isSome (headerMapping header))); [reflexivity|].
  rewrite rowsLoop_spec; cbn [validRows errors app].
  destruct (successesOf _ _); destruct (failuresOf _ _); reflexivity.
Qed.

(** C1.  The promise is rejected in exactly three situations: the file has
    no non-blank line, no header cell is recognised, or the data lines
    yield neither a valid row nor an error.  In every other case it is
    resolved with the valid rows and the errors; in particular a file in
    which some row fails validation and none passes is resolved with no
    valid row and the list of failures. *)
Theorem parseXLSXFile_rejects_only_structural (text : jsstring) :
  ((fileLines text = []
    /\ parseXLSXFile (ReadText text)
       = Rejected (if falsy text then js "Failed to read file"
                   else js "File is empty"))
   \/ exists header rest,
        fileLines text = header :: rest
        /\ ((existsb isSome (headerMapping header) = false
             /\ parseXLSXFile (ReadText text)
                = Rejected (js "No recognized columns found in the file"))
            \/ (existsb isSome (headerMapping header) = true
                /\ successesOf (headerMapping header) (numberedFrom 1 rest) = []
                /\ failuresOf (headerMapping header) (numberedFrom 1 rest) = []
                /\ parseXLSXFile (ReadText text)
                   = Rejected (js "No data rows found in the file"))
            \/ (existsb isSome (headerMapping header) = true
                /\ (successesOf (headerMapping header) (numberedFrom 1 rest) <> []
                    \/ failuresOf (headerMapping header) (numberedFrom 1 rest) <> [])
                /\ parseXLSXFile (ReadText text)
                   = Resolved
                       (mkImportResult
                          (successesOf (headerMapping header) (numberedFrom 1 rest))
                          (failuresOf (headerMapping header) (numberedFrom 1 rest))))))
  /\
  (forall header rest,
      fileLines text = header :: rest ->
      (exists nl m, In nl (numberedFrom 1 rest)
                    /\ outcomeOf (headerMapping header) nl = RowInvalid m) ->
      (forall nl r, In nl (numberedFrom 1 rest) ->
                    outcomeOf (headerMapping header) nl <> RowValid r) ->
      failuresOf (headerMapping header) (numberedFrom 1 rest) <> []
      /\ parseXLSXFile (ReadText text)
         = Resolved
             (mkImportResult []
                (failuresOf (headerMapping header) (numberedFrom 1 rest)))).
Proof.
  cbn [parseXLSXFile]. rewrite onload_structure. split.
  - destruct (falsy text) eqn:Ef.
    + left. destruct text; [|discriminate]. split; reflexivity.
    + destruct (fileLines text) as [|header rest]; [left; split; reflexivity|].
      right; exists header, rest; split; [reflexivity|].
      destruct (existsb isSome (headerMapping header)) eqn:Eh; cbn [negb].
      * right.
        destruct (successesOf _ _) as [|r rs] eqn:Es;
          destruct (failuresOf _ _) as [|e es] eqn:Ee.
        -- left; repeat split; reflexivity.
        -- right; repeat split; try reflexivity. right; discriminate.
        -- right; repeat split; try reflexivity. left; discriminate.
        -- right; repeat split; try reflexivity. left; discriminate.
      * left; split; reflexivity.
  - intros header rest Hl (nl & m & Hin & Hm) Hnone.
    assert (falsy text = false) as ->
      by (destruct text; [discriminate Hl|reflexivity]).
    rewrite Hl.
    assert (existsb isSome (headerMapping header) = true) as ->.
    { destruct (existsb isSome (headerMapping header)) eqn:E; [reflexivity|].
      rewrite (outcomeOf_unmapped _ nl E) in Hm; discriminate. }
    cbn [negb].
    assert (successesOf (headerMapping header) (numberedFrom 1 rest) = []) as ->.
    { apply flat_map_nil_iff. intros x Hx.
      destruct (outcomeOf (headerMapping header) x) eqn:E; try reflexivity.
      exfalso; exact (Hnone x _ Hx E). }
    assert (failuresOf (headerMapping header) (numberedFrom 1 rest) <> []) as Hne.
    { intros Hnil.
      pose proof (proj1 (flat_map_nil_iff _ _) Hnil nl Hin) as H.
      cbv beta in H. rewrite Hm in H; discriminate. }
    split; [exact Hne|].
    destruct (failuresOf _ _); [congruence|reflexivity].
Qed.

(** The theorem at a header with all four columns and one data row that
    lacks its date and has a short mobile number. *)
Lemma parseXLSXFile_rejects_only_structural_witness :
  failuresOf (headerMapping (js "Date,Name,Mobile,Amount"))
             (numberedFrom 1 [js ",Jane,123,500"])
  <> []
  /\ parseXLSXFile
       (ReadText (js "Date,Name,Mobile,Amount" ++ lineFeed ++ js ",Jane,123,500"))
     = Resolved
         (mkImportResult []
            (failuresOf (headerMapping (js "Date,Name,Mobile,Amount"))
                        (numberedFrom 1 [js ",Jane,123,500"]))).
Proof.
  apply (proj2 (parseXLSXFile_rejects_only_structural
                  (js "Date,Name,Mobile,Amount" ++ lineFeed ++ js ",Jane,123,500"))
               (js "Date,Name,Mobile,Amount") [js ",Jane,123,500"]).
  - reflexivity.
  - exists (2, js ",Jane,123,500"), (js "Row 2: Manual Date is required").
    split; [left; reflexivity|reflexivity].
  - intros nl0 r [<-|[]]. vm_compute. discriminate.
Defined.

Lemma numberedFrom_In (rest : list jsstring) :
  forall i n l,
    In (n, l) (numberedFrom i rest) ->
    i < n <= i + Z.of_nat (List.length rest)
    /\ nth_error rest (Z.to_nat (n - i - 1)) = Some l.
Proof.
  induction rest as [|x rest IH]; intros i n l Hin; [destruct Hin|].
  cbn [numberedFrom] in Hin. destruct Hin as [E|Hin].
  - injection E as <- <-. cbn [List.length].
    replace (i + 1 - i - 1) with 0 by lia. split; [lia|reflexivity].
  - apply IH in Hin as [Hr Hn]. cbn [List.length]. split; [lia|].
    replace (Z.to_nat (n - i - 1)) with (S (Z.to_nat (n - (i + 1) - 1))) by lia.
    exact Hn.
Qed.

(** Every reported row number is a position among the non-blank lines of
    the file, the header being position 1. *)
Lemma parseXLSXFile_error_rows (text : jsstring) (r : ImportResult)
    (e : ImportError) :
  parseXLSXFile (ReadText text) = Resolved r ->
  In e (errors r) ->
  2 <= row e <= Z.of_nat (List.length (fileLines text))
  /\ exists l, nth_error (fileLines text) (Z.to_nat (row e - 1)) = Some l.
Proof.
  cbn [parseXLSXFile]. rewrite onload_structure.
  destruct (falsy text); [discriminate|].
  destruct (fileLines text) as [|header rest]; [discriminate|].
  destruct (negb _); [discriminate|].
  intros Hr He.
  assert (In e (failuresOf (headerMapping header) (numberedFrom 1 rest))) as Hin.
  { destruct (successesOf _ _); destruct (failuresOf _ _);
      try discriminate; injection Hr as <-; exact He. }
  unfold failuresOf in Hin. apply in_flat_map in Hin as ([n l] & Hnl & Hout).
  destruct (outcomeOf _ _); try (destruct Hout; fail).
  destruct Hout as [<-|[]]. cbn [row fst].
  apply numberedFrom_In in Hnl as [Hr' Hn]. cbn [List.length]. split; [lia|].
  exists l. replace (Z.to_nat (n - 1)) with (S (Z.to_nat (n - 1 - 1))) by lia.
  exact Hn.
Qed.

(** A header cell spelled constructor passes the recognised-column test
    through Object.prototype although it names no field: the file is not
    rejected, and its rows fail validation with every field empty. *)
Lemma parseXLSXFile_inherited_header :
  headerMapping (js "constructor") = [Some ObjectMember]
  /\ parseXLSXFile (ReadText (js "constructor" ++ lineFeed ++ js "x"))
     = Resolved
         (mkImportResult []
            [mkImportError 2 (js "Row 2: Manual Date is required")]).
Proof. split; reflexivity. Qed.

(** C4.  A file whose header is followed by an empty line and then by a
    row without a date: that row is the third line of the file, and its
    error is reported as row 2, because the rows are numbered after the
    blank lines have been filtered out. *)
Theorem parseXLSXFile_row_number_ignores_blank_lines :
  nth_error
    (splitLines (js "Date,Name,Mobile,Amount" ++ lineFeed ++ lineFeed
                 ++ js ",Jane,1234567890,500"))
    2
  = Some (js ",Jane,1234567890,500")
  /\ parseXLSXFile
       (ReadText (js "Date,Name,Mobile,Amount" ++ lineFeed ++ lineFeed
                  ++ js ",Jane,1234567890,500"))
     = Resolved
         (mkImportResult []
            [mkImportError 2 (js "Row 2: Manual Date is required")]).
Proof. split; reflexivity. Qed.

(** Without blank lines the same row is reported under its line number. *)
Lemma parseXLSXFile_row_number_without_blank_lines :
  parseXLSXFile
    (ReadText (js "Date,Name,Mobile,Amount" ++ lineFeed
               ++ js ",Jane,1234567890,500"))
  = Resolved
      (mkImportResult []
         [mkImportError 2 (js "Row 2: Manual Date is required")]).
Proof. reflexivity. Qed.

(** ** The exporters *)

(** C7.  Given no entries, each of the four exporters throws the
    no-entries error and has touched nothing: no blob, no element, no
    window, no console output. *)
Theorem exporters_reject_zero_entries
    (LocalTZA : Z -> bool -> Z) (now : Z) (formatTimestamp : Z -> jsstring)
    (downloadFails popupAllowed : bool) (filename : jsstring) :
  exportToCSV LocalTZA now formatTimestamp downloadFails [] filename
  = ([], Throw (js "No entries to export"))
  /\ exportToXLSX LocalTZA now formatTimestamp downloadFails [] filename
     = ([], Throw (js "No entries to export"))
  /\ exportToText LocalTZA now formatTimestamp downloadFails [] filename
     = ([], Throw (js "No entries to export"))
  /\ exportToPDF LocalTZA now formatTimestamp popupAllowed [] filename
     = ([], Throw (js "No entries to export")).
Proof. repeat split; reflexivity. Qed.

(** With at least one entry no exporter reports the no-entries error. *)
Lemma exporters_accept_entries
    (LocalTZA : Z -> bool -> Z) (now : Z) (formatTimestamp : Z -> jsstring)
    (downloadFails popupAllowed : bool) (filename : jsstring)
    (entry : Backend.Entry) (entries : list Backend.Entry) :
  snd (exportToCSV LocalTZA now formatTimestamp downloadFails
         (entry :: entries) filename) <> Throw noEntries
  /\ snd (exportToXLSX LocalTZA now formatTimestamp downloadFails
            (entry :: entries) filename) <> Throw noEntries
  /\ snd (exportToText LocalTZA now formatTimestamp downloadFails
            (entry :: entries) filename) <> Throw noEntries
  /\ snd (exportToPDF LocalTZA now formatTimestamp popupAllowed
            (entry :: entries) filename) <> Throw noEntries.
Proof.
  unfold exportToCSV, exportToXLSX, exportToText, exportToPDF, guarded, download.
  cbn [List.length Nat.eqb].
  destruct downloadFails, popupAllowed; cbn [snd]; repeat split;
    intros H; try discriminate H; injection H as H; vm_compute in H;
    discriminate H.
Qed.

(** ** The aggregator *)

Section AnalyticsFacts.

Variable LocalTZA : Z -> bool -> Z.
Variable num : Type.
Variable numZero : num.
Variable numAdd : num -> num -> num.
Variable Number : Z -> num.

Local Abbreviation bucket := (bucketOf LocalTZA num numZero numAdd Number).

Lemma mapGet_map (v : Z -> Totals.t num) (ks : list Z) (i : Z) :
  In i ks -> mapGet (map (fun k => (k, v k)) ks) i = Some (v i).
Proof.
  induction ks as [|k ks IH]; intros Hin; [destruct Hin|].
  cbn [map mapGet].
  destruct (k =? i) eqn:E.
  - apply Z.eqb_eq in E; subst; reflexivity.
  - destruct Hin as [->|Hin]; [rewrite Z.eqb_refl in E; discriminate|].
    apply IH; exact Hin.
Qed.

Lemma mapSet_map (v : Z -> Totals.t num) (ks : list Z) (i : Z)
    (x : Totals.t num) :
  NoDup ks -> In i ks ->
  mapSet (map (fun k => (k, v k)) ks) i x
  = map (fun k => (k, update v i x k)) ks.
Proof.
  induction ks as [|k ks IH]; intros Hnd Hin; [destruct Hin|].
  inversion Hnd as [|? ? Hk Hnd']; subst.
  cbn [map mapSet]. unfold update at 1.
  destruct (k =? i) eqn:E.
  - apply Z.eqb_eq in E; subst. f_equal.
    apply map_ext_in. intros a Ha. unfold update.
    destruct (a =? i) eqn:Ea; [|reflexivity].
    apply Z.eqb_eq in Ea; subst; contradiction.
  - f_equal. apply IH; [exact Hnd'|].
    destruct Hin as [->|Hin]; [rewrite Z.eqb_refl in E; discriminate|exact Hin].
Qed.

Lemma monthKeys_NoDup : NoDup monthKeys.
Proof.
  vm_compute.
  repeat (constructor; [cbn [In]; intuition discriminate|]).
  constructor.
Qed.

Lemma MonthFromTime_range (t : Z) : In (MonthFromTime t) monthKeys.
Proof.
  unfold MonthFromTime.
  repeat match goal with
         | |- context [if ?c then _ else _] => destruct c
         end; vm_compute; tauto.
Qed.

Lemma initialMonths_tabulate :
  initialMonths num numZero = tabulate (fun _ => Totals.mk numZero 0).
Proof. reflexivity. Qed.

Lemma addToMonth_tabulate (year : Z) (v : Z -> Totals.t num)
    (entry : Backend.Entry) :
  exists v',
    addToMonth LocalTZA num numAdd Number year (tabulate v) entry
    = Normal (tabulate v')
    /\ forall i,
         v' i = if inMonth LocalTZA year i entry then addEntry numAdd Number (v i) entry else v i.
Proof.
  unfold addToMonth, inMonth.
  destruct (parseManualDate LocalTZA (Backend.manualDate entry)) as [t|].
  - cbn [getFullYear getMonth option_map strictNeq].
    rewrite negb_involutive.
    destruct (YearFromTime (LocalTime LocalTZA t) =? year).
    + unfold tabulate.
      rewrite (mapGet_map v _ _ (MonthFromTime_range _)).
      rewrite (mapSet_map v _ _ _ monthKeys_NoDup (MonthFromTime_range _)).
      eexists; split; [reflexivity|].
      intros i; unfold update; cbn [andb].
      rewrite (Z.eqb_sym i).
      destruct (MonthFromTime (LocalTime LocalTZA t) =? i) eqn:E;
        [apply Z.eqb_eq in E; rewrite <- E|]; reflexivity.
    + exists v; split; [reflexivity|]. intros i; reflexivity.
  - exists v; split; [reflexivity|]. intros i; reflexivity.
Qed.

Lemma tabulate_ext (v w : Z -> Totals.t num) :
  (forall i, v i = w i) -> tabulate v = tabulate w.
Proof.
  intros H; unfold tabulate; apply map_ext; intros i; rewrite H; reflexivity.
Qed.

Lemma forEachEntry_tabulate (year : Z) (entries : list Backend.Entry) :
  forall v,
    forEachEntry LocalTZA num numAdd Number year entries (tabulate v)
    = Normal
        (tabulate
           (fun i => fold_left (addEntry numAdd Number) (filter (inMonth LocalTZA year i) entries) (v i))).
Proof.
  induction entries as [|entry rest IH]; intros v; cbn [forEachEntry].
  - reflexivity.
  - destruct (addToMonth_tabulate year v entry) as (v' & -> & Hv').
    cbn [bind]. rewrite IH. f_equal. apply tabulate_ext. intros i.
    rewrite Hv'. cbn [filter].
    destruct (inMonth LocalTZA year i entry); reflexivity.
Qed.

Lemma fold_addEntry (entries : list Backend.Entry) :
  forall total n,
    fold_left (addEntry numAdd Number) entries (Totals.mk total n)
    = Totals.mk
        (fold_left numAdd (map (fun e => Number (Backend.amountRs e)) entries) total)
        (n + Z.of_nat (List.length entries)).
Proof.
  induction entries as [|e rest IH]; intros total n.
  - simpl. rewrite Z.add_0_r; reflexivity.
  - cbn [fold_left map List.length]. unfold addEntry at 2.
    cbn [Totals.totalAmount Totals.count].
    rewrite IH. f_equal. lia.
Qed.

(** C6.  For every entry list and every year the aggregation returns,
    without throwing, the twelve buckets January to December in order;
    the bucket of a month holds the sum and the number of exactly those
    entries whose date parses to that year and month.  With no entries
    every bucket is zero. *)
Theorem aggregateByMonth_buckets (entries : list Backend.Entry) (year : Z) :
  aggregateByMonth LocalTZA num numZero numAdd Number entries year
  = Normal
      [ bucket entries year 0 (js "Jan"); bucket entries year 1 (js "Feb");
        bucket entries year 2 (js "Mar"); bucket entries year 3 (js "Apr");
        bucket entries year 4 (js "May"); bucket entries year 5 (js "Jun");
        bucket entries year 6 (js "Jul"); bucket entries year 7 (js "Aug");
        bucket entries year 8 (js "Sep"); bucket entries year 9 (js "Oct");
        bucket entries year 10 (js "Nov"); bucket entries year 11 (js "Dec") ]
  /\ aggregateByMonth LocalTZA num numZero numAdd Number [] year
     = Normal
         (map (fun im : Z * jsstring =>
                 mkMonthlyData (Some (snd im)) (fst im) numZero 0)
              (combine monthKeys monthNames)).
Proof.
  split; [|reflexivity].
  unfold aggregateByMonth.
  rewrite initialMonths_tabulate, forEachEntry_tabulate. cbn [bind].
  f_equal. unfold tabulate, bucketOf, sumAmounts.
  cbn [monthKeys seq map Z.of_nat Pos.of_succ_nat Pos.succ].
  repeat rewrite fold_addEntry.
  reflexivity.
Qed.

End AnalyticsFacts.

(** ** Calendar arithmetic *)

Ltac dlia := Z.div_mod_to_equations; lia.

Lemma div_succ (a c : Z) :
  0 < c -> (a + 1) / c = a / c + (if (a + 1) mod c =? 0 then 1 else 0).
Proof.
  intros Hc.
  pose proof (Z.div_mod a c ltac:(lia)) as H1.
  pose proof (Z.mod_pos_bound a c Hc) as B1.
  pose proof (Z.div_mod (a + 1) c ltac:(lia)) as H2.
  pose proof (Z.mod_pos_bound (a + 1) c Hc) as B2.
  destruct ((a + 1) mod c =? 0) eqn:E.
  - apply Z.eqb_eq in E. nia.
  - apply Z.eqb_neq in E. nia.
Qed.

(** Each year is as long as the leap-year rule says. *)
Lemma DayFromYear_succ (y : Z) :
  DayFromYear (y + 1) = DayFromYear y + DaysInYear y.
Proof.
  unfold DayFromYear, DaysInYear.
  replace (y + 1 - 1969) with (y - 1969 + 1) by lia.
  replace (y + 1 - 1901) with (y - 1901 + 1) by lia.
  replace (y + 1 - 1601) with (y - 1601 + 1) by lia.
  rewrite !div_succ by lia.
  replace (y - 1969 + 1) with (y + (-492) * 4) by lia.
  replace (y - 1901 + 1) with (y + (-19) * 100) by lia.
  replace (y - 1601 + 1) with (y + (-4) * 400) by lia.
  rewrite !Z.mod_add by lia.
  assert (y mod 100 = 0 -> y mod 4 = 0) as A1 by dlia.
  assert (y mod 400 = 0 -> y mod 100 = 0) as A2 by dlia.
  destruct (y mod 4 =? 0) eqn:E4; destruct (y mod 100 =? 0) eqn:E100;
    destruct (y mod 400 =? 0) eqn:E400; cbn [negb andb orb];
    rewrite ?Z.eqb_eq, ?Z.eqb_neq in *; lia.
Qed.

Lemma DaysInYear_cases (y : Z) : DaysInYear y = 365 \/ DaysInYear y = 366.
Proof. unfold DaysInYear; destruct (_ && _); auto. Qed.

Lemma DayFromYear_le (y z : Z) : y <= z -> DayFromYear y <= DayFromYear z.
Proof.
  intros H. replace z with (y + Z.of_nat (Z.to_nat (z - y))) by lia.
  induction (Z.to_nat (z - y)) as [|n IH]; [rewrite Z.add_0_r; lia|].
  rewrite Nat2Z.inj_succ, <- Z.add_1_r, Z.add_assoc, DayFromYear_succ.
  destruct (DaysInYear_cases (y + Z.of_nat n)); lia.
Qed.

(** The first day of a year stays within two days of the mean-year
    estimate. *)
Lemma DayFromYear_mean (y : Z) :
  -506 <= 400 * DayFromYear y - 146097 * (y - 1970) <= 589.
Proof. unfold DayFromYear; dlia. Qed.

(** [YearFromDay d] is the year that contains day [d]: the largest year
    whose first day is not after [d]. *)
Lemma YearFromDay_spec (d : Z) :
  DayFromYear (YearFromDay d) <= d < DayFromYear (YearFromDay d + 1).
Proof.
  unfold YearFromDay.
  set (y := 1970 + 400 * d / 146097).
  assert (DayFromYear (y - 1) <= d /\ d < DayFromYear (y + 2)) as [Hlo Hhi].
  { pose proof (DayFromYear_mean (y - 1)). pose proof (DayFromYear_mean (y + 2)).
    unfold y in *; clearbody y; split; dlia. }
  destruct (d <? DayFromYear y) eqn:E1.
  - apply Z.ltb_lt in E1. replace (y - 1 + 1) with y by lia. lia.
  - apply Z.ltb_ge in E1.
    destruct (DayFromYear (y + 1) <=? d) eqn:E2.
    + apply Z.leb_le in E2. replace (y + 1 + 1) with (y + 2) by lia. lia.
    + apply Z.leb_gt in E2. lia.
Qed.

Lemma YearFromDay_unique (d y : Z) :
  DayFromYear y <= d < DayFromYear (y + 1) -> YearFromDay d = y.
Proof.
  intros H. pose proof (YearFromDay_spec d) as S.
  destruct (Z.lt_trichotomy (YearFromDay d) y) as [L|[E|G]]; [|exact E|].
  - pose proof (DayFromYear_le (YearFromDay d + 1) y ltac:(lia)). lia.
  - pose proof (DayFromYear_le (y + 1) (YearFromDay d) ltac:(lia)). lia.
Qed.

Ltac calendar_tables :=
  cbv [daysInMonth daysBeforeMonth nth Z.to_nat Pos.to_nat Pos.iter_op Nat.add]
    in *.

Lemma month_cases (mn : Z) :
  0 <= mn <= 11 ->
  mn = 0 \/ mn = 1 \/ mn = 2 \/ mn = 3 \/ mn = 4 \/ mn = 5 \/ mn = 6
  \/ mn = 7 \/ mn = 8 \/ mn = 9 \/ mn = 10 \/ mn = 11.
Proof. lia. Qed.

Lemma MakeDay_in_year (y mn d : Z) :
  0 <= mn <= 11 -> 1 <= d <= daysInMonth y mn ->
  MakeDay y mn d
  = DayFromYear y
    + daysBeforeMonth mn (if DaysInYear y =? 366 then 1 else 0) + d - 1
  /\ DayFromYear y <= MakeDay y mn d < DayFromYear (y + 1).
Proof.
  intros Hm Hd. unfold MakeDay.
  rewrite (Z.div_small mn 12), (Z.mod_small mn 12), Z.add_0_r by lia.
  split; [reflexivity|].
  rewrite DayFromYear_succ.
  destruct (month_cases mn Hm) as [-> | [-> | [-> | [-> | [-> | [-> | [-> | [-> | [-> | [-> | [-> | ->]]]]]]]]]]];
    calendar_tables;
    destruct (DaysInYear_cases y) as [E|E]; rewrite E in *;
    cbn [Z.eqb Pos.eqb] in *; lia.
Qed.

(** A time value on day [MakeDay y mn d] of a real calendar date reads
    back as that year, month and day. *)
Lemma date_components (t y mn d : Z) :
  Day t = MakeDay y mn d ->
  0 <= mn <= 11 -> 1 <= d <= daysInMonth y mn ->
  YearFromTime t = y /\ MonthFromTime t = mn /\ DateFromTime t = d.
Proof.
  intros Ht Hm Hd.
  destruct (MakeDay_in_year y mn d Hm Hd) as [Eq Rg].
  assert (YearFromTime t = y) as Hy
    by (unfold YearFromTime; rewrite Ht; apply YearFromDay_unique; exact Rg).
  assert (MonthFromTime t = mn) as Hmn.
  { unfold MonthFromTime, DayWithinYear, InLeapYear. rewrite Hy, Ht, Eq.
    destruct (month_cases mn Hm) as [-> | [-> | [-> | [-> | [-> | [-> | [-> | [-> | [-> | [-> | [-> | ->]]]]]]]]]]];
      calendar_tables;
      destruct (DaysInYear_cases y) as [E|E]; rewrite E in *;
      cbn [Z.eqb Pos.eqb] in *;
      repeat match goal with
             | |- context [if ?a <? ?b then _ else _] =>
                 destruct (Z.ltb_spec a b); try lia
             end. }
  split; [exact Hy|split; [exact Hmn|]].
  unfold DateFromTime, DayWithinYear, InLeapYear. rewrite Hmn, Hy, Ht, Eq. lia.
Qed.

(** ** Parsing dates *)

Lemma isDigit_iff (c : Z) : isDigit c = true <-> 48 <= c <= 57.
Proof. unfold isDigit; rewrite andb_true_iff, !Z.leb_le; tauto. Qed.

Lemma isDigit_not_space (c : Z) : isDigit c = true -> isWhiteSpace c = false.
Proof.
  rewrite isDigit_iff; intros H. unfold isWhiteSpace; cbn [existsb].
  repeat match goal with
         | |- context [c =? ?k] =>
             rewrite (proj2 (Z.eqb_neq c k)) by lia
         end.
  rewrite (proj2 (Z.leb_gt 8192 c)) by lia. reflexivity.
Qed.

Lemma spanDigits_all (ds : jsstring) :
  forallb isDigit ds = true -> spanDigits ds = (ds, []).
Proof.
  induction ds as [|c ds IH]; [reflexivity|]; cbn [forallb spanDigits].
  intros H; apply andb_prop in H as [Hc Hds].
  rewrite Hc, (IH Hds); reflexivity.
Qed.

(** On a non-empty string of digits [parseInt] reads the whole string. *)
Lemma parseInt10_digits (ds : jsstring) :
  ds <> [] -> forallb isDigit ds = true ->
  parseInt10 ds = Some (digitsValue ds).
Proof.
  intros Hne Hd. destruct ds as [|c r]; [congruence|].
  pose proof Hd as Hall. cbn [forallb] in Hd. apply andb_prop in Hd as [Hc _].
  unfold parseInt10. cbn [trimStart]. rewrite (isDigit_not_space c Hc).
  apply isDigit_iff in Hc. cbn [parseSign].
  rewrite (proj2 (Z.eqb_neq c 45)), (proj2 (Z.eqb_neq c 43)) by lia.
  rewrite (spanDigits_all _ Hall). reflexivity.
Qed.

Lemma splitOn_simple (sep : Z) (a : jsstring) :
  forall cur,
    forallb (fun c => negb (c =? sep)) a = true ->
    splitOn sep cur a = [cur ++ a].
Proof.
  induction a as [|c a IH]; intros cur H; cbn [splitOn].
  - rewrite app_nil_r; reflexivity.
  - cbn [forallb] in H. apply andb_prop in H as [Hc Ha].
    apply negb_true_iff in Hc. rewrite Hc, (IH _ Ha), <- app_assoc.
    reflexivity.
Qed.

Lemma splitOn_app (sep : Z) (a b : jsstring) :
  forall cur,
    forallb (fun c => negb (c =? sep)) a = true ->
    splitOn sep cur (a ++ sep :: b) = (cur ++ a) :: splitOn sep [] b.
Proof.
  induction a as [|c a IH]; intros cur H; cbn [splitOn app].
  - rewrite Z.eqb_refl, app_nil_r; reflexivity.
  - cbn [forallb] in H. apply andb_prop in H as [Hc Ha].
    apply negb_true_iff in Hc. rewrite Hc, (IH _ Ha), <- app_assoc.
    reflexivity.
Qed.

Lemma digits_no_dash (ds : jsstring) :
  forallb isDigit ds = true ->
  forallb (fun c => negb (c =? 45)) ds = true.
Proof.
  induction ds as [|c ds IH]; [reflexivity|]; cbn [forallb].
  intros H; apply andb_prop in H as [Hc Hds].
  apply isDigit_iff in Hc.
  rewrite (proj2 (Z.eqb_neq c 45)), (IH Hds) by lia. reflexivity.
Qed.

Lemma pad2_digits (n : Z) :
  0 <= n <= 99 -> forallb isDigit (pad2 n) = true /\ digitsValue (pad2 n) = n.
Proof.
  intros H; unfold pad2, digitsValue; cbn [forallb fold_left].
  rewrite !(proj2 (isDigit_iff _)) by dlia. split; [reflexivity|dlia].
Qed.

Lemma pad4_digits (n : Z) :
  0 <= n <= 9999 -> forallb isDigit (pad4 n) = true /\ digitsValue (pad4 n) = n.
Proof.
  intros H; unfold pad4, digitsValue; cbn [forallb fold_left].
  rewrite !(proj2 (isDigit_iff _)) by dlia. split; [reflexivity|dlia].
Qed.

Lemma split_formatYMD (y m d : Z) :
  0 <= y <= 9999 -> 0 <= m <= 99 -> 0 <= d <= 99 ->
  split 45 (formatYMD y m d) = [pad4 y; pad2 m; pad2 d].
Proof.
  intros Hy Hm Hd. unfold split, formatYMD. cbn [app].
  change (pad4 y ++ 45 :: pad2 m ++ 45 :: pad2 d)
    with (pad4 y ++ 45 :: (pad2 m ++ 45 :: pad2 d)).
  rewrite splitOn_app by (apply digits_no_dash, pad4_digits; exact Hy).
  rewrite splitOn_app by (apply digits_no_dash, pad2_digits; exact Hm).
  rewrite splitOn_simple by (apply digits_no_dash, pad2_digits; exact Hd).
  reflexivity.
Qed.

Lemma DayFromYear_bound (y : Z) :
  0 <= y <= 10000 -> -720000 <= DayFromYear y <= 2933000.
Proof. intros H; pose proof (DayFromYear_mean y); lia. Qed.

Lemma daysInMonth_le (y mn : Z) : daysInMonth y mn <= 31.
Proof.
  unfold daysInMonth.
  destruct (Z.to_nat mn) as [|[|[|[|[|[|[|[|[|[|[|[|[|n]]]]]]]]]]]]];
    cbn [nth]; try lia.
  destruct (DaysInYear y =? 366); lia.
Qed.

(** X26.  In a zone with a fixed offset every real date from year 100 to year
    9999, written as YYYY-MM-DD, is parsed to a Date whose local year,
    month and day are the ones written: formatting it again gives the same
    text. *)
Theorem parseManualDate_strict_roundtrip (offset y m d : Z) :
  - msPerDay <= offset <= msPerDay ->
  100 <= y <= 9999 -> 1 <= m <= 12 -> 1 <= d <= daysInMonth y (m - 1) ->
  exists t,
    parseManualDate (fixedZone offset) (formatYMD y m d) = Some t
    /\ t = MakeDay y (m - 1) d * msPerDay - offset
    /\ formatYMD (YearFromTime (LocalTime (fixedZone offset) t))
                 (MonthFromTime (LocalTime (fixedZone offset) t) + 1)
                 (DateFromTime (LocalTime (fixedZone offset) t))
       = formatYMD y m d.
Proof.
  intros Ho Hy Hm Hd.
  pose proof (daysInMonth_le y (m - 1)) as Hd31.
  exists (MakeDay y (m - 1) d * msPerDay - offset).
  assert (Day (LocalTime (fixedZone offset)
                 (MakeDay y (m - 1) d * msPerDay - offset))
          = MakeDay y (m - 1) d) as HDay.
  { unfold LocalTime, fixedZone, Day.
    replace (MakeDay y (m - 1) d * msPerDay - offset + offset)
      with (MakeDay y (m - 1) d * msPerDay) by lia.
    apply Z.div_mul. unfold msPerDay; lia. }
  destruct (date_components _ y (m - 1) d HDay ltac:(lia) Hd) as (Ey & Em & Ed).
  split; [|split; [reflexivity|]].
  - unfold parseManualDate.
    assert (falsy (formatYMD y m d) = false) as -> by reflexivity.
    rewrite split_formatYMD by lia.
    destruct (pad4_digits y ltac:(lia)) as [D4 V4].
    destruct (pad2_digits m ltac:(lia)) as [Dm Vm].
    destruct (pad2_digits d ltac:(lia)) as [Dd Vd].
    rewrite (parseInt10_digits (pad4 y)), (parseInt10_digits (pad2 m)),
      (parseInt10_digits (pad2 d)), V4, Vm, Vd
      by (assumption || discriminate).
    unfold newDate.
    assert ((0 <=? y) && (y <=? 99) = false) as ->
      by (apply andb_false_iff; right; apply Z.leb_gt; lia).
    unfold MakeDate, UTC, fixedZone in *. rewrite Z.add_0_r.
    unfold TimeClip.
    assert ((Z.abs (MakeDay y (m - 1) d * msPerDay - offset)
             <=? 8640000000000000) = true) as ->.
    { apply Z.leb_le.
      destruct (MakeDay_in_year y (m - 1) d ltac:(lia) Hd) as [_ Rg].
      pose proof (DayFromYear_bound y ltac:(lia)).
      pose proof (DayFromYear_bound (y + 1) ltac:(lia)).
      unfold msPerDay in *. lia. }
    cbn [getFullYear getMonth getDate option_map strictNeq].
    rewrite Ey, Em, Ed, !Z.eqb_refl. reflexivity.
  - rewrite Ey, Em, Ed. f_equal; f_equal; lia.
Qed.

(** The theorem at 29 February 2024 in Indian Standard Time. *)
Lemma parseManualDate_strict_roundtrip_witness :
  exists t,
    parseManualDate (fixedZone 19800000) (formatYMD 2024 2 29) = Some t
    /\ t = MakeDay 2024 (2 - 1) 29 * msPerDay - 19800000
    /\ formatYMD (YearFromTime (LocalTime (fixedZone 19800000) t))
                 (MonthFromTime (LocalTime (fixedZone 19800000) t) + 1)
                 (DateFromTime (LocalTime (fixedZone 19800000) t))
       = formatYMD 2024 2 29.
Proof.
  apply (parseManualDate_strict_roundtrip 19800000 2024 2 29);
    vm_compute; split; discriminate.
Defined.

(** C2.  Whatever the time zone, a date followed by other characters is
    parsed exactly as the date alone, and so is a date written without
    leading zeros: in UTC all three are 3 February 2021.  A day that does
    not exist is refused, and so is every year below 100, which the Date
    constructor moves into the twentieth century. *)
Theorem parseManualDate_accepts_trailing_text :
  (forall LocalTZA,
      parseManualDate LocalTZA (js "2021-02-03abc")
      = parseManualDate LocalTZA (js "2021-02-03")
      /\ parseManualDate LocalTZA (js "2021-2-3")
         = parseManualDate LocalTZA (js "2021-02-03"))
  /\ parseManualDate (fixedZone 0) (js "2021-02-03abc") = Some 1612310400000
  /\ getFullYear (fixedZone 0) (Some 1612310400000) = Some 2021
  /\ getMonth (fixedZone 0) (Some 1612310400000) = Some 1
  /\ getDate (fixedZone 0) (Some 1612310400000) = Some 3
  /\ parseManualDate (fixedZone 0) (js "2021-02-30") = None
  /\ parseManualDate (fixedZone 0) (js "0050-01-01") = None.
Proof.
  split; [intros LocalTZA; split; reflexivity|].
  repeat split; vm_compute; reflexivity.
Qed.

(** ** Days since a date *)

(** The value computed, in every zone: null for a date that does not
    parse, otherwise the floor of the distance between the two local
    midnights in units of 86,400,000 ms. *)
Lemma calculateDaysSince_formula (LocalTZA : Z -> bool -> Z) (now : Z)
    (s : jsstring) :
  calculateDaysSince LocalTZA now s
  = match parseManualDate LocalTZA s with
    | None => Null
    | Some t =>
        match setHoursZero LocalTZA (Some now), setHoursZero LocalTZA (Some t) with
        | Some today, Some manualDate => Days ((today - manualDate) / 86400000)
        | _, _ => NaNDays
        end
    end.
Proof. reflexivity. Qed.

Lemma parseManualDate_inv (LocalTZA : Z -> bool -> Z) (s : jsstring) (t : Z) :
  parseManualDate LocalTZA s = Some t ->
  exists year month day, newDate LocalTZA year month day = Some t.
Proof.
  unfold parseManualDate.
  destruct (falsy s); [discriminate|].
  destruct (split 45 s) as [|p0 [|p1 [|p2 [|p3 ps]]]]; try discriminate.
  destruct (parseInt10 p0) as [year|]; [|discriminate].
  destruct (parseInt10 p1) as [m|]; [|discriminate].
  destruct (parseInt10 p2) as [day|]; [|discriminate].
  cbv zeta.
  destruct (_ || _); [discriminate|].
  intros H; exists year, (m - 1), day; exact H.
Qed.

(** X27.  In a zone with a fixed offset the result is the difference between
    the local day number of today and that of the date: 0 for today's
    date, 1 for yesterday's, -1 for tomorrow's. *)
Theorem calculateDaysSince_fixed_zone (offset now : Z) (s : jsstring) (t : Z) :
  - msPerDay <= offset <= msPerDay ->
  Z.abs now <= 8640000000000000 - 2 * msPerDay ->
  parseManualDate (fixedZone offset) s = Some t ->
  calculateDaysSince (fixedZone offset) now s
  = Days (Day (LocalTime (fixedZone offset) now)
          - Day (LocalTime (fixedZone offset) t)).
Proof.
  intros Ho Hn Hp. rewrite calculateDaysSince_formula, Hp.
  destruct (parseManualDate_inv _ _ _ Hp) as (year & month & day & Hnew).
  unfold newDate, TimeClip, UTC, MakeDate, fixedZone in Hnew.
  set (D := MakeDay _ month day) in Hnew. rewrite Z.add_0_r in Hnew.
  destruct (Z.abs (D * msPerDay - offset) <=? 8640000000000000) eqn:Hclip;
    [|discriminate].
  injection Hnew as Ht. apply Z.leb_le in Hclip.
  unfold setHoursZero, LocalTime, UTC, MakeDate, fixedZone, TimeClip.
  rewrite !Z.add_0_r.
  assert (Day (t + offset) = D) as HD.
  { rewrite <- Ht. unfold Day.
    replace (D * msPerDay - offset + offset) with (D * msPerDay) by lia.
    apply Z.div_mul; unfold msPerDay; lia. }
  rewrite HD.
  assert ((Z.abs (D * msPerDay - offset) <=? 8640000000000000) = true) as ->
    by (apply Z.leb_le; exact Hclip).
  assert ((Z.abs (Day (now + offset) * msPerDay - offset)
           <=? 8640000000000000) = true) as ->.
  { apply Z.leb_le. unfold Day, msPerDay in *. dlia. }
  f_equal.
  replace (Day (now + offset) * msPerDay - offset - (D * msPerDay - offset))
    with ((Day (now + offset) - D) * 86400000) by (unfold msPerDay; lia).
  apply Z.div_mul; lia.
Qed.

(** The theorem in Indian Standard Time, at noon UTC of 11 March 2024,
    for the day before. *)
Lemma calculateDaysSince_fixed_zone_witness :
  calculateDaysSince (fixedZone 19800000) 1710158400000 (js "2024-03-10")
  = Days (Day (LocalTime (fixedZone 19800000) 1710158400000)
          - Day (LocalTime (fixedZone 19800000) 1710009000000)).
Proof.
  apply (calculateDaysSince_fixed_zone 19800000 1710158400000
           (js "2024-03-10") 1710009000000).
  - vm_compute; split; discriminate.
  - vm_compute; discriminate.
  - vm_compute; reflexivity.
Defined.

(** The calendar fields of a time value name its day. *)
Lemma MakeDay_components (t : Z) :
  MakeDay (YearFromTime t) (MonthFromTime t) (DateFromTime t) = Day t.
Proof.
  assert (0 <= MonthFromTime t <= 11) as Hm.
  { unfold MonthFromTime.
    repeat match goal with
           | |- context [if ?c then _ else _] => destruct c
           end; lia. }
  unfold MakeDay.
  rewrite (Z.div_small _ 12), (Z.mod_small _ 12), Z.add_0_r by lia.
  unfold DateFromTime, DayWithinYear, InLeapYear. lia.
Qed.

(** C9.  Noon of 11 March 2024 in New York, the day after the clocks
    went forward: the local date is 11 March, yet yesterday's date,
    10 March, is zero days ago, because the two local midnights are only
    23 hours apart.  On 3 November, when the clocks go back, tomorrow is
    two days ahead. *)
Theorem calculateDaysSince_across_clock_change :
  getFullYear easternTime2024 (Some 1710172800000) = Some 2024
  /\ getMonth easternTime2024 (Some 1710172800000) = Some 2
  /\ getDate easternTime2024 (Some 1710172800000) = Some 11
  /\ calculateDaysSince easternTime2024 1710172800000 (js "2024-03-10") = Days 0
  /\ calculateDaysSince easternTime2024 1710172800000 (js "2024-03-11") = Days 0
  /\ getDate easternTime2024 (Some 1730653200000) = Some 3
  /\ calculateDaysSince easternTime2024 1730653200000 (js "2024-11-04")
     = Days (-2).
Proof. repeat split; vm_compute; reflexivity. Qed.

(* ================================================================== *)
(** * Part IV: further properties                                      *)
(* ================================================================== *)

(** ** Trimming *)

Lemma isWhiteSpace_not_delimiter (c : Z) :
  isWhiteSpace c = true -> (c =? 34) = false /\ (c =? 44) = false.
Proof.
  intros H. split; apply Z.eqb_neq; intros ->; vm_compute in H; discriminate.
Qed.

Lemma trimStart_app_blank (ws s : jsstring) :
  forallb isWhiteSpace ws = true -> trimStart (ws ++ s) = trimStart s.
Proof.
  induction ws as [|c ws IH]; [reflexivity|]; cbn [forallb app trimStart].
  intros H; apply andb_prop in H as [Hc Hws]. rewrite Hc. exact (IH Hws).
Qed.

Lemma trimStart_app_nonblank (s x : jsstring) (c : Z) (r : jsstring) :
  trimStart s = c :: r -> trimStart (s ++ x) = (c :: r) ++ x.
Proof.
  induction s as [|a s IH]; cbn [trimStart app]; [discriminate|].
  destruct (isWhiteSpace a); [exact IH|].
  intros H; injection H as <- <-; reflexivity.
Qed.

Lemma trimEnd_app_blank (s ws : jsstring) :
  forallb isWhiteSpace ws = true -> trimEnd (s ++ ws) = trimEnd s.
Proof.
  intros H. unfold trimEnd. rewrite rev_app_distr, trimStart_app_blank;
    [reflexivity|]. rewrite forallb_rev; exact H.
Qed.

Lemma trim_app_blank_l (ws s : jsstring) :
  forallb isWhiteSpace ws = true -> trim (ws ++ s) = trim s.
Proof. intros H; unfold trim; rewrite trimStart_app_blank by exact H; reflexivity. Qed.

Lemma trim_app_blank_r (s ws : jsstring) :
  forallb isWhiteSpace ws = true -> trim (s ++ ws) = trim s.
Proof.
  intros H. unfold trim.
  destruct (trimStart s) as [|c r] eqn:E.
  - apply trimStart_nil_iff in E.
    assert (trimStart (s ++ ws) = []) as ->; [|reflexivity].
    apply trimStart_nil_iff. rewrite forallb_app, E, H; reflexivity.
  - rewrite (trimStart_app_nonblank s ws c r E). apply trimEnd_app_blank; exact H.
Qed.

(** A string is its leading white space followed by the rest. *)
Lemma trimStart_split (s : jsstring) :
  exists ws, forallb isWhiteSpace ws = true /\ s = ws ++ trimStart s.
Proof.
  induction s as [|c s (ws & Hws & E)]; [exists []; split; reflexivity|].
  cbn [trimStart]. destruct (isWhiteSpace c) eqn:Hc.
  - exists (c :: ws). cbn [forallb app]. rewrite Hc, Hws. split; [reflexivity|].
    f_equal; exact E.
  - exists []. split; reflexivity.
Qed.

Lemma trimEnd_split (s : jsstring) :
  exists ws, forallb isWhiteSpace ws = true /\ s = trimEnd s ++ ws.
Proof.
  destruct (trimStart_split (rev s)) as (ws & Hws & E).
  exists (rev ws). rewrite forallb_rev. split; [exact Hws|].
  unfold trimEnd. rewrite <- rev_app_distr, <- E, rev_involutive. reflexivity.
Qed.

Lemma trimStart_idem (s : jsstring) : trimStart (trimStart s) = trimStart s.
Proof.
  destruct (trimStart s) as [|c r] eqn:E; [reflexivity|].
  cbn [trimStart]. rewrite (trimStart_head s c r E). reflexivity.
Qed.

(** Trimming twice is trimming once. *)
Lemma trim_idem (s : jsstring) : trim (trim s) = trim s.
Proof.
  destruct (trimEnd_split (trimStart s)) as (ws & Hws & E).
  fold (trim s) in E.
  assert (trim (trimStart s) = trim s) as H1
    by (unfold trim; rewrite trimStart_idem; reflexivity).
  rewrite E, trim_app_blank_r in H1 by exact Hws. exact H1.
Qed.

(** ** The splitter on whole rows *)

Lemma parseCSVLineFrom_current_bounded (n : nat) :
  forall line result c1 c2 inQuotes,
    (List.length line <= n)%nat ->
    (forall x, trim (c1 ++ x) = trim (c2 ++ x)) ->
    parseCSVLineFrom result c1 inQuotes line
    = parseCSVLineFrom result c2 inQuotes line.
Proof.
  induction n as [|n IH]; intros line result c1 c2 inQuotes Hn H;
    destruct line as [|char rest]; cbn [parseCSVLineFrom];
    try (pose proof (H []) as H0; rewrite !app_nil_r in H0; rewrite H0;
         reflexivity);
    simpl in Hn; try lia.
  assert (forall a x, trim ((c1 ++ [a]) ++ x) = trim ((c2 ++ [a]) ++ x)) as Hext
    by (intros a x; rewrite <- !app_assoc; apply H).
  destruct (char =? 34).
  - destruct rest as [|nextChar rest'].
    + apply IH; [simpl; lia|exact H].
    + destruct (inQuotes && (nextChar =? 34)).
      * apply IH; [simpl in *; lia|apply Hext].
      * apply IH; [simpl in *; lia|exact H].
  - destruct ((char =? 44) && negb inQuotes).
    + pose proof (H []) as H0; rewrite !app_nil_r in H0; rewrite H0. reflexivity.
    + apply IH; [lia|apply Hext].
Qed.

Lemma parseCSVLineFrom_blank_prefix (ws : jsstring) :
  forall line result current inQuotes,
    forallb isWhiteSpace ws = true ->
    parseCSVLineFrom result current inQuotes (ws ++ line)
    = parseCSVLineFrom result (current ++ ws) inQuotes line.
Proof.
  induction ws as [|w ws IH]; intros line result current inQuotes H.
  - rewrite app_nil_r; reflexivity.
  - cbn [forallb] in H. apply andb_prop in H as [Hw Hws].
    destruct (isWhiteSpace_not_delimiter w Hw) as [Hq Hc].
    cbn [app parseCSVLineFrom]. rewrite Hq, Hc. cbn [andb].
    rewrite (IH _ _ _ _ Hws), <- app_assoc. reflexivity.
Qed.

Lemma parseCSVLineFrom_blank_suffix_bounded (n : nat) :
  forall line result current inQuotes ws,
    (List.length line <= n)%nat ->
    forallb isWhiteSpace ws = true ->
    parseCSVLineFrom result current inQuotes (line ++ ws)
    = parseCSVLineFrom result current inQuotes line.
Proof.
  assert (forall result current inQuotes ws,
             forallb isWhiteSpace ws = true ->
             parseCSVLineFrom result current inQuotes ws
             = parseCSVLineFrom result current inQuotes []) as Hbase.
  { intros result current inQuotes ws H.
    rewrite <- (app_nil_r ws), parseCSVLineFrom_blank_prefix by exact H.
    cbn [parseCSVLineFrom]. rewrite trim_app_blank_r by exact H. reflexivity. }
  induction n as [|n IH]; intros line result current inQuotes ws Hn H;
    destruct line as [|char rest]; cbn [app];
    try (apply Hbase; exact H); simpl in Hn; try lia.
  cbn [parseCSVLineFrom].
  destruct (char =? 34).
  - destruct rest as [|nextChar rest']; cbn [app].
    + destruct ws as [|w ws']; [reflexivity|].
      pose proof H as H'. cbn [forallb] in H'. apply andb_prop in H' as [Hw _].
      destruct (isWhiteSpace_not_delimiter w Hw) as [Hq _]. rewrite Hq, andb_false_r.
      apply Hbase; exact H.
    + destruct (inQuotes && (nextChar =? 34)).
      * apply IH; [simpl in *; lia|exact H].
      * apply (IH (nextChar :: rest')); [simpl in *; lia|exact H].
  - destruct ((char =? 44) && negb inQuotes); apply IH; try lia; exact H.
Qed.

Lemma parseCSVLine_of_trim (line : jsstring) :
  parseCSVLine (trim line) = parseCSVLine line.
Proof.
  destruct (trimStart_split line) as (ws1 & H1 & E1).
  destruct (trimEnd_split (trimStart line)) as (ws2 & H2 & E2).
  fold (trim line) in E2. unfold parseCSVLine.
  rewrite E1 at 2. rewrite parseCSVLineFrom_blank_prefix by exact H1.
  rewrite (parseCSVLineFrom_current_bounded _ _ _ ([] ++ ws1) [] _ (le_n _))
    by (intros x; apply trim_app_blank_l; exact H1).
  rewrite E2.
  symmetry. apply (parseCSVLineFrom_blank_suffix_bounded _ _ _ _ _ _ (le_n _) H2).
Qed.

(** X3.  Trimming a line before splitting it changes nothing: leading and
    trailing white space ends up in the first and the last field, which
    the splitter trims anyway. *)
Theorem parseCSVLine_trim (line : jsstring) :
  parseCSVLine (trim line) = parseCSVLine line.
Proof. apply parseCSVLine_of_trim. Qed.

Lemma parseCSVLineFrom_trimmed_bounded (n : nat) :
  forall line result current inQuotes,
    (List.length line <= n)%nat ->
    Forall (fun f => trim f = f) result ->
    Forall (fun f => trim f = f)
           (parseCSVLineFrom result current inQuotes line).
Proof.
  assert (forall result current,
             Forall (fun f => trim f = f) result ->
             Forall (fun f => trim f = f) (result ++ [trim current])) as Hpush.
  { intros result current H. apply Forall_app. split; [exact H|].
    constructor; [apply trim_idem|constructor]. }
  induction n as [|n IH]; intros line result current inQuotes Hn H;
    destruct line as [|char rest]; cbn [parseCSVLineFrom];
    try (apply Hpush; exact H); simpl in Hn; try lia.
  destruct (char =? 34).
  - destruct rest as [|nextChar rest'].
    + apply IH; [simpl; lia|exact H].
    + destruct (inQuotes && (nextChar =? 34)); apply IH; simpl in *; try lia;
        exact H.
  - destruct ((char =? 44) && negb inQuotes); apply IH; try lia;
      [apply Hpush|]; exact H.
Qed.

(** X2.  Every field the splitter returns is already trimmed. *)
Theorem parseCSVLine_fields_trimmed (line : jsstring) :
  Forall (fun f => trim f = f) (parseCSVLine line).
Proof.
  apply (parseCSVLineFrom_trimmed_bounded (List.length line));
    [lia|constructor].
Qed.

Lemma parseCSVLineFrom_quoted_then (s : jsstring) :
  forall cur res tail,
    parseCSVLineFrom res cur true (doubleQuotes s ++ 34 :: 44 :: tail)
    = parseCSVLineFrom (res ++ [trim (cur ++ s)]) [] false tail.
Proof.
  induction s as [|c s IH]; intros cur res tail.
  - cbn. rewrite app_nil_r; reflexivity.
  - cbn [doubleQuotes flat_map]. fold (doubleQuotes s).
    destruct (c =? 34) eqn:E.
    + apply Z.eqb_eq in E; subst c.
      cbn [app parseCSVLineFrom Z.eqb Pos.eqb andb].
      rewrite IH, <- app_assoc; reflexivity.
    + cbn [app parseCSVLineFrom]. rewrite E, andb_false_r.
      rewrite IH, <- app_assoc; reflexivity.
Qed.

Lemma parseCSVLineFrom_plain_then (s : jsstring) :
  forall cur res tail,
    includes 44 s = false -> includes 34 s = false ->
    parseCSVLineFrom res cur false (s ++ 44 :: tail)
    = parseCSVLineFrom (res ++ [trim (cur ++ s)]) [] false tail.
Proof.
  induction s as [|c s IH]; intros cur res tail Hc Hq.
  - cbn. rewrite app_nil_r; reflexivity.
  - unfold includes in Hc, Hq; cbn [existsb] in Hc, Hq.
    apply orb_false_elim in Hc as [Hc1 Hc2].
    apply orb_false_elim in Hq as [Hq1 Hq2].
    rewrite Z.eqb_sym in Hc1; rewrite Z.eqb_sym in Hq1.
    cbn [app parseCSVLineFrom]. rewrite Hq1, Hc1. cbn [andb].
    rewrite (IH _ _ _ Hc2 Hq2), <- app_assoc; reflexivity.
Qed.

Lemma escapeCSVField_cases (c : cell) :
  (escapeCSVField c = [34] ++ doubleQuotes (cellToString c) ++ [34])
  \/ (escapeCSVField c = cellToString c
      /\ includes 44 (cellToString c) = false
      /\ includes 34 (cellToString c) = false
      /\ includes 10 (cellToString c) = false).
Proof.
  unfold escapeCSVField.
  destruct (includes 44 _); [left; reflexivity|].
  destruct (includes 34 _); [left; reflexivity|].
  destruct (includes 10 _); [left; reflexivity|].
  right; repeat split; reflexivity.
Qed.

Lemma parseCSVLineFrom_field_then (c : cell) (res : list jsstring)
    (tail : jsstring) :
  parseCSVLineFrom res [] false (escapeCSVField c ++ 44 :: tail)
  = parseCSVLineFrom (res ++ [trim (cellToString c)]) [] false tail.
Proof.
  destruct (escapeCSVField_cases c) as [E|(E & Hc & Hq & _)]; rewrite E.
  - cbn [app parseCSVLineFrom Z.eqb Pos.eqb].
    destruct (doubleQuotes (cellToString c) ++ [34] ++ 44 :: tail) eqn:El.
    + destruct (doubleQuotes (cellToString c)); discriminate.
    + replace ((doubleQuotes (cellToString c) ++ [34]) ++ 44 :: tail)
        with (doubleQuotes (cellToString c) ++ [34] ++ 44 :: tail)
        by (rewrite <- app_assoc; reflexivity).
      rewrite El. cbn [andb negb]. rewrite <- El.
      apply (parseCSVLineFrom_quoted_then _ [] res tail).
  - apply (parseCSVLineFrom_plain_then _ [] res tail Hc Hq).
Qed.

Lemma parseCSVLineFrom_field_last (c : cell) (res : list jsstring) :
  parseCSVLineFrom res [] false (escapeCSVField c)
  = res ++ [trim (cellToString c)].
Proof.
  destruct (escapeCSVField_cases c) as [E|(E & Hc & Hq & _)]; rewrite E.
  - cbn [app parseCSVLineFrom Z.eqb Pos.eqb].
    destruct (doubleQuotes (cellToString c) ++ [34]) eqn:El.
    + destruct (doubleQuotes (cellToString c)); discriminate.
    + cbn [andb negb]. rewrite <- El.
      apply (parseCSVLineFrom_quoted _ [] res).
  - apply (parseCSVLineFrom_plain _ [] res Hc Hq).
Qed.

Lemma parseCSVLineFrom_row (cells : list cell) :
  forall c res,
    parseCSVLineFrom res [] false
      (join (js ",") (map escapeCSVField (c :: cells)))
    = res ++ map (fun x => trim (cellToString x)) (c :: cells).
Proof.
  induction cells as [|d cells IH]; intros c res.
  - apply parseCSVLineFrom_field_last.
  - change (join (js ",") (map escapeCSVField (c :: d :: cells)))
      with (escapeCSVField c ++ 44 :: join (js ",") (map escapeCSVField (d :: cells))).
    rewrite parseCSVLineFrom_field_then, IH, <- app_assoc. reflexivity.
Qed.

(** X1.  A row written by the exporters, its cells escaped and joined by
    commas, is split back into the same cells, each trimmed: commas,
    quotes and line feeds inside a cell survive. *)
Theorem parseCSVLine_exported_row (c : cell) (cells : list cell) :
  parseCSVLine (join (js ",") (map escapeCSVField (c :: cells)))
  = map (fun x => trim (cellToString x)) (c :: cells).
Proof. apply (parseCSVLineFrom_row cells c []). Qed.

(** ** Amounts written in decimal *)

Lemma uint_chars_value (u : Decimal.uint) :
  forall acc,
    fold_left (fun a c => a * 10 + (c - 48)) (js (NilEmpty.string_of_uint u)) acc
    = uintValue u acc.
Proof. induction u; intros acc; cbn; try apply IHu; reflexivity. Qed.

Lemma uint_chars_digits (u : Decimal.uint) :
  forallb isDigit (js (NilEmpty.string_of_uint u)) = true.
Proof. induction u; cbn; try exact IHu; reflexivity. Qed.

Lemma of_uint_acc_value (u : Decimal.uint) :
  forall p, Z.pos (Pos.of_uint_acc u p) = uintValue u (Z.pos p).
Proof.
  induction u; intros p; cbn [Pos.of_uint_acc uintValue];
    try rewrite IHu; try reflexivity; f_equal; lia.
Qed.

Lemma of_uint_value (u : Decimal.uint) : Z.of_N (Pos.of_uint u) = uintValue u 0.
Proof.
  induction u; cbn [Pos.of_uint uintValue]; try exact IHu; try reflexivity;
    cbn [Z.of_N]; rewrite of_uint_acc_value; reflexivity.
Qed.

(** The decimal numeral of a positive integer: digits only, at least one,
    denoting the integer. *)
Lemma numberToString_pos (p : positive) :
  exists c r,
    numberToString (Z.pos p) = c :: r
    /\ forallb isDigit (c :: r) = true
    /\ digitsValue (c :: r) = Z.pos p
    /\ numberToString (Z.neg p) = 45 :: c :: r.
Proof.
  unfold numberToString; cbn [Z.to_int NilZero.string_of_int].
  pose proof (DecimalPos.Unsigned.to_uint_nonnil p) as Hn.
  pose proof (DecimalPos.Unsigned.of_to p) as Hv.
  assert (NilZero.string_of_uint (Pos.to_uint p)
          = NilEmpty.string_of_uint (Pos.to_uint p)) as ->
    by (destruct (Pos.to_uint p); [congruence|reflexivity..]).
  pose proof (uint_chars_digits (Pos.to_uint p)) as Hd.
  pose proof (uint_chars_value (Pos.to_uint p) 0) as Hf.
  rewrite <- of_uint_value, Hv in Hf. cbn [Z.of_N] in Hf.
  destruct (js (NilEmpty.string_of_uint (Pos.to_uint p))) as [|c r] eqn:E.
  - cbn in Hf. discriminate.
  - exists c, r. repeat split; try assumption.
    change (js (String "-" (NilEmpty.string_of_uint (Pos.to_uint p))))
      with (45 :: js (NilEmpty.string_of_uint (Pos.to_uint p))).
    rewrite E. reflexivity.
Qed.

Lemma startsWith_Infinity_digit (c : Z) (r : jsstring) :
  isDigit c = true -> startsWith (js "Infinity") (c :: r) = false.
Proof.
  intros H. apply isDigit_iff in H. unfold startsWith.
  destruct (jseq _ _) eqn:E; [|reflexivity].
  apply jseq_true_iff in E. cbn in E. injection E as E _. lia.
Qed.

Lemma parseFloat_digits (c : Z) (r : jsstring) :
  forallb isDigit (c :: r) = true ->
  parseFloat (c :: r) = Decimal false (digitsValue (c :: r)) 0
  /\ parseFloat (45 :: c :: r) = Decimal true (digitsValue (c :: r)) 0
  /\ blank (c :: r) = false /\ blank (45 :: c :: r) = false.
Proof.
  intros Hall. pose proof Hall as Hd. cbn [forallb] in Hd.
  apply andb_prop in Hd as [Hc _].
  pose proof (isDigit_not_space c Hc) as Hw.
  pose proof (startsWith_Infinity_digit c r Hc) as Hi.
  pose proof Hc as Hc'. apply isDigit_iff in Hc'.
  repeat split.
  - unfold parseFloat. cbn [trimStart]. rewrite Hw. cbn [parseSign].
    rewrite (proj2 (Z.eqb_neq c 45)), (proj2 (Z.eqb_neq c 43)) by lia.
    rewrite Hi, (spanDigits_all _ Hall). reflexivity.
  - unfold parseFloat. cbn [trimStart].
    assert (isWhiteSpace 45 = false) as -> by reflexivity.
    cbn [parseSign Z.eqb Pos.eqb].
    rewrite Hi, (spanDigits_all _ Hall). reflexivity.
  - rewrite blank_iff. cbn [forallb]. rewrite Hw. reflexivity.
  - rewrite blank_iff. reflexivity.
Qed.

Lemma validateAmount_decimal (amount : Z) :
  validateAmount (numberToString amount)
  = if 0 <? amount then valid
    else invalid (js "Amount must be greater than 0").
Proof.
  destruct amount as [|p|p]; [reflexivity| |];
    destruct (numberToString_pos p) as (c & r & Epos & Hd & Hv & Eneg);
    destruct (parseFloat_digits c r Hd) as (Fpos & Fneg & Bpos & Bneg);
    unfold validateAmount.
  - rewrite Epos, Bpos, Fpos, Hv. reflexivity.
  - rewrite Eneg, Bneg, Fneg. reflexivity.
Qed.

(** X4.  The amount of a stored entry, written in decimal as the edit form
    pre-fills it, passes [validateAmount] exactly when it is positive;
    zero and negative amounts are refused as not greater than 0. *)
Theorem validateAmount_numberToString (amount : Z) :
  validateAmount (numberToString amount)
  = if 0 <? amount then valid
    else invalid (js "Amount must be greater than 0").
Proof. apply validateAmount_decimal. Qed.

(** ** Export followed by import *)

Lemma includes_app (c : Z) (a b : jsstring) :
  includes c (a ++ b) = includes c a || includes c b.
Proof. unfold includes; apply existsb_app. Qed.

Lemma includes_cons (c x : Z) (a : jsstring) :
  includes c (x :: a) = (c =? x) || includes c a.
Proof. reflexivity. Qed.

Lemma last_not_included (c : Z) (l : jsstring) :
  c <> 0 -> includes c l = false -> last l 0 <> c.
Proof.
  intros Hc. induction l as [|x l IH]; [intros _ H; cbn in H; congruence|].
  rewrite includes_cons. intros H. apply orb_false_elim in H as [Hx Hl].
  destruct l as [|y l]; [cbn; apply Z.eqb_neq in Hx; congruence|].
  exact (IH Hl).
Qed.

Lemma splitLinesFrom_line (l : jsstring) :
  forall cur rest,
    includes 10 l = false -> last l 0 <> 13 ->
    splitLinesFrom cur (l ++ 10 :: rest) = (cur ++ l) :: splitLinesFrom [] rest.
Proof.
  induction l as [|c l IH]; intros cur rest Hlf Hcr.
  - cbn [app splitLinesFrom Z.eqb Pos.eqb]. rewrite app_nil_r. reflexivity.
  - rewrite includes_cons in Hlf. apply orb_false_elim in Hlf as [Hc Hl].
    rewrite Z.eqb_sym in Hc. cbn [app splitLinesFrom]. rewrite Hc.
    destruct l as [|d l].
    + cbn [app]. cbn in Hcr.
      rewrite (proj2 (Z.eqb_neq c 13)) by exact Hcr. cbn [andb].
      pose proof (IH (cur ++ [c]) rest Hl ltac:(cbn; lia)) as H.
      cbn [app] in H. rewrite H, app_nil_r. reflexivity.
    + cbn [app].
      pose proof Hl as Hd. rewrite includes_cons in Hd.
      apply orb_false_elim in Hd as [Hd _]. rewrite Z.eqb_sym in Hd.
      rewrite Hd, andb_false_r.
      change (d :: l ++ 10 :: rest) with ((d :: l) ++ 10 :: rest).
      rewrite (IH (cur ++ [c]) rest Hl Hcr), <- app_assoc. reflexivity.
Qed.

Lemma splitLinesFrom_last_line (l : jsstring) :
  forall cur,
    includes 10 l = false -> splitLinesFrom cur l = [cur ++ l].
Proof.
  induction l as [|c l IH]; intros cur Hlf.
  - cbn. rewrite app_nil_r. reflexivity.
  - rewrite includes_cons in Hlf. apply orb_false_elim in Hlf as [Hc Hl].
    rewrite Z.eqb_sym in Hc. cbn [splitLinesFrom]. rewrite Hc.
    destruct l as [|d l].
    + rewrite (IH _ Hl), app_nil_r. reflexivity.
    + pose proof Hl as Hd. rewrite includes_cons in Hd.
      apply orb_false_elim in Hd as [Hd _]. rewrite Z.eqb_sym in Hd.
      rewrite Hd, andb_false_r, (IH _ Hl), <- app_assoc. reflexivity.
Qed.

(** Lines without line feed that do not end in a carriage return, joined
    by line feeds, are split back into themselves. *)
Lemma splitLines_join (l : jsstring) (ls : list jsstring) :
  Forall (fun x => includes 10 x = false /\ last x 0 <> 13) (l :: ls) ->
  splitLines (join lineFeed (l :: ls)) = l :: ls.
Proof.
  unfold splitLines. revert l.
  induction ls as [|m ls IH]; intros l H.
  - inversion H as [|? ? [Hlf _] _]; subst. cbn [join].
    apply (splitLinesFrom_last_line l [] Hlf).
  - inversion H as [|? ? [Hlf Hcr] Hrest]; subst.
    change (join lineFeed (l :: m :: ls))
      with (l ++ 10 :: join lineFeed (m :: ls)).
    rewrite (splitLinesFrom_line l [] _ Hlf Hcr), (IH m Hrest). reflexivity.
Qed.

Lemma filter_nonblank (lines : list jsstring) :
  Forall (fun x => forallb isWhiteSpace x = false) lines ->
  filter (fun line => negb (falsy (trim line))) lines = lines.
Proof.
  induction lines as [|x xs IH]; intros H; [reflexivity|].
  inversion H as [|? ? Hx Hxs]; subst. cbn [filter].
  destruct (trim x) as [|c r] eqn:E.
  - apply trim_nil_iff in E. congruence.
  - cbn [falsy negb]. f_equal. exact (IH Hxs).
Qed.

Lemma digits_exclude (c : Z) (ds : jsstring) :
  c < 48 \/ 57 < c -> forallb isDigit ds = true -> includes c ds = false.
Proof.
  intros Hc. induction ds as [|d ds IH]; [reflexivity|].
  cbn [forallb]. intros H. apply andb_prop in H as [Hd Hds].
  apply isDigit_iff in Hd. rewrite includes_cons, (IH Hds).
  rewrite (proj2 (Z.eqb_neq c d)) by lia. reflexivity.
Qed.

Lemma numberToString_excludes (c : Z) (n : Z) :
  c < 45 \/ 57 < c -> includes c (numberToString n) = false.
Proof.
  intros Hc. destruct n as [|p|p].
  - cbn. rewrite (proj2 (Z.eqb_neq c 48)) by lia. reflexivity.
  - destruct (numberToString_pos p) as (d & r & -> & Hd & _ & _).
    apply digits_exclude; [lia|exact Hd].
  - destruct (numberToString_pos p) as (d & r & _ & Hd & _ & ->).
    rewrite includes_cons, (proj2 (Z.eqb_neq c 45)) by lia.
    apply digits_exclude; [lia|exact Hd].
Qed.

Lemma trim_digits (ds : jsstring) : forallb isDigit ds = true -> trim ds = ds.
Proof.
  intros H. unfold trim, trimEnd.
  assert (forall l, forallb isDigit l = true -> trimStart l = l) as Hs.
  { intros [|c l] Hl; [reflexivity|]. cbn [forallb] in Hl.
    apply andb_prop in Hl as [Hc _]. cbn [trimStart].
    rewrite (isDigit_not_space c Hc). reflexivity. }
  rewrite (Hs ds H), (Hs (rev ds)), rev_involutive;
    [reflexivity|rewrite forallb_rev; exact H].
Qed.

Lemma blank_trim (s : jsstring) : blank (trim s) = blank s.
Proof.
  rewrite !blank_iff.
  destruct (forallb isWhiteSpace s) eqn:E.
  - apply trim_nil_iff in E. rewrite E. reflexivity.
  - destruct (forallb isWhiteSpace (trim s)) eqn:F; [|reflexivity].
    apply trim_nil_iff in F. rewrite trim_idem in F.
    apply trim_nil_iff in F. congruence.
Qed.

Lemma doubleQuotes_excludes (c : Z) (s : jsstring) :
  c <> 34 -> includes c s = false -> includes c (doubleQuotes s) = false.
Proof.
  intros Hc. induction s as [|x s IH]; [reflexivity|].
  rewrite includes_cons. intros H. apply orb_false_elim in H as [Hx Hs].
  cbn [doubleQuotes flat_map]. fold (doubleQuotes s).
  rewrite includes_app, (IH Hs), orb_false_r.
  destruct (x =? 34) eqn:E.
  - apply Z.eqb_eq in E; subst x. cbn. rewrite Hx. reflexivity.
  - cbn. rewrite Hx. reflexivity.
Qed.

Lemma escapeCSVField_excludes (c : Z) (x : cell) :
  c <> 34 -> includes c (cellToString x) = false ->
  includes c (escapeCSVField x) = false.
Proof.
  intros Hc H.
  destruct (escapeCSVField_cases x) as [E|(E & _)]; rewrite E; [|exact H].
  rewrite !includes_app, (doubleQuotes_excludes c _ Hc H).
  cbn. rewrite (proj2 (Z.eqb_neq c 34)) by exact Hc. reflexivity.
Qed.

Lemma join_comma_excludes (c : Z) (parts : list jsstring) :
  c <> 44 -> Forall (fun p => includes c p = false) parts ->
  includes c (join (js ",") parts) = false.
Proof.
  intros Hc. induction parts as [|p ps IH]; intros H; [reflexivity|].
  inversion H as [|? ? Hp Hps]; subst.
  destruct ps as [|q ps]; [exact Hp|].
  change (join (js ",") (p :: q :: ps)) with (p ++ 44 :: join (js ",") (q :: ps)).
  rewrite includes_app, includes_cons, Hp, (IH Hps).
  rewrite (proj2 (Z.eqb_neq c 44)) by exact Hc. reflexivity.
Qed.

Lemma last_app_cons (a b : jsstring) (x : Z) :
  last (a ++ x :: b) 0 = last (x :: b) 0.
Proof.
  induction a as [|y a IH]; [reflexivity|].
  cbn [app]. rewrite <- IH.
  destruct (a ++ x :: b) eqn:E; [destruct a; discriminate|reflexivity].
Qed.

Lemma last_cons_default {A} (x : A) (l : list A) (d d' : A) :
  last (x :: l) d = last (x :: l) d'.
Proof.
  revert x. induction l as [|y l IH]; intros x; [reflexivity|].
  change (last (x :: y :: l) d) with (last (y :: l) d).
  change (last (x :: y :: l) d') with (last (y :: l) d'). apply IH.
Qed.

Lemma join_comma_last (parts : list jsstring) (p : jsstring) :
  includes 13 (last parts p) = false ->
  last (join (js ",") (p :: parts)) 0 <> 13.
Proof.
  revert p. induction parts as [|q parts IH]; intros p H.
  - cbn [last join] in *. apply last_not_included; [lia|exact H].
  - change (join (js ",") (p :: q :: parts))
      with (p ++ 44 :: join (js ",") (q :: parts)).
    rewrite last_app_cons.
    assert (includes 13 (last parts q) = false) as Hq.
    { destruct parts as [|j parts]; [exact H|].
      rewrite (last_cons_default j parts q p). exact H. }
    pose proof (IH q Hq) as Hl.
    destruct (join (js ",") (q :: parts)) eqn:E; [cbn; lia|].
    exact Hl.
Qed.

Lemma join_comma_nonblank (p q : jsstring) (parts : list jsstring) :
  forallb isWhiteSpace (join (js ",") (p :: q :: parts)) = false.
Proof.
  change (join (js ",") (p :: q :: parts))
    with (p ++ 44 :: join (js ",") (q :: parts)).
  rewrite forallb_app. cbn [forallb].
  assert (isWhiteSpace 44 = false) as -> by reflexivity.
  cbn [andb]. apply andb_false_r.
Qed.

Lemma headerMapping_export :
  headerMapping
    (join (js ",") (map (fun h => escapeCSVField (Str h)) EXPORT_COLUMNS))
  = exportedMapping.
Proof. reflexivity. Qed.

Lemma validateRow_importable (e : Backend.Entry) (rowIndex : Z) :
  importable e -> validateRow (rowOfEntry e) rowIndex = None.
Proof.
  intros (Hd & Hn & Hm & Ha & _).
  unfold validateRow, rowOfEntry, validateRequired.
  cbn [manualDate customerName mobileNumber amountRs].
  rewrite !blank_trim, Hd, Hn. cbn [error valid].
  assert (forallb isDigit (Backend.mobileNumber e) = true) as Hdig.
  { unfold validateMobileNumber, digitsOnly in Hm.
    destruct (blank (Backend.mobileNumber e)); [discriminate|].
    destruct (negb (falsy _) && forallb isDigit _) eqn:E;
      [|cbn in Hm; discriminate].
    apply andb_prop in E as [_ E]; exact E. }
  rewrite (trim_digits _ Hdig).
  destruct (validateMobileNumber (Backend.mobileNumber e)) as [v [m|]] eqn:Ev.
  - unfold validateMobileNumber in Ev.
    repeat match type of Ev with
           | (if ?c then _ else _) = _ => destruct c
           end; inversion Ev; subst; cbn in Hm; discriminate.
  - cbn [error]. rewrite validateAmount_decimal.
    rewrite (proj2 (Z.ltb_lt 0 _)) by lia. reflexivity.
Qed.

Lemma join_cons_head (sep : jsstring) (c : Z) (p : jsstring)
    (rest : list jsstring) :
  join sep ((c :: p) :: rest) = c :: join sep (p :: rest).
Proof. destruct rest; reflexivity. Qed.

Section ExportImport.

Variable LocalTZA : Z -> bool -> Z.
Variable now : Z.
Variable formatTimestamp : Z -> jsstring.

Hypothesis formatTimestamp_one_line :
  forall t, includes 10 (formatTimestamp t) = false
            /\ includes 13 (formatTimestamp t) = false.

Local Abbreviation rowLine :=
  (fun e => join (js ",")
              (map escapeCSVField (buildExportRow LocalTZA now formatTimestamp e))).

Lemma daysCell_excludes (c : Z) (s : jsstring) :
  c < 45 ->
  includes c
    (cellToString
       match calculateDaysSince LocalTZA now s with
       | Null => Str []
       | NaNDays => NumNaN
       | Days d => Num d
       end) = false.
Proof.
  intros Hc. destruct (calculateDaysSince LocalTZA now s) as [| |d];
    cbn [cellToString].
  - reflexivity.
  - cbn. rewrite !(proj2 (Z.eqb_neq c _)) by lia. reflexivity.
  - apply numberToString_excludes; lia.
Qed.

Lemma mobile_digits (e : Backend.Entry) :
  importable e -> forallb isDigit (Backend.mobileNumber e) = true.
Proof.
  intros (_ & _ & Hm & _).
  unfold validateMobileNumber, digitsOnly in Hm.
  destruct (blank (Backend.mobileNumber e)); [discriminate|].
  destruct (negb (falsy _) && forallb isDigit _) eqn:E;
    [|cbn in Hm; discriminate].
  apply andb_prop in E as [_ E]; exact E.
Qed.

Lemma rowLine_one_line (e : Backend.Entry) :
  importable e ->
  includes 10 (rowLine e) = false /\ last (rowLine e) 0 <> 13
  /\ forallb isWhiteSpace (rowLine e) = false.
Proof.
  intros He. pose proof (mobile_digits e He) as Hdig.
  destruct He as (_ & _ & _ & _ & Hd & Hn).
  destruct (formatTimestamp_one_line (Backend.createdAt e)) as [Hlf Hcr].
  unfold buildExportRow. cbn [map]. repeat split.
  - apply join_comma_excludes; [lia|].
    repeat constructor; apply escapeCSVField_excludes; try lia;
      cbn [cellToString]; try assumption.
    + apply daysCell_excludes; lia.
    + apply digits_exclude; [lia|exact Hdig].
    + apply numberToString_excludes; lia.
  - apply join_comma_last. cbn [last].
    apply escapeCSVField_excludes; [lia|exact Hcr].
  - apply join_comma_nonblank.
Qed.

Lemma outcomeOf_rowLine (e : Backend.Entry) (rowNumber : Z) :
  importable e ->
  outcomeOf exportedMapping (rowNumber, rowLine e) = RowValid (rowOfEntry e).
Proof.
  intros He. destruct (rowLine_one_line e He) as (_ & _ & Hnb).
  unfold outcomeOf.
  destruct (trim (rowLine e)) as [|c r] eqn:Et;
    [apply trim_nil_iff in Et; congruence|].
  cbn [falsy]. rewrite <- Et. unfold tryRow.
  rewrite parseCSVLine_of_trim. unfold parseCSVLine, buildExportRow.
  rewrite parseCSVLineFrom_row.
  cbn [map app List.length Nat.min exportedMapping assignFields nth_error
       assign emptyPartialRow bind negb orEmpty cellToString
       pManualDate pCustomerName pMobileNumber pAmountRs].
  rewrite !trim_idem.
  assert (trim (numberToString (Backend.amountRs e))
          = numberToString (Backend.amountRs e)) as ->.
  { destruct He as (_ & _ & _ & Ha & _).
    destruct (Backend.amountRs e) as [|p|p]; try lia.
    destruct (numberToString_pos p) as (d & ds & -> & Hd & _).
    apply (trim_digits _ Hd). }
  fold (rowOfEntry e). rewrite (validateRow_importable e rowNumber He).
  reflexivity.
Qed.

Lemma rows_of_export (entries : list Backend.Entry) :
  Forall importable entries ->
  forall i,
    successesOf exportedMapping (numberedFrom i (map rowLine entries))
    = map rowOfEntry entries
    /\ failuresOf exportedMapping (numberedFrom i (map rowLine entries)) = [].
Proof.
  induction entries as [|e entries IH]; intros H i; [split; reflexivity|].
  inversion H as [|? ? He Hrest]; subst.
  destruct (IH Hrest (i + 1)) as [Hs Hf].
  unfold successesOf, failuresOf in *.
  cbn [map numberedFrom flat_map].
  rewrite (outcomeOf_rowLine e (i + 1) He), Hs, Hf. split; reflexivity.
Qed.

Lemma import_of_lines (header : jsstring) (entries : list Backend.Entry) :
  falsy header = false ->
  includes 10 header = false -> last header 0 <> 13 ->
  forallb isWhiteSpace header = false ->
  headerMapping header = exportedMapping ->
  entries <> [] -> Forall importable entries ->
  parseXLSXFile
    (ReadText (join lineFeed (header :: map rowLine entries)))
  = Resolved (mkImportResult (map rowOfEntry entries) []).
Proof.
  intros Hne Hlf Hcr Hnb Hmap Hent Himp.
  assert (Forall (fun x => includes 10 x = false /\ last x 0 <> 13)
                 (header :: map rowLine entries)) as Hok.
  { constructor; [split; assumption|]. apply Forall_map.
    eapply Forall_impl; [|exact Himp]. intros e He.
    destruct (rowLine_one_line e He) as (A & B & _). split; assumption. }
  assert (Forall (fun x => forallb isWhiteSpace x = false)
                 (header :: map rowLine entries)) as Hnbs.
  { constructor; [assumption|]. apply Forall_map.
    eapply Forall_impl; [|exact Himp]. intros e He.
    destruct (rowLine_one_line e He) as (_ & _ & C). exact C. }
  cbn [parseXLSXFile]. rewrite onload_structure.
  assert (falsy (join lineFeed (header :: map rowLine entries)) = false) as ->.
  { destruct header as [|c r]; [discriminate|].
    destruct (map rowLine entries); reflexivity. }
  unfold fileLines. rewrite (splitLines_join _ _ Hok), (filter_nonblank _ Hnbs).
  rewrite Hmap. cbn [exportedMapping existsb isSome orb negb].
  destruct (rows_of_export entries Himp 1) as [-> ->].
  destruct entries as [|e entries]; [congruence|reflexivity].
Qed.

(** X5.  What [exportToCSV] and [exportToXLSX] write is read back by the
    importer as the same entries: for a non-empty list of entries that
    pass the form's validators, whose amounts are below 2^53 and whose
    dates and names hold no line feed, and a host whose timestamps are
    written on one line, parsing the CSV text (with or
    without the byte-order mark) yields one valid row per entry, in order,
    with the date, name and mobile number trimmed and the amount in
    decimal, and no error. *)
Theorem export_then_import (entries : list Backend.Entry) :
  entries <> [] -> Forall importable entries ->
  parseXLSXFile
    (ReadText (csvContentOf LocalTZA now formatTimestamp entries))
  = Resolved (mkImportResult (map rowOfEntry entries) [])
  /\ parseXLSXFile
       (ReadText ([65279] ++ csvContentOf LocalTZA now formatTimestamp entries))
     = Resolved (mkImportResult (map rowOfEntry entries) []).
Proof.
  intros Hent Himp. unfold csvContentOf. rewrite map_map. split.
  - apply import_of_lines; try assumption; try reflexivity.
    vm_compute; discriminate.
  - cbn [app]. rewrite <- join_cons_head.
    apply import_of_lines; try assumption; try reflexivity.
    vm_compute; discriminate.
Qed.

End ExportImport.

(** The theorem for one entry in Indian Standard Time, with a name that
    holds a comma and quotes. *)
Lemma export_then_import_witness :
  parseXLSXFile
    (ReadText
       (csvContentOf (fixedZone 19800000) 1710158400000
          (fun _ => js "Nov 14, 2023, 10:13 PM")
          [Backend.mkEntry (js "id1") (js "Doe, Jane" ++ [34; 74; 34])
             1700000000000000000 (js "1234567890") 500 (js "2024-03-10")]))
  = Resolved
      (mkImportResult
         (map rowOfEntry
            [Backend.mkEntry (js "id1") (js "Doe, Jane" ++ [34; 74; 34])
               1700000000000000000 (js "1234567890") 500 (js "2024-03-10")])
         [])
  /\ parseXLSXFile
       (ReadText
          ([65279]
           ++ csvContentOf (fixedZone 19800000) 1710158400000
                (fun _ => js "Nov 14, 2023, 10:13 PM")
                [Backend.mkEntry (js "id1") (js "Doe, Jane" ++ [34; 74; 34])
                   1700000000000000000 (js "1234567890") 500 (js "2024-03-10")]))
     = Resolved
         (mkImportResult
            (map rowOfEntry
               [Backend.mkEntry (js "id1") (js "Doe, Jane" ++ [34; 74; 34])
                  1700000000000000000 (js "1234567890") 500 (js "2024-03-10")])
            []).
Proof.
  apply (export_then_import (fixedZone 19800000) 1710158400000
           (fun _ => js "Nov 14, 2023, 10:13 PM")).
  - intros t; split; reflexivity.
  - discriminate.
  - repeat constructor; vm_compute; reflexivity.
Defined.

(** ** What an import returns *)

Lemma validateMobileNumber_result (value : jsstring) :
  (validateMobileNumber value = valid)
  \/ (exists m, validateMobileNumber value = invalid m
                /\ In m validationMessages).
Proof.
  unfold validateMobileNumber, validationMessages.
  repeat match goal with
         | |- context [if ?c then _ else _] => destruct c
         end;
    try (left; reflexivity); right; eexists; split; try reflexivity;
    cbn [In]; tauto.
Qed.

Lemma validateAmount_result (value : jsstring) :
  (validateAmount value = valid)
  \/ (exists m, validateAmount value = invalid m /\ In m validationMessages).
Proof.
  unfold validateAmount, validationMessages.
  repeat match goal with
         | |- context [if ?c then _ else _] => destruct c
         end;
    try (left; reflexivity); right; eexists; split; try reflexivity;
    cbn [In]; tauto.
Qed.

Lemma validateRow_result (r : ParsedRow) (rowIndex : Z) :
  (validateRow r rowIndex = None
   /\ isValid (validateRequired (manualDate r) (js "Manual Date")) = true
   /\ isValid (validateRequired (customerName r) (js "Customer Name")) = true
   /\ isValid (validateMobileNumber (mobileNumber r)) = true
   /\ isValid (validateAmount (amountRs r)) = true)
  \/ (exists m, validateRow r rowIndex = Some (rowPrefix rowIndex ++ m)
                /\ In m validationMessages).
Proof.
  unfold validateRow, validateRequired.
  destruct (blank (manualDate r));
    [right; eexists; split; [reflexivity|cbn; tauto]|].
  destruct (blank (customerName r));
    [right; eexists; split; [reflexivity|cbn; tauto]|].
  cbn [error valid isValid].
  destruct (validateMobileNumber_result (mobileNumber r)) as [->|(m & -> & Hm)];
    [|right; exists m; split; [reflexivity|exact Hm]].
  cbn [error valid isValid].
  destruct (validateAmount_result (amountRs r)) as [->|(m & -> & Hm)];
    [|right; exists m; split; [reflexivity|exact Hm]].
  left. repeat split; reflexivity.
Qed.

Lemma trimmedPartial_empty : trimmedPartial emptyPartialRow.
Proof. repeat split; reflexivity. Qed.

Lemma assignFields_trimmed (n : nat) :
  forall j values fieldMapping parsedRow hasAnyField st,
    trimmedPartial parsedRow ->
    assignFields n j values fieldMapping parsedRow hasAnyField = Normal st ->
    trimmedPartial (fst st).
Proof.
  induction n as [|n IH];
    intros j values fieldMapping parsedRow hasAnyField st Ht;
    cbn [assignFields].
  - intros H; injection H as <-; exact Ht.
  - destruct (nth_error fieldMapping j) as [[fieldName|]|]; try (apply IH; exact Ht).
    destruct (nth_error values j) as [v|]; [|discriminate].
    apply IH. destruct fieldName as [k|]; [|exact Ht].
    destruct Ht as (A & B & C & D).
    destruct k; unfold trimmedPartial; cbn; repeat split;
      try assumption; apply trim_idem.
Qed.

Lemma tryRow_outcome (fieldMapping : list (option columnTarget))
    (rowNumber : Z) (line : jsstring) :
  tryRow fieldMapping rowNumber line = Normal RowSkipped
  \/ (exists r, tryRow fieldMapping rowNumber line = Normal (RowValid r)
                /\ acceptedRow r)
  \/ (exists m, tryRow fieldMapping rowNumber line
                = Normal (RowInvalid (rowPrefix rowNumber ++ m))
                /\ In m validationMessages).
Proof.
  unfold tryRow.
  destruct (assignFields_normal
              (Nat.min (List.length (parseCSVLine line)) (List.length fieldMapping))
              0 (parseCSVLine line) fieldMapping emptyPartialRow false)
    as [[parsedRow hasAnyField] E]; [lia|].
  pose proof (assignFields_trimmed _ _ _ _ _ _ _ trimmedPartial_empty E)
    as (A & B & C & D).
  cbn [fst] in *. rewrite E; cbn [bind].
  destruct (negb hasAnyField); [left; reflexivity|right].
  match goal with
  | |- context [validateRow ?r rowNumber] =>
      destruct (validateRow_result r rowNumber)
        as [(-> & V1 & V2 & V3 & V4)|(m & -> & Hm)]
  end.
  - left. eexists; split; [reflexivity|].
    unfold acceptedRow; cbn [manualDate customerName mobileNumber amountRs] in *.
    repeat split; assumption.
  - right. exists m; split; [reflexivity|exact Hm].
Qed.

Lemma outcomeOf_cases (fieldMapping : list (option columnTarget))
    (nl : Z * jsstring) :
  outcomeOf fieldMapping nl = RowSkipped
  \/ (exists r, outcomeOf fieldMapping nl = RowValid r /\ acceptedRow r)
  \/ (exists m, outcomeOf fieldMapping nl = RowInvalid (rowPrefix (fst nl) ++ m)
                /\ In m validationMessages).
Proof.
  destruct nl as [n l]. unfold outcomeOf.
  destruct (falsy (trim l)); [left; reflexivity|].
  destruct (tryRow_outcome fieldMapping n (trim l))
    as [->|[(r & -> & Hr)|(m & -> & Hm)]].
  - left; reflexivity.
  - right; left; exists r; split; [reflexivity|exact Hr].
  - right; right; exists m; split; [reflexivity|exact Hm].
Qed.

Lemma resolved_lists (text : jsstring) (r : ImportResult) :
  parseXLSXFile (ReadText text) = Resolved r ->
  exists header rest,
    fileLines text = header :: rest
    /\ validRows r = successesOf (headerMapping header) (numberedFrom 1 rest)
    /\ errors r = failuresOf (headerMapping header) (numberedFrom 1 rest).
Proof.
  cbn [parseXLSXFile]. rewrite onload_structure.
  destruct (falsy text); [discriminate|].
  destruct (fileLines text) as [|header rest]; [discriminate|].
  destruct (negb _); [discriminate|].
  intros H. exists header, rest. split; [reflexivity|].
  destruct (successesOf _ _); destruct (failuresOf _ _);
    try discriminate; injection H as <-; split; reflexivity.
Qed.

(** X6.  Whatever the file, every row the importer returns as valid has
    passed the four validators of the form, and none of its fields has
    leading or trailing white space. *)
Theorem parseXLSXFile_valid_rows_accepted (text : jsstring) (r : ImportResult) :
  parseXLSXFile (ReadText text) = Resolved r ->
  Forall acceptedRow (validRows r).
Proof.
  intros H. destruct (resolved_lists text r H) as (header & rest & _ & -> & _).
  apply Forall_forall. intros row Hin.
  unfold successesOf in Hin. apply in_flat_map in Hin as (nl & _ & Hout).
  destruct (outcomeOf_cases (headerMapping header) nl)
    as [E|[(r' & E & Hr)|(m & E & _)]]; rewrite E in Hout;
    try (destruct Hout; fail).
  destruct Hout as [<-|[]]. exact Hr.
Qed.

Lemma parseXLSXFile_valid_rows_accepted_witness :
  Forall acceptedRow
    [mkParsedRow (js "2024-01-01") (js "Jane") (js "1234567890") (js "500")].
Proof.
  apply (parseXLSXFile_valid_rows_accepted
           (js "Date,Name,Mobile,Amount" ++ lineFeed
            ++ js " 2024-01-01 , Jane ,1234567890,500")
           (mkImportResult
              [mkParsedRow (js "2024-01-01") (js "Jane") (js "1234567890")
                 (js "500")] [])).
  reflexivity.
Defined.

(** X7.  Every error the importer returns carries a row number between 2
    and the number of non-blank lines, and its message is that row
    number, as [Row n: ], followed by the message of the first validator
    that failed; the parse-failure message never occurs. *)
Theorem parseXLSXFile_errors_shape (text : jsstring) (r : ImportResult)
    (e : ImportError) :
  parseXLSXFile (ReadText text) = Resolved r ->
  In e (errors r) ->
  2 <= row e <= Z.of_nat (List.length (fileLines text))
  /\ exists m, message e = rowPrefix (row e) ++ m /\ In m validationMessages.
Proof.
  intros H Hin.
  destruct (resolved_lists text r H) as (header & rest & El & _ & Ee).
  rewrite Ee in Hin. unfold failuresOf in Hin.
  apply in_flat_map in Hin as ([n l] & Hnl & Hout).
  apply numberedFrom_In in Hnl as [Hr _].
  destruct (outcomeOf_cases (headerMapping header) (n, l))
    as [E|[(r' & E & _)|(m & E & Hm)]]; rewrite E in Hout;
    try (destruct Hout; fail).
  destruct Hout as [<-|[]]. cbn [row message fst] in *.
  rewrite El. cbn [List.length]. split; [lia|].
  exists m; split; [reflexivity|exact Hm].
Qed.

Lemma parseXLSXFile_errors_shape_witness :
  2 <= 2
       <= Z.of_nat
            (List.length
               (fileLines (js "Date,Name,Mobile,Amount" ++ lineFeed
                           ++ js ",Jane,123,500")))
  /\ exists m,
       js "Row 2: Manual Date is required" = rowPrefix 2 ++ m
       /\ In m validationMessages.
Proof.
  apply (parseXLSXFile_errors_shape
           (js "Date,Name,Mobile,Amount" ++ lineFeed ++ js ",Jane,123,500")
           (mkImportResult []
              [mkImportError 2 (js "Row 2: Manual Date is required")])
           (mkImportError 2 (js "Row 2: Manual Date is required"))).
  - reflexivity.
  - left; reflexivity.
Defined.

(** ** Dates that parse *)

(** The calendar fields of any time value form a real date. *)
Lemma date_fields_range (t : Z) :
  0 <= MonthFromTime t <= 11
  /\ 1 <= DateFromTime t <= daysInMonth (YearFromTime t) (MonthFromTime t).
Proof.
  pose proof (YearFromDay_spec (Day t)) as S.
  rewrite DayFromYear_succ in S. fold (YearFromTime t) in S.
  unfold DateFromTime, MonthFromTime, DayWithinYear, InLeapYear.
  set (y := YearFromTime t) in *. set (D := Day t) in *.
  destruct (DaysInYear_cases y) as [E|E]; rewrite E in *;
    cbn [Z.eqb Pos.eqb];
    repeat match goal with
           | |- context [if ?a <? ?b then _ else _] =>
               destruct (Z.ltb_spec a b)
           end;
    calendar_tables; rewrite ?E; cbn [Z.eqb Pos.eqb]; lia.
Qed.

Lemma splitOn_parts_exclude (sep : Z) (s : jsstring) :
  forall cur,
    includes sep cur = false ->
    Forall (fun p => includes sep p = false) (splitOn sep cur s).
Proof.
  induction s as [|c s IH]; intros cur Hcur; cbn [splitOn].
  - repeat constructor; exact Hcur.
  - destruct (c =? sep) eqn:E.
    + constructor; [exact Hcur|]. apply IH; reflexivity.
    + apply IH. rewrite includes_app, Hcur, includes_cons, Z.eqb_sym, E.
      reflexivity.
Qed.

Lemma spanDigits_digits (s : jsstring) :
  forallb isDigit (fst (spanDigits s)) = true.
Proof.
  induction s as [|c s IH]; [reflexivity|]. cbn [spanDigits].
  destruct (isDigit c) eqn:E; [|reflexivity].
  destruct (spanDigits s) as [ds r]. cbn [fst forallb] in *.
  rewrite E, IH. reflexivity.
Qed.

Lemma digitsValue_nonneg (ds : jsstring) :
  forallb isDigit ds = true -> 0 <= digitsValue ds.
Proof.
  unfold digitsValue.
  assert (forall acc, 0 <= acc -> forallb isDigit ds = true ->
                      0 <= fold_left (fun a c => a * 10 + (c - 48)) ds acc) as H.
  { induction ds as [|c ds IH]; intros acc Hacc Hd; [exact Hacc|].
    cbn [forallb] in Hd. apply andb_prop in Hd as [Hc Hds].
    apply isDigit_iff in Hc. cbn [fold_left]. apply IH; [lia|exact Hds]. }
  apply H; lia.
Qed.

Lemma trimStart_excludes (c : Z) (s : jsstring) :
  includes c s = false -> includes c (trimStart s) = false.
Proof.
  induction s as [|x s IH]; [reflexivity|]. cbn [trimStart].
  destruct (isWhiteSpace x); [|tauto].
  rewrite includes_cons. intros H. apply orb_false_elim in H as [_ H].
  exact (IH H).
Qed.

(** Without a minus sign [parseInt] gives no negative number. *)
Lemma parseInt10_nonneg (p : jsstring) (v : Z) :
  includes 45 p = false -> parseInt10 p = Some v -> 0 <= v.
Proof.
  intros Hp. apply (trimStart_excludes 45) in Hp.
  unfold parseInt10, parseSign.
  destruct (trimStart p) as [|c r]; [cbn; discriminate|].
  rewrite includes_cons in Hp. apply orb_false_elim in Hp as [Hc _].
  rewrite Z.eqb_sym in Hc. rewrite Hc.
  destruct (c =? 43).
  - pose proof (spanDigits_digits r) as Hd.
    destruct (spanDigits r) as [ds rest]. cbn [fst] in Hd.
    destruct (falsy ds); [discriminate|].
    intros H; injection H as <-. apply digitsValue_nonneg; exact Hd.
  - pose proof (spanDigits_digits (c :: r)) as Hd.
    destruct (spanDigits (c :: r)) as [ds rest]. cbn [fst] in Hd.
    destruct (falsy ds); [discriminate|].
    intros H; injection H as <-. apply digitsValue_nonneg; exact Hd.
Qed.

Lemma parseManualDate_parts (LocalTZA : Z -> bool -> Z) (s : jsstring)
    (t : Z) :
  parseManualDate LocalTZA s = Some t ->
  exists p0 p1 p2 y m d,
    split 45 s = [p0; p1; p2]
    /\ parseInt10 p0 = Some y /\ parseInt10 p1 = Some m
    /\ parseInt10 p2 = Some d
    /\ 0 <= y /\ 0 <= m /\ 0 <= d
    /\ newDate LocalTZA y (m - 1) d = Some t
    /\ YearFromTime (LocalTime LocalTZA t) = y
    /\ MonthFromTime (LocalTime LocalTZA t) = m - 1
    /\ DateFromTime (LocalTime LocalTZA t) = d.
Proof.
  unfold parseManualDate.
  destruct (falsy s); [discriminate|].
  pose proof (splitOn_parts_exclude 45 s [] eq_refl) as Hex.
  fold (split 45 s) in Hex.
  destruct (split 45 s) as [|p0 [|p1 [|p2 [|p3 ps]]]]; try discriminate.
  inversion Hex as [|? ? H0 Hex1]; subst.
  inversion Hex1 as [|? ? H1 Hex2]; subst.
  inversion Hex2 as [|? ? H2 _]; subst.
  destruct (parseInt10 p0) as [y|] eqn:E0; [|discriminate].
  destruct (parseInt10 p1) as [m|] eqn:E1; [|discriminate].
  destruct (parseInt10 p2) as [d|] eqn:E2; [|discriminate].
  cbv zeta.
  destruct (newDate LocalTZA y (m - 1) d) as [t'|] eqn:En;
    [|cbn; discriminate].
  cbn [getFullYear getMonth getDate option_map strictNeq].
  destruct (YearFromTime (LocalTime LocalTZA t') =? y) eqn:Ey;
    [|cbn; discriminate].
  destruct (MonthFromTime (LocalTime LocalTZA t') =? m - 1) eqn:Em;
    [|cbn; discriminate].
  destruct (DateFromTime (LocalTime LocalTZA t') =? d) eqn:Ed;
    [|cbn; discriminate].
  cbn [negb orb]. intros H; injection H as <-.
  apply Z.eqb_eq in Ey, Em, Ed.
  exists p0, p1, p2, y, m, d.
  pose proof (parseInt10_nonneg _ _ H0 E0).
  pose proof (parseInt10_nonneg _ _ H1 E1).
  pose proof (parseInt10_nonneg _ _ H2 E2).
  repeat split; assumption.
Qed.

(** X8.  In every time zone, when [parseManualDate] returns a Date the
    text splits at its dashes into exactly three parts that [parseInt]
    reads as a year, a month from 1 to 12 and a day that exists in that
    month of that year, and these are the local year, month and day of
    the Date returned: a day that overflows its month is never rolled
    over into the next one. *)
Theorem parseManualDate_real_date (LocalTZA : Z -> bool -> Z) (s : jsstring)
    (t : Z) :
  parseManualDate LocalTZA s = Some t ->
  exists p0 p1 p2 y m d,
    split 45 s = [p0; p1; p2]
    /\ parseInt10 p0 = Some y /\ parseInt10 p1 = Some m
    /\ parseInt10 p2 = Some d
    /\ 1 <= m <= 12 /\ 1 <= d <= daysInMonth y (m - 1)
    /\ YearFromTime (LocalTime LocalTZA t) = y
    /\ MonthFromTime (LocalTime LocalTZA t) + 1 = m
    /\ DateFromTime (LocalTime LocalTZA t) = d.
Proof.
  intros H.
  destruct (parseManualDate_parts _ _ _ H)
    as (p0 & p1 & p2 & y & m & d & Hs & E0 & E1 & E2 & _ & _ & _ & _ & Ey & Em & Ed).
  exists p0, p1, p2, y, m, d.
  pose proof (date_fields_range (LocalTime LocalTZA t)) as [Rm Rd].
  rewrite Ey, Em, Ed in *.
  repeat split; try assumption; lia.
Qed.

Lemma parseManualDate_real_date_witness :
  exists p0 p1 p2 y m d,
    split 45 (js "2024-02-29") = [p0; p1; p2]
    /\ parseInt10 p0 = Some y /\ parseInt10 p1 = Some m
    /\ parseInt10 p2 = Some d
    /\ 1 <= m <= 12 /\ 1 <= d <= daysInMonth y (m - 1)
    /\ YearFromTime (LocalTime easternTime2024 1709182800000) = y
    /\ MonthFromTime (LocalTime easternTime2024 1709182800000) + 1 = m
    /\ DateFromTime (LocalTime easternTime2024 1709182800000) = d.
Proof.
  apply (parseManualDate_real_date easternTime2024 (js "2024-02-29")
           1709182800000).
  vm_compute; reflexivity.
Defined.

(** X9.  In a zone with a fixed offset a Date returned by
    [parseManualDate] is the local midnight of the date written, and the
    year written is at least 100: a year from 0 to 99 is moved to
    1900..1999 by the Date constructor and then fails the comparison. *)
Theorem parseManualDate_fixed_zone_midnight (offset : Z) (s : jsstring)
    (t : Z) :
  parseManualDate (fixedZone offset) s = Some t ->
  exists p0 p1 p2 y m d,
    split 45 s = [p0; p1; p2]
    /\ parseInt10 p0 = Some y /\ parseInt10 p1 = Some m
    /\ parseInt10 p2 = Some d
    /\ 100 <= y
    /\ t = MakeDay y (m - 1) d * msPerDay - offset.
Proof.
  intros H.
  destruct (parseManualDate_parts _ _ _ H)
    as (p0 & p1 & p2 & y & m & d & Hs & E0 & E1 & E2 & Hy & _ & _ & Hn & Ey & Em & Ed).
  exists p0, p1, p2, y, m, d.
  unfold newDate in Hn.
  remember (if (0 <=? y) && (y <=? 99) then 1900 + y else y) as yr eqn:Eyr.
  unfold TimeClip, UTC, MakeDate, fixedZone in Hn. rewrite Z.add_0_r in Hn.
  destruct (Z.abs _ <=? _); [|discriminate].
  assert (MakeDay yr (m - 1) d * msPerDay - offset = t) as Ht by congruence.
  clear Hn.
  assert (100 <= y) as Hy100.
  { destruct (Z.le_gt_cases 100 y) as [|Hlt]; [assumption|exfalso].
    assert ((0 <=? y) && (y <=? 99) = true) as Hc
      by (apply andb_true_iff; split; apply Z.leb_le; lia).
    rewrite Hc in Eyr.
    pose proof (MakeDay_components (LocalTime (fixedZone offset) t)) as Hc'.
    pose proof (date_fields_range (LocalTime (fixedZone offset) t)) as [Rm _].
    rewrite Ey, Em, Ed in *.
    assert (Day (LocalTime (fixedZone offset) t) = MakeDay yr (m - 1) d) as HD.
    { unfold LocalTime, fixedZone, Day. rewrite <- Ht.
      replace (MakeDay yr (m - 1) d * msPerDay - offset + offset)
        with (MakeDay yr (m - 1) d * msPerDay) by lia.
      apply Z.div_mul. unfold msPerDay; lia. }
    rewrite HD in Hc'. unfold MakeDay in Hc'.
    rewrite (Z.div_small (m - 1) 12), (Z.mod_small (m - 1) 12), !Z.add_0_r
      in Hc' by lia.
    pose proof (DayFromYear_mean y). pose proof (DayFromYear_mean yr).
    destruct (month_cases (m - 1) Rm)
      as [E | [E | [E | [E | [E | [E | [E | [E | [E | [E | [E | E]]]]]]]]]]];
      rewrite E in Hc'; calendar_tables;
      destruct (DaysInYear y =? 366); destruct (DaysInYear yr =? 366);
      lia. }
  assert ((0 <=? y) && (y <=? 99) = false) as Hc
    by (apply andb_false_iff; right; apply Z.leb_gt; lia).
  rewrite Hc in Eyr. subst yr.
  repeat split; try assumption. symmetry; exact Ht.
Qed.

Lemma parseManualDate_fixed_zone_midnight_witness :
  exists p0 p1 p2 y m d,
    split 45 (js "2024-02-29") = [p0; p1; p2]
    /\ parseInt10 p0 = Some y /\ parseInt10 p1 = Some m
    /\ parseInt10 p2 = Some d
    /\ 100 <= y
    /\ 1709145000000 = MakeDay y (m - 1) d * msPerDay - 19800000.
Proof.
  apply (parseManualDate_fixed_zone_midnight 19800000 (js "2024-02-29")
           1709145000000).
  vm_compute; reflexivity.
Defined.



(** ** Sorting *)

Lemma insertBy_perm {A} (compare : A -> A -> Z) (x : A) (l : list A) :
  Permutation (x :: l) (insertBy compare x l).
Proof.
  induction l as [|y rest IH]; cbn [insertBy]; [reflexivity|].
  destruct (compare x y <=? 0); [reflexivity|].
  rewrite perm_swap. constructor. exact IH.
Qed.

Lemma sortBy_perm {A} (compare : A -> A -> Z) (l : list A) :
  Permutation l (sortBy compare l).
Proof.
  induction l as [|x rest IH]; cbn [sortBy]; [reflexivity|].
  rewrite <- insertBy_perm. constructor. exact IH.
Qed.

Lemma insertBy_map {A B} (f : A -> B) (compare : B -> B -> Z) (x : A)
    (l : list A) :
  insertBy compare (f x) (map f l)
  = map f (insertBy (fun a b => compare (f a) (f b)) x l).
Proof.
  induction l as [|y rest IH]; cbn [insertBy map]; [reflexivity|].
  destruct (compare (f x) (f y) <=? 0); cbn [map]; [reflexivity|].
  rewrite IH; reflexivity.
Qed.

Lemma sortBy_map {A B} (f : A -> B) (compare : B -> B -> Z) (l : list A) :
  sortBy compare (map f l)
  = map f (sortBy (fun a b => compare (f a) (f b)) l).
Proof.
  induction l as [|x rest IH]; cbn [sortBy map]; [reflexivity|].
  rewrite IH. apply insertBy_map.
Qed.

Lemma insertBy_ascending (x : Z) (l : list Z) :
  StronglySorted Z.le l -> StronglySorted Z.le (insertBy Z.sub x l).
Proof.
  induction 1 as [|y rest Hs IH Hy]; cbn [insertBy].
  - repeat constructor.
  - destruct (x - y <=? 0) eqn:E.
    + apply Z.leb_le in E.
      constructor; [constructor; assumption|].
      constructor; [lia|].
      rewrite Forall_forall in *. intros z Hz. specialize (Hy z Hz). lia.
    + apply Z.leb_gt in E.
      constructor; [exact IH|].
      rewrite Forall_forall in *. intros z Hz.
      apply (Permutation_in _ (Permutation_sym (insertBy_perm Z.sub x rest))) in Hz.
      destruct Hz as [<-|Hz]; [lia|apply Hy; exact Hz].
Qed.

Lemma sortBy_ascending (l : list Z) : StronglySorted Z.le (sortBy Z.sub l).
Proof.
  induction l as [|x rest IH]; cbn [sortBy]; [constructor|].
  apply insertBy_ascending; exact IH.
Qed.

Lemma insertBy_descending (x : Z) (l : list Z) :
  StronglySorted Z.ge l -> StronglySorted Z.ge (insertBy (fun a b => b - a) x l).
Proof.
  induction 1 as [|y rest Hs IH Hy]; cbn [insertBy].
  - repeat constructor.
  - destruct (y - x <=? 0) eqn:E.
    + apply Z.leb_le in E.
      constructor; [constructor; assumption|].
      constructor; [lia|].
      rewrite Forall_forall in *. intros z Hz. specialize (Hy z Hz). lia.
    + apply Z.leb_gt in E.
      constructor; [exact IH|].
      rewrite Forall_forall in *. intros z Hz.
      apply (Permutation_in _
               (Permutation_sym (insertBy_perm (fun a b => b - a) x rest))) in Hz.
      destruct Hz as [<-|Hz]; [lia|apply Hy; exact Hz].
Qed.

Lemma sortBy_descending (l : list Z) :
  StronglySorted Z.ge (sortBy (fun a b => b - a) l).
Proof.
  induction l as [|x rest IH]; cbn [sortBy]; [constructor|].
  apply insertBy_descending; exact IH.
Qed.

Lemma ascending_unique (l1 : list Z) :
  forall l2,
    StronglySorted Z.le l1 -> StronglySorted Z.le l2 -> Permutation l1 l2 ->
    l1 = l2.
Proof.
  induction l1 as [|a l1 IH]; intros l2 H1 H2 HP.
  - apply Permutation_nil in HP; subst; reflexivity.
  - destruct l2 as [|b l2];
      [apply Permutation_sym, Permutation_nil in HP; discriminate|].
    apply StronglySorted_inv in H1, H2.
    destruct H1 as [H1 Ha], H2 as [H2 Hb].
    rewrite Forall_forall in Ha, Hb.
    assert (a = b) as ->.
    { assert (In a (b :: l2)) as Hin1
        by (apply (Permutation_in _ HP); left; reflexivity).
      assert (In b (a :: l1)) as Hin2
        by (apply (Permutation_in _ (Permutation_sym HP)); left; reflexivity).
      destruct Hin1 as [->|Hin1]; [reflexivity|].
      destruct Hin2 as [->|Hin2]; [reflexivity|].
      specialize (Ha _ Hin2). specialize (Hb _ Hin1). lia. }
    f_equal. apply IH; [exact H1|exact H2|].
    apply Permutation_cons_inv in HP; exact HP.
Qed.

Lemma ascending_snoc (l : list Z) (y : Z) :
  StronglySorted Z.le l -> Forall (fun z => z <= y) l ->
  StronglySorted Z.le (l ++ [y]).
Proof.
  induction 1 as [|z l' Hs IH Hz]; intros Hy; cbn [app].
  - repeat constructor.
  - apply Forall_cons_iff in Hy. destruct Hy as [Hzy Hy].
    constructor; [apply IH; exact Hy|].
    apply Forall_app; split; [exact Hz|].
    constructor; [exact Hzy|constructor].
Qed.

Lemma descending_rev (l : list Z) :
  StronglySorted Z.ge l -> StronglySorted Z.le (rev l).
Proof.
  induction 1 as [|y rest Hs IH Hy]; cbn [rev]; [constructor|].
  apply ascending_snoc; [exact IH|].
  apply Forall_rev. revert Hy. apply Forall_impl. intros z Hz; lia.
Qed.

Lemma sortBy_descending_rev (l : list Z) :
  sortBy (fun a b => b - a) l = rev (sortBy Z.sub l).
Proof.
  rewrite <- (rev_involutive (sortBy (fun a b => b - a) l)).
  f_equal.
  apply ascending_unique.
  - apply descending_rev, sortBy_descending.
  - apply sortBy_ascending.
  - rewrite <- Permutation_rev, <- !sortBy_perm. reflexivity.
Qed.

Lemma ascending_strict (l : list Z) :
  StronglySorted Z.le l -> NoDup l -> StronglySorted Z.lt l.
Proof.
  induction 1 as [|y rest Hs IH Hy]; intros Hnd; [constructor|].
  inversion Hnd as [|? ? Hnin Hnd']; subst.
  constructor; [apply IH; exact Hnd'|].
  rewrite Forall_forall in *. intros z Hz.
  specialize (Hy z Hz).
  assert (z <> y) by (intros ->; contradiction).
  lia.
Qed.

(** ** Maps and sets in insertion order *)

Lemma mapSet_keys {V} (m : jsMap V) (k : Z) (v : V) :
  map fst (mapSet m k v) = setAdd (map fst m) k.
Proof.
  unfold setAdd.
  induction m as [|[k0 old] rest IH]; cbn [mapSet map fst existsb app];
    [reflexivity|].
  rewrite (Z.eqb_sym k k0).
  destruct (k0 =? k); cbn [map fst orb]; [reflexivity|].
  rewrite IH. destruct (existsb (Z.eqb k) (map fst rest)); reflexivity.
Qed.

Lemma mapGet_mapSet {V} (m : jsMap V) (k : Z) (v : V) (k' : Z) :
  mapGet (mapSet m k v) k' = if k =? k' then Some v else mapGet m k'.
Proof.
  induction m as [|[k0 old] rest IH]; cbn [mapSet mapGet]; [reflexivity|].
  destruct (k0 =? k) eqn:E; cbn [mapGet].
  - apply Z.eqb_eq in E; subst k0. destruct (k =? k'); reflexivity.
  - rewrite IH. destruct (k0 =? k') eqn:E'; [|reflexivity].
    apply Z.eqb_eq in E'; subst k0. rewrite Z.eqb_sym, E. reflexivity.
Qed.

Lemma setAdd_In (s : list Z) (x y : Z) :
  In y (setAdd s x) <-> y = x \/ In y s.
Proof.
  unfold setAdd. destruct (existsb (Z.eqb x) s) eqn:E.
  - split; [tauto|]. intros [->|H]; [|exact H].
    apply existsb_exists in E. destruct E as (z & Hz & Hxz).
    apply Z.eqb_eq in Hxz; subst; exact Hz.
  - rewrite in_app_iff. cbn [In]. intuition.
Qed.

Lemma setAdd_NoDup (s : list Z) (x : Z) : NoDup s -> NoDup (setAdd s x).
Proof.
  intros H. unfold setAdd. destruct (existsb (Z.eqb x) s) eqn:E; [exact H|].
  apply NoDup_app; [exact H|repeat constructor; intros []|].
  intros y Hy [<-|[]].
  assert (existsb (Z.eqb x) s = true); [|congruence].
  apply existsb_exists. exists x. split; [exact Hy|apply Z.eqb_refl].
Qed.

Lemma mapGet_None {V} (m : jsMap V) (k : Z) :
  mapGet m k = None <-> ~ In k (map fst m).
Proof.
  induction m as [|[k0 v] rest IH]; cbn [mapGet map fst In]; [tauto|].
  destruct (k0 =? k) eqn:E.
  - apply Z.eqb_eq in E. split; [discriminate|]. intros H; exfalso; tauto.
  - apply Z.eqb_neq in E. rewrite IH. tauto.
Qed.

Lemma mapGet_In {V} (m : jsMap V) (k : Z) (v : V) :
  NoDup (map fst m) -> In (k, v) m -> mapGet m k = Some v.
Proof.
  induction m as [|[k0 v0] rest IH]; intros Hnd Hin; [destruct Hin|].
  cbn [map fst] in Hnd. inversion Hnd as [|? ? Hnin Hnd']; subst.
  cbn [mapGet]. destruct Hin as [Heq|Hin].
  - inversion Heq; subst. rewrite Z.eqb_refl; reflexivity.
  - destruct (k0 =? k) eqn:E.
    + apply Z.eqb_eq in E; subst k0. exfalso; apply Hnin.
      apply (in_map fst) in Hin; exact Hin.
    + apply IH; assumption.
Qed.
Section AnalyticsByYearFacts.

Variable LocalTZA : Z -> bool -> Z.
Variable num : Type.
Variable numZero : num.
Variable numAdd : num -> num -> num.
Variable Number : Z -> num.

Local Abbreviation addYear := (addToYear LocalTZA num numZero numAdd Number).
Local Abbreviation byYear := (aggregateByYear LocalTZA num numZero numAdd Number).
Local Abbreviation bucketY := (yearBucket LocalTZA num numZero numAdd Number).
Local Abbreviation inY := (inYear LocalTZA).
Local Abbreviation toYearly :=
  (fun kv : Z * Totals.t num =>
     let (year, data) := kv in
     Yearly.mk year (Totals.totalAmount data) (Totals.count data)).

Lemma addToYear_get (m : jsMap (Totals.t num)) (e : Backend.Entry) (y : Z) :
  mapGet (addYear m e) y
  = if inY y e then Some (addEntry numAdd Number (orZero numZero (mapGet m y)) e)
    else mapGet m y.
Proof.
  unfold addToYear, inYear.
  destruct (parseManualDate LocalTZA (Backend.manualDate e)) as [t|];
    cbn [getFullYear option_map]; [|reflexivity].
  rewrite mapGet_mapSet.
  destruct (YearFromTime (LocalTime LocalTZA t) =? y) eqn:E; [|reflexivity].
  apply Z.eqb_eq in E; subst y. reflexivity.
Qed.

Lemma fold_addToYear_get (entries : list Backend.Entry) :
  forall (m : jsMap (Totals.t num)) (y : Z),
    mapGet (fold_left addYear entries m) y
    = match filter (inY y) entries with
      | [] => mapGet m y
      | es => Some (fold_left (addEntry numAdd Number) es (orZero numZero (mapGet m y)))
      end.
Proof.
  induction entries as [|e rest IH]; intros m y; cbn [fold_left filter];
    [reflexivity|].
  rewrite IH, addToYear_get.
  destruct (inY y e); [|reflexivity].
  cbn [orZero fold_left].
  destruct (filter (inY y) rest); reflexivity.
Qed.

Lemma addToYear_keys (m : jsMap (Totals.t num)) (e : Backend.Entry) :
  map fst (addYear m e)
  = match getFullYear LocalTZA
            (parseManualDate LocalTZA (Backend.manualDate e)) with
    | Some year => setAdd (map fst m) year
    | None => map fst m
    end.
Proof.
  unfold addToYear.
  destruct (getFullYear LocalTZA _); [apply mapSet_keys|reflexivity].
Qed.

Lemma fold_addToYear_keys (entries : list Backend.Entry) :
  forall m : jsMap (Totals.t num),
    map fst (fold_left addYear entries m)
    = fold_left
        (fun years entry =>
           match getFullYear LocalTZA
                   (parseManualDate LocalTZA (Backend.manualDate entry)) with
           | Some year => setAdd years year
           | None => years
           end)
        entries (map fst m).
Proof.
  induction entries as [|e rest IH]; intros m; cbn [fold_left]; [reflexivity|].
  rewrite IH, addToYear_keys. reflexivity.
Qed.

Lemma fold_addToYear_NoDup (entries : list Backend.Entry) :
  forall m : jsMap (Totals.t num),
    NoDup (map fst m) -> NoDup (map fst (fold_left addYear entries m)).
Proof.
  induction entries as [|e rest IH]; intros m H; cbn [fold_left]; [exact H|].
  apply IH. rewrite addToYear_keys.
  destruct (getFullYear LocalTZA _); [apply setAdd_NoDup|]; exact H.
Qed.

Lemma filter_nonempty {A} (f : A -> bool) (l : list A) :
  filter f l <> [] <-> exists x, In x l /\ f x = true.
Proof.
  split.
  - destruct (filter f l) as [|x rest] eqn:E; [congruence|]. intros _.
    exists x. apply filter_In. rewrite E. left; reflexivity.
  - intros (x & Hx) E. apply filter_In in Hx. rewrite E in Hx. destruct Hx.
Qed.

Lemma aggregateByYear_years (entries : list Backend.Entry) :
  map Yearly.year (byYear entries)
  = sortBy Z.sub (map fst (fold_left addYear entries [])).
Proof.
  unfold aggregateByYear. cbv zeta.
  rewrite <- (sortBy_map Yearly.year Z.sub), map_map.
  f_equal. apply map_ext. intros [k v]; reflexivity.
Qed.

Lemma aggregateByYear_spec (entries : list Backend.Entry) :
  StronglySorted Z.lt (map Yearly.year (byYear entries))
  /\ (forall year,
        In year (map Yearly.year (byYear entries))
        <-> exists e, In e entries /\ inY year e = true)
  /\ byYear entries = map (bucketY entries) (map Yearly.year (byYear entries)).
Proof.
  pose proof (fold_addToYear_NoDup entries [] (NoDup_nil _)) as Hnd.
  pose proof (fun y => fold_addToYear_get entries [] y) as Hget.
  cbn [mapGet orZero] in Hget.
  split; [|split].
  - rewrite aggregateByYear_years.
    apply ascending_strict; [apply sortBy_ascending|].
    eapply Permutation_NoDup; [apply sortBy_perm|exact Hnd].
  - intros y. rewrite aggregateByYear_years.
    rewrite <- filter_nonempty.
    split.
    + intros Hin E.
      apply (Permutation_in _ (Permutation_sym (sortBy_perm _ _))) in Hin.
      specialize (Hget y). rewrite E in Hget.
      apply mapGet_None in Hget. contradiction.
    + intros Hne.
      apply (Permutation_in _ (sortBy_perm _ _)).
      destruct (in_dec Z.eq_dec y (map fst (fold_left addYear entries [])))
        as [Hin|Hnin]; [exact Hin|].
      apply mapGet_None in Hnin. rewrite Hget in Hnin.
      destruct (filter (inY y) entries); [congruence|discriminate].
  - rewrite map_map.
    rewrite <- (map_id (byYear entries)) at 1.
    apply map_ext_in. intros b Hb.
    unfold aggregateByYear in Hb. cbv zeta in Hb.
    apply (Permutation_in _ (Permutation_sym (sortBy_perm _ _))) in Hb.
    apply in_map_iff in Hb. destruct Hb as ([k v] & <- & Hkv).
    cbn [Yearly.year].
    pose proof (mapGet_In _ _ _ Hnd Hkv) as Hk.
    rewrite Hget in Hk.
    destruct (filter (inY k) entries) as [|e es] eqn:E; [discriminate|].
    assert (v = fold_left (addEntry numAdd Number) (e :: es)
                          (Totals.mk numZero 0)) as -> by congruence.
    unfold yearBucket, sumAmounts. rewrite E.
    rewrite fold_addEntry. cbn [Totals.totalAmount Totals.count].
    reflexivity.
Qed.

(** X10.  The yearly aggregation returns one bucket for each year that
    some entry's date parses to and no other, in strictly ascending
    order of the year; each bucket holds the sum, added in list order,
    and the number of exactly the entries of that year.  Entries whose
    date does not parse are left out. *)
Theorem aggregateByYear_buckets (entries : list Backend.Entry) :
  StronglySorted Z.lt (map Yearly.year (byYear entries))
  /\ (forall year,
        In year (map Yearly.year (byYear entries))
        <-> exists e, In e entries /\ inY year e = true)
  /\ byYear entries = map (bucketY entries) (map Yearly.year (byYear entries)).
Proof. apply aggregateByYear_spec. Qed.

Lemma getAvailableYears_rev (entries : list Backend.Entry) :
  getAvailableYears LocalTZA entries
  = rev (map Yearly.year (byYear entries)).
Proof.
  rewrite aggregateByYear_years, fold_addToYear_keys.
  unfold getAvailableYears. cbv zeta. cbn [map].
  apply sortBy_descending_rev.
Qed.

(** X11.  The years offered for selection are the years of the yearly
    buckets in the opposite order: each year once, newest first. *)
Theorem getAvailableYears_aggregateByYear (entries : list Backend.Entry) :
  getAvailableYears LocalTZA entries
  = rev (map Yearly.year (byYear entries)).
Proof. apply getAvailableYears_rev. Qed.

Lemma find_yearBucket (entries : list Backend.Entry) (y : Z) (ys : list Z) :
  find (fun b : Yearly.t num => Yearly.year b =? y) (map (bucketY entries) ys)
  = if existsb (Z.eqb y) ys then Some (bucketY entries y) else None.
Proof.
  induction ys as [|k ys IH]; cbn [map find existsb]; [reflexivity|].
  cbn [yearBucket Yearly.year]. rewrite (Z.eqb_sym y k).
  destruct (k =? y) eqn:E; cbn [orb].
  - apply Z.eqb_eq in E; subst k. reflexivity.
  - exact IH.
Qed.

Lemma yearCount_length (entries : list Backend.Entry) (y : Z) :
  yearCount (byYear entries) y
  = Z.of_nat (List.length (filter (inY y) entries)).
Proof.
  destruct (aggregateByYear_spec entries) as (_ & Hin & Heq).
  unfold yearCount. rewrite Heq, find_yearBucket.
  destruct (existsb (Z.eqb y) _) eqn:E.
  - reflexivity.
  - destruct (filter (inY y) entries) as [|e es] eqn:F; [reflexivity|].
    assert (In y (map Yearly.year (byYear entries))) as Hy.
    { apply Hin. apply filter_nonempty. congruence. }
    assert (existsb (Z.eqb y) (map Yearly.year (byYear entries)) = true);
      [|congruence].
    apply existsb_exists. exists y. split; [exact Hy|apply Z.eqb_refl].
Qed.

Lemma months_of_year (y : Z) (e : Backend.Entry) :
  fold_left Z.add
    (map (fun i => if inMonth LocalTZA y i e then 1 else 0) monthKeys) 0
  = if inY y e then 1 else 0.
Proof.
  unfold inMonth, inYear.
  destruct (parseManualDate LocalTZA (Backend.manualDate e)) as [t|];
    [|reflexivity].
  destruct (YearFromTime (LocalTime LocalTZA t) =? y); [|reflexivity].
  cbn [andb].
  pose proof (MonthFromTime_range LocalTZA num numZero numAdd Number
                (LocalTime LocalTZA t)) as H.
  cbv [monthKeys seq map Z.of_nat Pos.of_succ_nat Pos.succ In] in H.
  repeat (destruct H as [<-|H]; [reflexivity|]).
  destruct H.
Qed.

Lemma fold_add_pointwise (f g : Z -> Z) (ks : list Z) :
  forall a b,
    fold_left Z.add (map (fun i => f i + g i) ks) (a + b)
    = fold_left Z.add (map f ks) a + fold_left Z.add (map g ks) b.
Proof.
  induction ks as [|k ks IH]; intros a b; cbn [map fold_left]; [reflexivity|].
  rewrite <- IH. f_equal. lia.
Qed.

Lemma month_lengths_year (y : Z) (entries : list Backend.Entry) :
  fold_left Z.add
    (map (fun i => Z.of_nat (List.length (filter (inMonth LocalTZA y i) entries)))
         monthKeys) 0
  = Z.of_nat (List.length (filter (inY y) entries)).
Proof.
  induction entries as [|e rest IH]; [reflexivity|].
  rewrite (map_ext _
             (fun i => (if inMonth LocalTZA y i e then 1 else 0)
                       + Z.of_nat (List.length (filter (inMonth LocalTZA y i) rest)))).
  - pose proof (fold_add_pointwise
                  (fun i => if inMonth LocalTZA y i e then 1 else 0)
                  (fun i => Z.of_nat (List.length (filter (inMonth LocalTZA y i) rest)))
                  monthKeys 0 0) as H.
    change (0 + 0) with 0 in H.
    rewrite H, IH, months_of_year.
    cbn [filter]. destruct (inY y e); cbn [List.length]; lia.
  - intros i. cbn [filter].
    destruct (inMonth LocalTZA y i e); cbn [List.length]; lia.
Qed.

(** X12.  For every year the monthly aggregation returns its buckets
    without throwing, and the counts of the twelve months add up to the
    count of that year's bucket in the yearly aggregation, or to zero
    when the yearly aggregation has no bucket for the year. *)
Theorem aggregateByMonth_counts_add_up (entries : list Backend.Entry)
    (year : Z) :
  exists months,
    aggregateByMonth LocalTZA num numZero numAdd Number entries year
    = Normal months
    /\ monthCounts months = yearCount (byYear entries) year.
Proof.
  unfold aggregateByMonth.
  rewrite initialMonths_tabulate.
  rewrite (forEachEntry_tabulate LocalTZA num numZero numAdd Number).
  cbn [bind].
  eexists; split; [reflexivity|].
  rewrite yearCount_length, <- month_lengths_year.
  unfold monthCounts, tabulate. rewrite !map_map.
  f_equal. apply map_ext. intros i.
  cbn [count]. rewrite fold_addEntry. reflexivity.
Qed.

End AnalyticsByYearFacts.

(** ** The text export *)












Section TextExport.

Variable LocalTZA : Z -> bool -> Z.
Variable now : Z.
Variable formatTimestamp : Z -> jsstring.



End TextExport.


(** ** The canister *)

Section CanisterFacts.

Import Canister.

Lemma textEq_true (a b : text) : textEq a b = true <-> a = b.
Proof.
  unfold textEq. destruct (list_eq_dec Z.eq_dec a b); split;
    congruence.
Qed.

Lemma textEq_false (a b : text) : textEq a b = false <-> a <> b.
Proof.
  unfold textEq. destruct (list_eq_dec Z.eq_dec a b); split;
    congruence.
Qed.

Lemma textEq_refl (a : text) : textEq a a = true.
Proof. apply textEq_true; reflexivity. Qed.

Lemma compareText_eq (a : text) : forall b, compareText a b = Eq <-> a = b.
Proof.
  induction a as [|x a IH]; intros [|y b]; cbn [compareText];
    try (split; [discriminate|congruence]); [tauto|].
  destruct (Z.compare_spec x y) as [->|H|H].
  - rewrite IH. split; congruence.
  - split; [discriminate|]. intros E; injection E as -> _; lia.
  - split; [discriminate|]. intros E; injection E as -> _; lia.
Qed.

Lemma compareText_opp (a : text) :
  forall b, compareText b a = CompOpp (compareText a b).
Proof.
  induction a as [|x a IH]; intros [|y b]; cbn [compareText]; try reflexivity.
  rewrite (Z.compare_antisym x y).
  destruct (x ?= y); cbn [CompOpp]; [apply IH|reflexivity|reflexivity].
Qed.

Lemma compareText_trans (a : text) :
  forall b c,
    compareText a b = Lt -> compareText b c = Lt -> compareText a c = Lt.
Proof.
  induction a as [|x a IH]; intros [|y b] [|z c]; cbn [compareText];
    try discriminate; try reflexivity.
  destruct (Z.compare_spec x y) as [->|Hxy|Hxy]; try discriminate.
  - destruct (y ?= z); try discriminate; [apply IH|reflexivity].
  - intros _.
    destruct (Z.compare_spec y z) as [->|Hyz|Hyz]; try discriminate.
    + intros _. rewrite (proj2 (Z.compare_lt_iff x z)) by lia. reflexivity.
    + intros _. rewrite (proj2 (Z.compare_lt_iff x z)) by lia. reflexivity.
Qed.

(** *** The map *)

Lemma get_In (m : store) (key : text) (v : Entry.t) :
  get m key = Some v -> In (key, v) m.
Proof.
  induction m as [|[k w] rest IH]; cbn [get]; [discriminate|].
  destruct (textEq key k) eqn:E.
  - apply textEq_true in E; subst k. intros [= ->]. left; reflexivity.
  - intros H; right; apply IH; exact H.
Qed.

Lemma get_add_same (m : store) (key : text) (v : Entry.t) :
  get (add m key v) key = Some v.
Proof.
  induction m as [|[k w] rest IH]; cbn [add get].
  - rewrite textEq_refl; reflexivity.
  - destruct (compareText key k) eqn:E; cbn [get].
    + rewrite textEq_refl; reflexivity.
    + rewrite textEq_refl; reflexivity.
    + destruct (textEq key k) eqn:E'; [|exact IH].
      apply textEq_true in E'; subst k.
      rewrite (proj2 (compareText_eq key key) eq_refl) in E. discriminate.
Qed.

Lemma get_add_other (m : store) (key : text) (v : Entry.t) (key' : text) :
  key' <> key -> get (add m key v) key' = get m key'.
Proof.
  intros Hne. apply textEq_false in Hne.
  induction m as [|[k w] rest IH]; cbn [add get].
  - rewrite Hne; reflexivity.
  - destruct (compareText key k) eqn:E; cbn [get].
    + apply compareText_eq in E; subst k. rewrite Hne. reflexivity.
    + rewrite Hne. reflexivity.
    + rewrite IH. reflexivity.
Qed.

Lemma get_remove_same (m : store) (key : text) : get (remove m key) key = None.
Proof.
  induction m as [|[k w] rest IH]; cbn [remove get]; [reflexivity|].
  destruct (textEq key k) eqn:E; [exact IH|].
  cbn [get]. rewrite E. exact IH.
Qed.

Lemma get_remove_other (m : store) (key key' : text) :
  key' <> key -> get (remove m key) key' = get m key'.
Proof.
  intros Hne.
  induction m as [|[k w] rest IH]; cbn [remove get]; [reflexivity|].
  destruct (textEq key k) eqn:E.
  - apply textEq_true in E; subst k.
    apply textEq_false in Hne. rewrite Hne. exact IH.
  - cbn [get]. rewrite IH. reflexivity.
Qed.

Lemma add_In (m : store) (key : text) (v : Entry.t) (kv : text * Entry.t) :
  In kv (add m key v) -> kv = (key, v) \/ In kv m.
Proof.
  induction m as [|[k w] rest IH]; cbn [add In]; [intuition|].
  destruct (compareText key k); cbn [In]; intuition.
Qed.

Lemma remove_In (m : store) (key : text) (kv : text * Entry.t) :
  In kv (remove m key) -> In kv m.
Proof.
  induction m as [|[k w] rest IH]; cbn [remove In]; [tauto|].
  destruct (textEq key k); cbn [In]; intuition.
Qed.

Lemma add_sorted (m : store) (key : text) (v : Entry.t) :
  StronglySorted keyLt m -> StronglySorted keyLt (add m key v).
Proof.
  induction 1 as [|[k w] rest Hs IH Hk]; cbn [add].
  - repeat constructor.
  - destruct (compareText key k) eqn:E.
    + apply compareText_eq in E; subst k.
      constructor; [exact Hs|exact Hk].
    + constructor; [constructor; assumption|].
      constructor; [exact E|].
      rewrite Forall_forall in *. intros kv Hkv.
      apply (compareText_trans _ k); [exact E|apply Hk; exact Hkv].
    + constructor; [exact IH|].
      rewrite Forall_forall in *. intros kv Hkv.
      apply add_In in Hkv. destruct Hkv as [->|Hkv]; [|apply Hk; exact Hkv].
      unfold keyLt; cbn [fst]. rewrite compareText_opp, E. reflexivity.
Qed.

Lemma remove_sorted (m : store) (key : text) :
  StronglySorted keyLt m -> StronglySorted keyLt (remove m key).
Proof.
  induction 1 as [|[k w] rest Hs IH Hk]; cbn [remove]; [constructor|].
  destruct (textEq key k); [exact IH|].
  constructor; [exact IH|].
  rewrite Forall_forall in *. intros kv Hkv. apply Hk.
  apply remove_In in Hkv; exact Hkv.
Qed.

(** *** The checks *)

Lemma trimStartChar_blank (t : text) :
  notBlank t = false -> trimStartChar 32 t = [].
Proof.
  induction t as [|x rest IH]; cbn [notBlank existsb trimStartChar];
    [reflexivity|].
  destruct (x =? 32); cbn [negb orb]; [exact IH|discriminate].
Qed.

Lemma trimChar_blank (t : text) : notBlank t = false -> trimChar 32 t = [].
Proof.
  intros H. unfold trimChar, trimEndChar.
  rewrite (trimStartChar_blank t H). reflexivity.
Qed.

Lemma trimmed_notBlank (t : text) :
  textEq (trimChar 32 t) [] = false -> notBlank t = true.
Proof.
  intros H. destruct (notBlank t) eqn:E; [reflexivity|].
  rewrite (trimChar_blank t E), textEq_refl in H. discriminate.
Qed.

Lemma checkFields_None (input : EntryInput.t) :
  checkFields input = None ->
  notBlank (EntryInput.manualDate input) = true
  /\ notBlank (EntryInput.customerName input) = true
  /\ notBlank (EntryInput.mobileNumber input) = true
  /\ (0 < EntryInput.amountRs input)%N.
Proof.
  unfold checkFields.
  destruct (textEq (trimChar 32 (EntryInput.manualDate input)) []) eqn:E1;
    [discriminate|].
  destruct (textEq (trimChar 32 (EntryInput.customerName input)) []) eqn:E2;
    [discriminate|].
  destruct (textEq (trimChar 32 (EntryInput.mobileNumber input)) []) eqn:E3;
    [discriminate|].
  destruct (EntryInput.amountRs input =? 0)%N eqn:E4; [discriminate|].
  intros _. apply N.eqb_neq in E4.
  repeat split; try (apply trimmed_notBlank; assumption). lia.
Qed.

(** *** What the calls keep *)

Lemma add_wellStored (m : store) (key : text) (v : Entry.t) :
  wellStored (key, v) -> Forall wellStored m -> Forall wellStored (add m key v).
Proof.
  intros Hv Hm. rewrite Forall_forall in *. intros kv Hkv.
  apply add_In in Hkv. destruct Hkv as [->|Hkv]; [exact Hv|apply Hm; exact Hkv].
Qed.

Lemma step_invariant (m : store) (c : call) : invariant m -> invariant (step m c).
Proof.
  intros [Hs Hw]. destruct c as [ac caller now input|ac caller id fields|ac caller id];
    cbn [step].
  - unfold createEntry.
    destruct (negb (hasPermission ac caller)); [split; assumption|].
    destruct (checkFields input) eqn:E; cbn [entriesAfter]; [split; assumption|].
    apply checkFields_None in E. destruct E as (E1 & E2 & E3 & E4).
    cbn [Entry.id]. split; [apply add_sorted; exact Hs|].
    apply add_wellStored; [|exact Hw].
    unfold wellStored; cbn [fst snd Entry.id Entry.manualDate Entry.customerName
      Entry.mobileNumber Entry.amountRs Entry.owner].
    repeat split; try assumption. discriminate.
  - unfold updateEntry.
    destruct (negb (hasPermission ac caller)); [split; assumption|].
    destruct (get m id) as [orig|] eqn:G; cbn [entriesAfter]; [|split; assumption].
    destruct (ownerIsNot _ _ && _); cbn [entriesAfter]; [split; assumption|].
    destruct (checkFields fields) eqn:E; cbn [entriesAfter]; [split; assumption|].
    apply checkFields_None in E. destruct E as (E1 & E2 & E3 & E4).
    split; [apply add_sorted; exact Hs|].
    apply add_wellStored; [|exact Hw].
    apply get_In in G. rewrite Forall_forall in Hw. specialize (Hw _ G).
    destruct Hw as (W1 & _ & _ & _ & _ & W6). cbn [fst snd] in W1, W6.
    unfold wellStored; cbn [fst snd Entry.id Entry.manualDate Entry.customerName
      Entry.mobileNumber Entry.amountRs Entry.owner].
    repeat split; assumption.
  - unfold deleteEntry.
    destruct (negb (hasPermission ac caller)); [split; assumption|].
    destruct (get m id) as [orig|] eqn:G; cbn [entriesAfter]; [|split; assumption].
    destruct (ownerIsNot _ _ && _); cbn [entriesAfter]; [split; assumption|].
    split; [apply remove_sorted; exact Hs|].
    rewrite Forall_forall in *. intros kv Hkv. apply Hw.
    apply remove_In in Hkv; exact Hkv.
Qed.

Lemma fold_step_invariant (calls : list call) :
  forall m, invariant m -> invariant (fold_left step calls m).
Proof.
  induction calls as [|c rest IH]; intros m H; cbn [fold_left]; [exact H|].
  apply IH, step_invariant, H.
Qed.

Lemma run_invariant (calls : list call) : invariant (run calls).
Proof.
  apply fold_step_invariant. split; constructor.
Qed.



(** *** Who changes an entry *)

(** X15.  If a call leaves something else under an id than the entry
    that was stored there, the caller has the user permission and the call
    is either an update or a deletion of that id by the owner of the entry
    or an administrator, or a creation under that id: by any user, the
    owner or not. *)
Theorem canister_entry_changed_only_by (entries : store) (c : call)
    (key : text) (entry : Entry.t) :
  get entries key = Some entry ->
  get (step entries c) key <> Some entry ->
  mayChange c key entry = true.
Proof.
  intros Hget Hchanged.
  destruct c as [ac caller now input|ac caller id fields|ac caller id];
    cbn [step mayChange] in *.
  - unfold createEntry in Hchanged.
    destruct (hasPermission ac caller); cbn [negb entriesAfter] in Hchanged;
      [|contradiction].
    destruct (checkFields input); cbn [entriesAfter Entry.id] in Hchanged;
      [contradiction|].
    destruct (textEq (EntryInput.id input) key) eqn:E; [reflexivity|].
    apply textEq_false in E.
    rewrite get_add_other in Hchanged by congruence. contradiction.
  - unfold updateEntry in Hchanged.
    destruct (hasPermission ac caller); cbn [negb entriesAfter] in Hchanged;
      [|contradiction].
    destruct (textEq id key) eqn:E.
    + apply textEq_true in E; subst id. rewrite Hget in Hchanged.
      destruct (ownerIsNot (Entry.owner entry) caller);
        destruct (isAdmin ac caller); cbn [negb andb orb] in *;
        try reflexivity.
      cbn [entriesAfter] in Hchanged. contradiction.
    + apply textEq_false in E.
      destruct (get entries id) as [orig|]; cbn [entriesAfter] in Hchanged;
        [|contradiction].
      destruct (ownerIsNot _ _ && _); cbn [entriesAfter] in Hchanged;
        [contradiction|].
      destruct (checkFields fields); cbn [entriesAfter] in Hchanged;
        [contradiction|].
      rewrite get_add_other in Hchanged by congruence. contradiction.
  - unfold deleteEntry in Hchanged.
    destruct (hasPermission ac caller); cbn [negb entriesAfter] in Hchanged;
      [|contradiction].
    destruct (textEq id key) eqn:E.
    + apply textEq_true in E; subst id. rewrite Hget in Hchanged.
      destruct (ownerIsNot (Entry.owner entry) caller);
        destruct (isAdmin ac caller); cbn [negb andb orb] in *;
        try reflexivity.
      cbn [entriesAfter] in Hchanged. contradiction.
    + apply textEq_false in E.
      destruct (get entries id) as [orig|]; cbn [entriesAfter] in Hchanged;
        [|contradiction].
      destruct (ownerIsNot _ _ && _); cbn [entriesAfter] in Hchanged;
        [contradiction|].
      rewrite get_remove_other in Hchanged by congruence. contradiction.
Qed.

(** A second user creates an entry under the id of the first user's. *)
Lemma canister_entry_changed_only_by_witness :
  mayChange (CreateEntry usersOnly [2] 2000 firstInput)
            (EntryInput.id firstInput)
            (Entry.mk (js "1700000000000-abc") (js "2024-03-10")
                      (js "Jane Doe") (js "1234567890") 500 1000 (Some [1]))
  = true.
Proof.
  apply (canister_entry_changed_only_by
           (run [CreateEntry usersOnly [1] 1000 firstInput])).
  - reflexivity.
  - intros H; vm_compute in H; discriminate H.
Defined.

(** *** What a successful call stores *)

(** X16.  When [createEntry] reports no error, the entry made of the
    input, the time of the call and the caller as owner is what is stored
    under the id of the input, in place of whatever was stored there
    before; what is stored under any other id is as before. *)
Theorem canister_createEntry_stores (ac : AccessControl)
    (entries entries' : store) (caller : principal) (now : Z)
    (input : EntryInput.t) :
  createEntry ac entries caller now input = Return None entries' ->
  get entries' (EntryInput.id input)
  = Some (Entry.mk (EntryInput.id input) (EntryInput.manualDate input)
                   (EntryInput.customerName input)
                   (EntryInput.mobileNumber input)
                   (EntryInput.amountRs input) now (Some caller))
  /\ forall key, key <> EntryInput.id input -> get entries' key = get entries key.
Proof.
  unfold createEntry.
  destruct (negb (hasPermission ac caller)); [discriminate|].
  destruct (checkFields input); [discriminate|].
  cbn [Entry.id]. intros [= <-]. split.
  - apply get_add_same.
  - intros key Hne. apply get_add_other; exact Hne.
Qed.

Lemma canister_createEntry_stores_witness :
  get (step [] (CreateEntry usersOnly [1] 1000 firstInput))
      (EntryInput.id firstInput)
  = Some (Entry.mk (EntryInput.id firstInput)
                   (EntryInput.manualDate firstInput)
                   (EntryInput.customerName firstInput)
                   (EntryInput.mobileNumber firstInput)
                   (EntryInput.amountRs firstInput) 1000 (Some [1]))
  /\ forall key,
       key <> EntryInput.id firstInput ->
       get (step [] (CreateEntry usersOnly [1] 1000 firstInput)) key
       = get [] key.
Proof.
  apply (canister_createEntry_stores usersOnly [] _ [1] 1000 firstInput).
  reflexivity.
Defined.

(** X17.  When [updateEntry] reports no error, after whatever calls
    came before, the entry stored under the id has the date, name, mobile
    number and amount of the update and keeps its id, its creation time
    and its owner: the id written in the update is not looked at.  What is
    stored under any other id is as before. *)
Theorem canister_updateEntry_keeps (ac : AccessControl) (calls : list call)
    (entries' : store) (caller : principal) (id : text)
    (updatedFields : EntryInput.t) :
  updateEntry ac (run calls) caller id updatedFields = Return None entries' ->
  exists original,
    get (run calls) id = Some original
    /\ get entries' id
       = Some (Entry.mk id (EntryInput.manualDate updatedFields)
                        (EntryInput.customerName updatedFields)
                        (EntryInput.mobileNumber updatedFields)
                        (EntryInput.amountRs updatedFields)
                        (Entry.createdAt original) (Entry.owner original))
    /\ forall key, key <> id -> get entries' key = get (run calls) key.
Proof.
  unfold updateEntry.
  destruct (negb (hasPermission ac caller)); [discriminate|].
  destruct (get (run calls) id) as [original|] eqn:G; [|discriminate].
  destruct (ownerIsNot _ _ && _); [discriminate|].
  destruct (checkFields updatedFields); [discriminate|].
  intros [= <-]. exists original. split; [reflexivity|].
  destruct (run_invariant calls) as [_ Hw].
  rewrite Forall_forall in Hw. specialize (Hw _ (get_In _ _ _ G)).
  destruct Hw as (Hid & _). cbn [fst snd] in Hid. rewrite Hid.
  split.
  - apply get_add_same.
  - intros key Hne. apply get_add_other; exact Hne.
Qed.

Lemma canister_updateEntry_keeps_witness :
  exists original,
    get (run [CreateEntry usersOnly [1] 1000 firstInput])
        (EntryInput.id firstInput)
    = Some original
    /\ get (run [CreateEntry usersOnly [1] 1000 firstInput;
                 UpdateEntry usersOnly [1] (EntryInput.id firstInput)
                   secondInput])
           (EntryInput.id firstInput)
       = Some (Entry.mk (EntryInput.id firstInput)
                        (EntryInput.manualDate secondInput)
                        (EntryInput.customerName secondInput)
                        (EntryInput.mobileNumber secondInput)
                        (EntryInput.amountRs secondInput)
                        (Entry.createdAt original) (Entry.owner original))
    /\ forall key,
         key <> EntryInput.id firstInput ->
         get (run [CreateEntry usersOnly [1] 1000 firstInput;
                   UpdateEntry usersOnly [1] (EntryInput.id firstInput)
                     secondInput]) key
         = get (run [CreateEntry usersOnly [1] 1000 firstInput]) key.
Proof.
  apply (canister_updateEntry_keeps usersOnly
           [CreateEntry usersOnly [1] 1000 firstInput] _ [1]
           (EntryInput.id firstInput) secondInput).
  reflexivity.
Defined.

(** X18.  When [deleteEntry] reports no error, an entry was stored
    under the id and none is afterwards; what is stored under any other id
    is as before. *)
Theorem canister_deleteEntry_removes (ac : AccessControl)
    (entries entries' : store) (caller : principal) (id : text) :
  deleteEntry ac entries caller id = Return None entries' ->
  get entries id <> None
  /\ get entries' id = None
  /\ forall key, key <> id -> get entries' key = get entries key.
Proof.
  unfold deleteEntry.
  destruct (negb (hasPermission ac caller)); [discriminate|].
  destruct (get entries id) as [entry|] eqn:G; [|discriminate].
  destruct (ownerIsNot _ _ && _); [discriminate|].
  intros [= <-]. split; [discriminate|]. split.
  - apply get_remove_same.
  - intros key Hne. apply get_remove_other; exact Hne.
Qed.

Lemma canister_deleteEntry_removes_witness :
  get (run [CreateEntry usersOnly [1] 1000 firstInput])
      (EntryInput.id firstInput) <> None
  /\ get (run [CreateEntry usersOnly [1] 1000 firstInput;
               DeleteEntry usersOnly [1] (EntryInput.id firstInput)])
         (EntryInput.id firstInput)
     = None
  /\ forall key,
       key <> EntryInput.id firstInput ->
       get (run [CreateEntry usersOnly [1] 1000 firstInput;
                 DeleteEntry usersOnly [1] (EntryInput.id firstInput)]) key
       = get (run [CreateEntry usersOnly [1] 1000 firstInput]) key.
Proof.
  apply (canister_deleteEntry_removes usersOnly
           (run [CreateEntry usersOnly [1] 1000 firstInput]) _ [1]
           (EntryInput.id firstInput)).
  reflexivity.
Defined.

(** *** The listing *)

Lemma insertOrdered_perm {A} (compare : A -> A -> comparison) (x : A)
    (l : list A) :
  Permutation (x :: l) (insertOrdered compare x l).
Proof.
  induction l as [|y rest IH]; cbn [insertOrdered]; [reflexivity|].
  destruct (compare x y); try reflexivity.
  rewrite perm_swap. constructor. exact IH.
Qed.

Lemma sortOrdered_perm {A} (compare : A -> A -> comparison) (l : list A) :
  Permutation l (sortOrdered compare l).
Proof.
  induction l as [|x rest IH]; cbn [sortOrdered]; [reflexivity|].
  rewrite <- insertOrdered_perm. constructor. exact IH.
Qed.

Lemma insertOrdered_newest_first (x : Entry.t) (l : list Entry.t) :
  StronglySorted newerOrSame l ->
  StronglySorted newerOrSame (insertOrdered compareByCreatedAtNewestFirst x l).
Proof.
  induction 1 as [|y rest Hs IH Hy]; cbn [insertOrdered].
  - repeat constructor.
  - unfold compareByCreatedAtNewestFirst at 1.
    destruct (Z.compare_spec (Entry.createdAt y) (Entry.createdAt x))
      as [E|E|E].
    + constructor; [constructor; assumption|].
      constructor; [unfold newerOrSame; lia|].
      rewrite Forall_forall in *. intros z Hz. specialize (Hy z Hz).
      unfold newerOrSame in *; lia.
    + constructor; [constructor; assumption|].
      constructor; [unfold newerOrSame; lia|].
      rewrite Forall_forall in *. intros z Hz. specialize (Hy z Hz).
      unfold newerOrSame in *; lia.
    + constructor; [exact IH|].
      rewrite Forall_forall in *. intros z Hz.
      apply (Permutation_in _
               (Permutation_sym (insertOrdered_perm _ x rest))) in Hz.
      destruct Hz as [<-|Hz]; [unfold newerOrSame; lia|apply Hy; exact Hz].
Qed.

Lemma sortOrdered_newest_first (l : list Entry.t) :
  StronglySorted newerOrSame (sortOrdered compareByCreatedAtNewestFirst l).
Proof.
  induction l as [|x rest IH]; cbn [sortOrdered]; [constructor|].
  apply insertOrdered_newest_first; exact IH.
Qed.

(** X19.  For a caller with the user permission the listing returns
    every stored entry once, whoever owns it, ordered so that no entry
    comes before one created later; it changes nothing. *)
Theorem canister_listing_newest_first (ac : AccessControl) (entries : store)
    (caller : principal) :
  hasPermission ac caller = true ->
  exists listed,
    listEntriesNewestFirst ac entries caller = Return listed entries
    /\ Permutation (map snd entries) listed
    /\ StronglySorted newerOrSame listed.
Proof.
  intros H. unfold listEntriesNewestFirst. rewrite H. cbn [negb].
  eexists; split; [reflexivity|]. split.
  - apply sortOrdered_perm.
  - apply sortOrdered_newest_first.
Qed.

Lemma canister_listing_newest_first_witness :
  exists listed,
    listEntriesNewestFirst usersOnly
      (run [CreateEntry usersOnly [1] 1000 firstInput]) [2]
    = Return listed (run [CreateEntry usersOnly [1] 1000 firstInput])
    /\ Permutation
         (map snd (run [CreateEntry usersOnly [1] 1000 firstInput])) listed
    /\ StronglySorted newerOrSame listed.
Proof.
  apply (canister_listing_newest_first usersOnly
           (run [CreateEntry usersOnly [1] 1000 firstInput]) [2]).
  reflexivity.
Defined.

End CanisterFacts.

(** ** Authorization errors and the mutations *)

Lemma startsWith_app (p rest : jsstring) : startsWith p (p ++ rest) = true.
Proof.
  unfold startsWith.
  rewrite firstn_app, Nat.sub_diag, firstn_all, firstn_O, app_nil_r.
  apply jseq_true_iff; reflexivity.
Qed.

Lemma startsWith_split (p s : jsstring) :
  startsWith p s = true -> s = p ++ skipn (List.length p) s.
Proof.
  unfold startsWith. intros H. apply jseq_true_iff in H.
  rewrite <- H at 1. symmetry. apply firstn_skipn.
Qed.

Lemma includesString_app (p pre post : jsstring) :
  includesString p (pre ++ p ++ post) = true.
Proof.
  induction pre as [|c pre IH].
  - cbn [app]. destruct (p ++ post) eqn:E; cbn [includesString];
      rewrite <- E, startsWith_app; reflexivity.
  - cbn [app includesString]. rewrite IH. apply orb_true_r.
Qed.

Lemma includesString_split (p s : jsstring) :
  includesString p s = true -> exists pre post, s = pre ++ p ++ post.
Proof.
  induction s as [|c s IH]; cbn [includesString]; intros H;
    apply orb_prop in H; destruct H as [H|H]; try discriminate H.
  - exists [], (skipn (List.length p) []). apply startsWith_split; exact H.
  - exists [], (skipn (List.length p) (c :: s)). apply startsWith_split; exact H.
  - destruct (IH H) as (pre & post & ->). exists (c :: pre), post. reflexivity.
Qed.

Lemma toLowerCase_app (a b : jsstring) :
  toLowerCase (a ++ b) = toLowerCase a ++ toLowerCase b.
Proof. apply map_app. Qed.

(** A rejection that quotes a text starting with Unauthorized is an
    authorization error. *)
Lemma quoted_trap_is_authorization (m rejection : jsstring) :
  startsWith (js "Unauthorized") m = true ->
  includesString m rejection = true ->
  isAuthorizationError (Some rejection) = true.
Proof.
  intros Hm Hin.
  apply includesString_split in Hin. destruct Hin as (pre & post & ->).
  apply startsWith_split in Hm. rewrite Hm.
  cbn [isAuthorizationError].
  rewrite !toLowerCase_app, <- app_assoc.
  change (toLowerCase (js "Unauthorized")) with (js "unauthorized").
  apply includesString_app.
Qed.

Section MutationFacts.

Import Canister.

Lemma checkFields_messages (input : Canister.EntryInput.t) (err : EntryError) :
  checkFields input = Some err ->
  (exists field message,
     err = emptyField field message
     /\ isAuthorizationError (@Some jsstring message) = false)
  \/ (exists message,
        err = invalidAmount message
        /\ isAuthorizationError (@Some jsstring message) = false).
Proof.
  unfold checkFields.
  repeat match goal with
         | |- context [if ?c then _ else _] => destruct c
         end; intros [= <-]; [left|left|left|right];
    repeat eexists; vm_compute; reflexivity.
Qed.

(** X20.  An error that the canister returns reaches the user with the
    message the canister gave it, with one exception: when an update or a
    deletion is refused because the caller does not own the entry, the
    message is replaced by the prompt to sign in. *)
Theorem mutation_shows_canister_message
    (ac : AccessControl) (entries entries' : store) (caller : principal)
    (now : Z) (id : text) (input : Canister.EntryInput.t) (err : EntryError) :
  let messageOf e :=
    match e with
    | emptyField _ m | invalidAmount m | notFound m | unauthorized m => m
    end in
  (createEntry ac entries caller now input = Return (Some err) entries' ->
   createEntryAttempt (Await.Fulfilled (Some err)) = Throw (messageOf err))
  /\ (updateEntry ac entries caller id input = Return (Some err) entries' ->
      updateEntryAttempt (Await.Fulfilled (Some err))
      = Throw match err with
              | unauthorized _ => getUpdateEntryAuthMessage
              | _ => messageOf err
              end)
  /\ (deleteEntry ac entries caller id = Return (Some err) entries' ->
      deleteEntryAttempt (Await.Fulfilled (Some err))
      = Throw match err with
              | unauthorized _ => getDeleteEntryAuthMessage
              | _ => messageOf err
              end).
Proof.
  cbv zeta. split; [|split].
  - unfold createEntry.
    destruct (negb (hasPermission ac caller)); [discriminate|].
    destruct (checkFields input) as [e|] eqn:E; [|discriminate].
    intros [= -> _].
    destruct (checkFields_messages _ _ E)
      as [(f & m & -> & Hm)|(m & -> & Hm)];
      cbv beta iota delta [createEntryAttempt catchAuthorization];
      rewrite Hm; reflexivity.
  - unfold updateEntry.
    destruct (negb (hasPermission ac caller)); [discriminate|].
    destruct (get entries id) as [orig|]; [|intros [= <- _]; reflexivity].
    destruct (ownerIsNot _ _ && _); [intros [= <- _]; reflexivity|].
    destruct (checkFields input) as [e|] eqn:E; [|discriminate].
    intros [= -> _].
    destruct (checkFields_messages _ _ E)
      as [(f & m & -> & Hm)|(m & -> & Hm)];
      cbv beta iota delta [updateEntryAttempt catchAuthorization];
      rewrite Hm; reflexivity.
  - unfold deleteEntry.
    destruct (negb (hasPermission ac caller)); [discriminate|].
    destruct (get entries id) as [orig|]; [|intros [= <- _]; reflexivity].
    destruct (ownerIsNot _ _ && _); [intros [= <- _]; reflexivity|].
    discriminate.
Qed.

(** X21.  The canister traps only for a caller without the user
    permission.  When it does and the rejection that the agent raises
    quotes the text of the trap, the mutations throw the prompt to sign in
    and the listing is not tried again. *)
Theorem trap_shows_sign_in_prompt
    (ac : AccessControl) (entries : store) (caller : principal)
    (now : Z) (id : text) (input : Canister.EntryInput.t)
    (failureCount : Z) (trap rejection : jsstring) :
  includesString trap rejection = true ->
  (createEntry ac entries caller now input = Trap trap ->
   hasPermission ac caller = false
   /\ createEntryAttempt (Await.Rejected rejection) = Throw getCreateEntryAuthMessage)
  /\ (updateEntry ac entries caller id input = Trap trap ->
      hasPermission ac caller = false
      /\ updateEntryAttempt (Await.Rejected rejection)
         = Throw getUpdateEntryAuthMessage)
  /\ (deleteEntry ac entries caller id = Trap trap ->
      hasPermission ac caller = false
      /\ deleteEntryAttempt (Await.Rejected rejection)
         = Throw getDeleteEntryAuthMessage)
  /\ (listEntriesNewestFirst ac entries caller = Trap trap ->
      hasPermission ac caller = false
      /\ retryListEntries failureCount (Some rejection) = false).
Proof.
  intros Hq.
  repeat split.
  - unfold createEntry in H.
    destruct (hasPermission ac caller); [|reflexivity].
    cbn [negb] in H. destruct (checkFields input); discriminate H.
  - unfold createEntry in H.
    destruct (hasPermission ac caller); cbn [negb] in H.
    + destruct (checkFields input); discriminate H.
    + injection H as H. unfold createEntryAttempt, catchAuthorization.
      subst trap.
      rewrite (fun Hs => quoted_trap_is_authorization _ rejection Hs Hq)
        by reflexivity.
      reflexivity.
  - unfold updateEntry in H.
    destruct (hasPermission ac caller); [|reflexivity].
    cbn [negb] in H. destruct (get entries id); [|discriminate H].
    destruct (ownerIsNot _ _ && _); [discriminate H|].
    destruct (checkFields input); discriminate H.
  - unfold updateEntry in H.
    destruct (hasPermission ac caller); cbn [negb] in H.
    + destruct (get entries id); [|discriminate H].
      destruct (ownerIsNot _ _ && _); [discriminate H|].
      destruct (checkFields input); discriminate H.
    + injection H as H. unfold updateEntryAttempt, catchAuthorization.
      subst trap.
      rewrite (fun Hs => quoted_trap_is_authorization _ rejection Hs Hq)
        by reflexivity.
      reflexivity.
  - unfold deleteEntry in H.
    destruct (hasPermission ac caller); [|reflexivity].
    cbn [negb] in H. destruct (get entries id); [|discriminate H].
    destruct (ownerIsNot _ _ && _); discriminate H.
  - unfold deleteEntry in H.
    destruct (hasPermission ac caller); cbn [negb] in H.
    + destruct (get entries id); [|discriminate H].
      destruct (ownerIsNot _ _ && _); discriminate H.
    + injection H as H. unfold deleteEntryAttempt, catchAuthorization.
      subst trap.
      rewrite (fun Hs => quoted_trap_is_authorization _ rejection Hs Hq)
        by reflexivity.
      reflexivity.
  - unfold listEntriesNewestFirst in H.
    destruct (hasPermission ac caller); [discriminate H|reflexivity].
  - unfold listEntriesNewestFirst in H.
    destruct (hasPermission ac caller); cbn [negb] in H; [discriminate H|].
    injection H as H. unfold retryListEntries.
    subst trap.
      rewrite (fun Hs => quoted_trap_is_authorization _ rejection Hs Hq)
        by reflexivity.
      reflexivity.
Qed.

Lemma trap_shows_sign_in_prompt_witness :
  hasPermission noUsers [1] = false
  /\ createEntryAttempt (Await.Rejected quotedTrap) = Throw getCreateEntryAuthMessage.
Proof.
  apply (trap_shows_sign_in_prompt noUsers [] [1] 1000 [] firstInput 0
           (js "Unauthorized: Only users can create entries") quotedTrap).
  - reflexivity.
  - reflexivity.
Defined.

End MutationFacts.
(** ** The amount that a mutation sends *)

Lemma toDouble_integer (n : Z) :
  0 <= n < 2 ^ 53 -> option_map floorOf (toDouble n 1) = Some n.
Proof.
  intros Hn. unfold toDouble.
  destruct (n =? 0) eqn:E0.
  - apply Z.eqb_eq in E0; subst n. reflexivity.
  - apply Z.eqb_neq in E0.
    assert (0 < n) as Hpos by lia.
    pose proof (Z.log2_spec n Hpos) as [Hlo Hhi].
    pose proof (Z.log2_nonneg n) as Hl0.
    assert (Z.log2 n < 53) as Hl53 by (apply Z.log2_lt_pow2; lia).
    assert (binaryExponent n 1 = Z.log2 n) as ->.
    { unfold binaryExponent, scaled.
      change (Z.log2 1) with 0. rewrite Z.sub_0_r.
      rewrite (proj2 (Z.leb_le 0 (Z.log2 n))) by lia.
      rewrite (proj2 (Z.ltb_ge n (1 * 2 ^ Z.log2 n))) by lia.
      reflexivity. }
    rewrite Z.max_l by lia.
    set (e := Z.log2 n - 52).
    assert (e <= 0) as He by (unfold e; lia).
    unfold scaled.
    destruct (0 <=? e) eqn:Ee.
    + apply Z.leb_le in Ee. assert (e = 0) as -> by lia.
      change (1 * 2 ^ 0) with 1.
      assert (roundHalfEven n 1 = n) as ->.
      { unfold roundHalfEven. rewrite Z.div_1_r, Z.mod_1_r. reflexivity. }
      cbn [orb andb Z.ltb Z.eqb Z.compare option_map floorOf Z.leb].
      rewrite Z.mul_1_r. reflexivity.
    + pose proof Ee as Eb. apply Z.leb_gt in Ee.
      assert (roundHalfEven (n * 2 ^ (- e)) 1 = n * 2 ^ (- e)) as ->.
      { unfold roundHalfEven. rewrite Z.div_1_r, Z.mod_1_r. reflexivity. }
      rewrite (proj2 (Z.ltb_ge 971 e)) by lia.
      rewrite (proj2 (Z.eqb_neq e 971)) by lia.
      cbn [orb andb option_map floorOf]. rewrite Eb.
      rewrite Z.div_mul; [reflexivity|].
      apply Z.pow_nonzero; lia.
Qed.

Section AmountFacts.

Variable notAnInteger : number -> jsstring.

Lemma toBigIntFloor_decimal (n : Z) :
  0 <= n < 2 ^ 53 ->
  toBigIntFloor notAnInteger (parseFloat (numberToString n)) = Normal n.
Proof.
  intros Hn.
  assert (parseFloat (numberToString n) = Decimal false n 0) as ->.
  { destruct n as [|p|p]; [reflexivity| |lia].
    destruct (numberToString_pos p) as (c & r & -> & Hd & Hv & _).
    destruct (parseFloat_digits c r Hd) as (-> & _). rewrite Hv. reflexivity. }
  unfold toBigIntFloor, fractionOf.
  cbn [Z.leb Z.compare]. change (10 ^ 0) with 1. rewrite Z.mul_1_r.
  pose proof (toDouble_integer n Hn) as H.
  destruct (toDouble n 1) as [me|]; [|discriminate H].
  cbn [option_map] in H. injection H as ->. reflexivity.
Qed.

(** X22.  An amount below 2^53 that is written in decimal without a
    sign or a fraction, as the edit dialog writes the amount of the entry
    it opens and an export writes it into the file, is the amount that the
    create and the update mutation hand to the actor: the passage through
    [parseFloat], [Math.floor] and [BigInt] changes nothing. *)
Theorem mutation_sends_decimal_amount (actor : Actor.t) (id : jsstring)
    (fields : ParsedRow) (n : Z) :
  0 <= n < 2 ^ 53 ->
  amountRs fields = numberToString n ->
  createEntryMutationFn notAnInteger (Some actor) id fields
  = createEntryAttempt
      (Actor.createEntry actor
         (EntryInput.mk id (manualDate fields) (customerName fields)
                        (mobileNumber fields) n))
  /\ updateEntryMutationFn notAnInteger (Some actor)
       (mkUpdateEntryInput id fields)
     = updateEntryAttempt
         (Actor.updateEntry actor id
            (EntryInput.mk id (manualDate fields) (customerName fields)
                           (mobileNumber fields) n)).
Proof.
  intros Hn Ha.
  unfold createEntryMutationFn, updateEntryMutationFn.
  cbn [updateFields updateId].
  rewrite Ha, (toBigIntFloor_decimal n Hn). split; reflexivity.
Qed.

Lemma roundHalfEven_nonneg (p q : Z) : 0 <= p -> 0 < q -> 0 <= roundHalfEven p q.
Proof.
  intros Hp Hq. unfold roundHalfEven.
  pose proof (Z.div_pos p q Hp Hq).
  repeat match goal with
         | |- context [if ?c then _ else _] => destruct c
         end; lia.
Qed.

Lemma toDouble_nonneg (p q m e : Z) :
  0 <= p -> 0 < q -> toDouble p q = Some (m, e) -> 0 <= m.
Proof.
  intros Hp Hq. unfold toDouble.
  destruct (p =? 0); [intros [= <- _]; lia|].
  unfold scaled.
  set (ex := Z.max _ _).
  destruct (0 <=? ex) eqn:E.
  - apply Z.leb_le in E.
    destruct (_ || _); [discriminate|]. intros [= <- _].
    apply roundHalfEven_nonneg; [exact Hp|].
    apply Z.mul_pos_pos; [exact Hq|]. apply Z.pow_pos_nonneg; lia.
  - apply Z.leb_gt in E.
    destruct (_ || _); [discriminate|]. intros [= <- _].
    apply roundHalfEven_nonneg; [|exact Hq].
    apply Z.mul_nonneg_nonneg; [exact Hp|]. apply Z.pow_nonneg; lia.
Qed.

Lemma floorOf_nonneg (m e : Z) : 0 <= m -> 0 <= floorOf (m, e).
Proof.
  intros Hm. unfold floorOf. destruct (0 <=? e) eqn:E.
  - apply Z.leb_le in E. apply Z.mul_nonneg_nonneg; [exact Hm|].
    apply Z.pow_nonneg; lia.
  - apply Z.leb_gt in E. apply Z.div_pos; [exact Hm|].
    apply Z.pow_pos_nonneg; lia.
Qed.

Lemma parseFloat_digits_nonneg (s : jsstring) (negative : bool) (d e : Z) :
  parseFloat s = Decimal negative d e -> 0 <= d.
Proof.
  unfold parseFloat.
  destruct (parseSign (trimStart s)) as [neg body].
  destruct (startsWith (js "Infinity") body); [discriminate|].
  pose proof (spanDigits_digits body) as Hip.
  destruct (spanDigits body) as [ip r1]. cbn [fst] in Hip.
  destruct r1 as [|c r2].
  - destruct (falsy ip); [discriminate|]. intros [= _ <- _].
    apply digitsValue_nonneg; exact Hip.
  - destruct (c =? 46).
    + pose proof (spanDigits_digits r2) as Hfp.
      destruct (spanDigits r2) as [fp r3]. cbn [fst] in Hfp.
      destruct (falsy ip && falsy fp); [discriminate|]. intros [= _ <- _].
      apply digitsValue_nonneg. rewrite forallb_app, Hip, Hfp. reflexivity.
    + destruct (falsy ip); [discriminate|]. intros [= _ <- _].
      apply digitsValue_nonneg; exact Hip.
Qed.

(** X23.  For an amount text that [validateAmount] accepts the
    conversion either throws the RangeError, in which case the actor is
    not called and the error is not caught by the mutation, or gives an
    amount that is not negative. *)
Theorem valid_amount_is_sent_nonnegative (value : jsstring) :
  validateAmount value = valid ->
  (exists n, toBigIntFloor notAnInteger (parseFloat value)
             = Throw (notAnInteger n))
  \/ (exists amount,
        toBigIntFloor notAnInteger (parseFloat value) = Normal amount
        /\ 0 <= amount).
Proof.
  rewrite validateAmount_cases.
  destruct (forallb isWhiteSpace value); [discriminate|].
  destruct (parseFloat value) as [|negative|negative d e] eqn:P;
    [discriminate| |].
  - destruct negative; [discriminate|].
    intros _. left. eexists; reflexivity.
  - destruct negative; cbn [orb]; [discriminate|].
    intros _. pose proof (parseFloat_digits_nonneg _ _ _ _ P) as Hd.
    unfold toBigIntFloor.
    destruct (fractionOf d e) as [p q] eqn:F.
    assert (0 <= p /\ 0 < q) as [Hp Hq].
    { unfold fractionOf in F. destruct (0 <=? e) eqn:E; injection F as <- <-.
      - apply Z.leb_le in E. split; [|lia].
        apply Z.mul_nonneg_nonneg; [exact Hd|]. apply Z.pow_nonneg; lia.
      - apply Z.leb_gt in E. split; [exact Hd|].
        apply Z.pow_pos_nonneg; lia. }
    destruct (toDouble p q) as [[m ex]|] eqn:T.
    + right. eexists; split; [reflexivity|].
      apply floorOf_nonneg. apply (toDouble_nonneg p q m ex Hp Hq T).
    + left. eexists; reflexivity.
Qed.

End AmountFacts.

Lemma mutation_sends_decimal_amount_witness :
  createEntryMutationFn (fun _ => js "RangeError") (Some obligingActor)
    (js "1700000000000-abc")
    (mkParsedRow (js "2024-03-10") (js "Jane Doe") (js "1234567890") (js "500"))
  = createEntryAttempt
      (Actor.createEntry obligingActor
         (EntryInput.mk (js "1700000000000-abc") (js "2024-03-10")
                        (js "Jane Doe") (js "1234567890") 500))
  /\ updateEntryMutationFn (fun _ => js "RangeError") (Some obligingActor)
       (mkUpdateEntryInput (js "1700000000000-abc")
          (mkParsedRow (js "2024-03-10") (js "Jane Doe") (js "1234567890")
                       (js "500")))
     = updateEntryAttempt
         (Actor.updateEntry obligingActor (js "1700000000000-abc")
            (EntryInput.mk (js "1700000000000-abc") (js "2024-03-10")
                           (js "Jane Doe") (js "1234567890") 500)).
Proof.
  apply (mutation_sends_decimal_amount (fun _ => js "RangeError")
           obligingActor (js "1700000000000-abc")
           (mkParsedRow (js "2024-03-10") (js "Jane Doe") (js "1234567890")
                        (js "500"))
           500).
  - lia.
  - reflexivity.
Defined.

Lemma valid_amount_is_sent_nonnegative_witness :
  (exists n : number,
     toBigIntFloor (fun _ => js "RangeError") (parseFloat (js "12.75"))
     = Throw ((fun _ => js "RangeError") n))
  \/ (exists amount,
        toBigIntFloor (fun _ => js "RangeError") (parseFloat (js "12.75"))
        = Normal amount
        /\ 0 <= amount).
Proof.
  apply (valid_amount_is_sent_nonnegative (fun _ => js "RangeError")
           (js "12.75")).
  reflexivity.
Defined.

(** ** What becomes of the lines of an import *)

Lemma outcomes_count (fieldMapping : list (option columnTarget))
    (rows : list (Z * jsstring)) :
  (List.length (successesOf fieldMapping rows)
   + List.length (failuresOf fieldMapping rows)
   <= List.length rows)%nat
  /\ (Forall (fun nl => outcomeOf fieldMapping nl <> RowSkipped) rows ->
      (List.length (successesOf fieldMapping rows)
       + List.length (failuresOf fieldMapping rows)
       = List.length rows)%nat).
Proof.
  induction rows as [|nl rows [IHle IHeq]]; [split; reflexivity|].
  unfold successesOf, failuresOf in *. cbn [flat_map].
  rewrite !length_app. cbn [List.length].
  split.
  - destruct (outcomeOf fieldMapping nl); cbn [List.length]; lia.
  - intros H. inversion H as [|? ? Hnl Hrows]; subst.
    specialize (IHeq Hrows).
    destruct (outcomeOf fieldMapping nl); cbn [List.length];
      [contradiction|lia|lia].
Qed.

Lemma assignFields_keeps_true (n : nat) :
  forall j values fieldMapping parsedRow st,
    assignFields n j values fieldMapping parsedRow true = Normal st ->
    snd st = true.
Proof.
  induction n as [|n IH]; intros j values fieldMapping parsedRow st;
    cbn [assignFields].
  - intros [= <-]. reflexivity.
  - destruct (nth_error fieldMapping j) as [[fieldName|]|]; try apply IH.
    destruct (nth_error values j) as [v|]; [apply IH|discriminate].
Qed.

Lemma numberedFrom_length (rest : list jsstring) :
  forall i, List.length (numberedFrom i rest) = List.length rest.
Proof.
  induction rest as [|l rest IH]; intros i; cbn [numberedFrom List.length];
    [reflexivity|].
  rewrite IH; reflexivity.
Qed.

Lemma outcomeOf_first_column (target : columnTarget)
    (mapping : list (option columnTarget)) (n : Z) (l : jsstring) :
  falsy (trim l) = false ->
  outcomeOf (Some target :: mapping) (n, l) <> RowSkipped.
Proof.
  intros Hl. unfold outcomeOf. rewrite Hl. unfold tryRow.
  pose proof (parseCSVLineFrom_length (trim l) [] [] false) as Hlen.
  fold (parseCSVLine (trim l)) in Hlen.
  destruct (parseCSVLine (trim l)) as [|v values] eqn:E;
    [cbn [List.length] in Hlen; lia|].
  cbn [List.length Nat.min assignFields nth_error].
  match goal with
  | |- context [assignFields ?n ?j ?vs ?fm ?p true] =>
      destruct (assignFields n j vs fm p true) as [[parsedRow hasAnyField]|m]
        eqn:A
  end; cbn [bind].
  - apply assignFields_keeps_true in A. cbn [snd] in A. subst hasAnyField.
    cbn [negb]. destruct (validateRow _ n); discriminate.
  - discriminate.
Qed.

(** X24.  The valid rows and the errors of an import are together at
    most as many as the non-blank lines after the header.  When the first
    cell of the header names a column they are exactly as many: each such
    line gives one valid row or one error, and none is passed over in
    silence. *)
Theorem parseXLSXFile_accounts_for_lines (text : jsstring) (r : ImportResult) :
  parseXLSXFile (ReadText text) = Resolved r ->
  (List.length (validRows r) + List.length (errors r)
   <= List.length (fileLines text) - 1)%nat
  /\ (firstColumnRecognised text = true ->
      (List.length (validRows r) + List.length (errors r)
       = List.length (fileLines text) - 1)%nat).
Proof.
  intros H. destruct (resolved_lists text r H) as (header & rest & El & -> & ->).
  unfold firstColumnRecognised. rewrite El. cbn [List.length].
  rewrite !Nat.sub_succ, !Nat.sub_0_r.
  destruct (outcomes_count (headerMapping header) (numberedFrom 1 rest))
    as [Hle Heq].
  rewrite numberedFrom_length in Hle, Heq.
  split; [exact Hle|].
  destruct (headerMapping header) as [|[target|] mapping] eqn:Em;
    try discriminate.
  intros _. apply Heq. apply Forall_forall. intros [n l] Hin.
  apply outcomeOf_first_column.
  apply numberedFrom_In in Hin. destruct Hin as [_ Hnth].
  apply nth_error_In in Hnth.
  assert (In l (fileLines text)) as Hl by (rewrite El; right; exact Hnth).
  unfold fileLines in Hl. apply filter_In in Hl. destruct Hl as [_ Hl].
  apply negb_true_iff in Hl. exact Hl.
Qed.

Lemma parseXLSXFile_accounts_for_lines_witness :
  (1 + 1
   <= List.length
        (fileLines
           (js "Date,Name,Mobile,Amount" ++ lineFeed
            ++ js "2024-01-01,Jane,1234567890,500" ++ lineFeed
            ++ js ",Joe,12,x")) - 1)%nat
  /\ (firstColumnRecognised
        (js "Date,Name,Mobile,Amount" ++ lineFeed
         ++ js "2024-01-01,Jane,1234567890,500" ++ lineFeed
         ++ js ",Joe,12,x") = true ->
      (1 + 1
       = List.length
           (fileLines
              (js "Date,Name,Mobile,Amount" ++ lineFeed
               ++ js "2024-01-01,Jane,1234567890,500" ++ lineFeed
               ++ js ",Joe,12,x")) - 1)%nat).
Proof.
  apply (parseXLSXFile_accounts_for_lines
           (js "Date,Name,Mobile,Amount" ++ lineFeed
            ++ js "2024-01-01,Jane,1234567890,500" ++ lineFeed
            ++ js ",Joe,12,x")
           (mkImportResult
              [mkParsedRow (js "2024-01-01") (js "Jane") (js "1234567890")
                 (js "500")]
              [mkImportError 3 (js "Row 3: Manual Date is required")])).
  reflexivity.
Defined.

(** ** The year first selected *)

Section SelectedYear.

Variable LocalTZA : Z -> bool -> Z.

Lemma getAvailableYears_In (entries : list Backend.Entry) (year : Z) :
  In year (getAvailableYears LocalTZA entries)
  <-> exists e, In e entries /\ inYear LocalTZA year e = true.
Proof.
  rewrite (getAvailableYears_rev LocalTZA unit tt (fun _ _ => tt) (fun _ => tt)).
  rewrite <- in_rev.
  apply (aggregateByYear_spec LocalTZA unit tt (fun _ _ => tt) (fun _ => tt)).
Qed.

Lemma descending_head (x : Z) (l : list Z) :
  StronglySorted Z.ge l -> In x l -> (forall y, In y l -> y <= x) ->
  exists rest, l = x :: rest.
Proof.
  intros Hs Hin Hmax. destruct l as [|h t]; [destruct Hin|].
  exists t. f_equal.
  apply StronglySorted_inv in Hs. destruct Hs as [_ Hh].
  rewrite Forall_forall in Hh.
  pose proof (Hmax h (or_introl eq_refl)).
  destruct Hin as [->|Hin]; [reflexivity|].
  specialize (Hh x Hin). lia.
Qed.

(** X25.  The year first selected for the monthly chart is the current
    year when some entry is dated in it or when no entry has a date that
    parses; otherwise it is the latest year in which an entry is dated,
    unless that year is 0, for which the current year is taken. *)
Theorem initialSelectedYear_cases (entries : list Backend.Entry)
    (currentYear : Z) :
  ((exists e, In e entries /\ inYear LocalTZA currentYear e = true) ->
   initialSelectedYear LocalTZA entries currentYear = currentYear)
  /\ ((forall e year, In e entries -> inYear LocalTZA year e = false) ->
      initialSelectedYear LocalTZA entries currentYear = currentYear)
  /\ (forall latest,
        (forall e, In e entries -> inYear LocalTZA currentYear e = false) ->
        (exists e, In e entries /\ inYear LocalTZA latest e = true) ->
        (forall e year,
           In e entries -> inYear LocalTZA year e = true -> year <= latest) ->
        initialSelectedYear LocalTZA entries currentYear
        = if latest =? 0 then currentYear else latest).
Proof.
  unfold initialSelectedYear. cbv zeta.
  pose proof (getAvailableYears_In entries) as Hmem.
  pose proof (sortBy_descending
                (fold_left
                   (fun years entry =>
                      match getFullYear LocalTZA
                              (parseManualDate LocalTZA
                                 (Backend.manualDate entry)) with
                      | Some year => setAdd years year
                      | None => years
                      end)
                   entries [])) as Hs.
  fold (getAvailableYears LocalTZA entries) in Hs.
  split; [|split].
  - intros He. apply Hmem in He.
    assert (existsb (Z.eqb currentYear) (getAvailableYears LocalTZA entries)
            = true) as ->; [|reflexivity].
    apply existsb_exists. exists currentYear.
    split; [exact He|apply Z.eqb_refl].
  - intros Hnone.
    destruct (getAvailableYears LocalTZA entries) as [|h t];
      [reflexivity|].
    destruct (proj1 (Hmem h) (or_introl eq_refl)) as (e & He & Hy).
    rewrite (Hnone e h He) in Hy. discriminate.
  - intros latest Hcur Hlatest Hmax.
    assert (existsb (Z.eqb currentYear) (getAvailableYears LocalTZA entries)
            = false) as ->.
    { destruct (existsb _ _) eqn:E; [|reflexivity].
      apply existsb_exists in E. destruct E as (y & Hy & Ey).
      apply Z.eqb_eq in Ey; subst y.
      apply Hmem in Hy. destruct Hy as (e & He & Hy).
      rewrite (Hcur e He) in Hy. discriminate. }
    destruct (descending_head latest (getAvailableYears LocalTZA entries) Hs)
      as (rest & ->).
    + apply Hmem; exact Hlatest.
    + intros y Hy. apply Hmem in Hy. destruct Hy as (e & He & Hy).
      apply (Hmax e y He Hy).
    + reflexivity.
Qed.

End SelectedYear.

(** ** The rounding to a double *)

(** [roundHalfEven p q] is an integer nearest to p/q, and the even one
    when two are equally near. *)
Lemma roundHalfEven_nearest (p q : Z) :
  0 < q ->
  2 * Z.abs (p - roundHalfEven p q * q) <= q
  /\ (2 * Z.abs (p - roundHalfEven p q * q) = q ->
      Z.even (roundHalfEven p q) = true).
Proof.
  intros Hq. unfold roundHalfEven.
  pose proof (Z.div_mod p q ltac:(lia)) as Hdm.
  pose proof (Z.mod_pos_bound p q Hq) as Hr.
  set (f := p / q) in *. set (r := p mod q) in *.
  assert (p - f * q = r) as E0 by lia.
  assert (p - (f + 1) * q = r - q) as E1 by lia.
  destruct (2 * r <? q) eqn:A; [apply Z.ltb_lt in A; rewrite E0; lia|].
  apply Z.ltb_ge in A.
  destruct (q <? 2 * r) eqn:B; [apply Z.ltb_lt in B; rewrite E1; lia|].
  apply Z.ltb_ge in B.
  destruct (Z.even f) eqn:Ev.
  - rewrite E0. split; [lia|]. intros _; exact Ev.
  - rewrite E1. split; [lia|]. intros _.
    rewrite Z.even_add, Ev. reflexivity.
Qed.

(** [binaryExponent p q] is the integer part of the binary logarithm of
    p/q: the fraction divided by that power of two lies in [1, 2). *)
Lemma binaryExponent_spec (p q : Z) :
  0 < p -> 0 < q ->
  snd (scaled p q (binaryExponent p q))
  <= fst (scaled p q (binaryExponent p q))
  < 2 * snd (scaled p q (binaryExponent p q)).
Proof.
  intros Hp Hq.
  pose proof (Z.log2_spec p Hp) as [Hp1 Hp2].
  pose proof (Z.log2_spec q Hq) as [Hq1 Hq2].
  pose proof (Z.log2_nonneg p) as Hp0.
  pose proof (Z.log2_nonneg q) as Hq0.
  rewrite Z.pow_succ_r in Hp2, Hq2 by lia.
  set (a := Z.log2 p) in *. set (b := Z.log2 q) in *.
  unfold binaryExponent. fold a b. set (l := a - b).
  assert (forall x y, 0 <= x -> 0 <= y -> 2 ^ (x + y) = 2 ^ x * 2 ^ y) as Hpow
    by (intros; apply Z.pow_add_r; assumption).
  assert (forall x, 0 <= x -> 0 < 2 ^ x) as Hpos
    by (intros; apply Z.pow_pos_nonneg; lia).
  pose proof (Hpos a Hp0) as Ha. pose proof (Hpos b Hq0) as Hb.
  set (A := 2 ^ a) in *. set (B := 2 ^ b) in *.
  destruct (scaled p q l) as [n d] eqn:S.
  destruct (n <? d) eqn:L; [apply Z.ltb_lt in L|apply Z.ltb_ge in L].
  - unfold scaled in S |- *.
    destruct (0 <=? l) eqn:E; injection S as <- <-.
    + apply Z.leb_le in E.
      assert (A = B * 2 ^ l) as Hab
        by (unfold A, B; rewrite <- Hpow by lia; f_equal; lia).
      destruct (0 <=? l - 1) eqn:E'; cbn [fst snd].
      * apply Z.leb_le in E'.
        assert (2 ^ l = 2 * 2 ^ (l - 1)) as Hd
          by (rewrite <- Z.pow_succ_r by lia; f_equal; lia).
        pose proof (Hpos (l - 1) E') as Hx.
        set (X := 2 ^ (l - 1)) in *. rewrite Hd in *.
        assert (q * X <= 2 * B * X) by nia. lia.
      * apply Z.leb_gt in E'. assert (l = 0) as E0 by lia.
        rewrite E0 in *. replace (- (0 - 1)) with 1 by lia.
        change (2 ^ 1) with 2. change (2 ^ 0) with 1 in *. lia.
    + apply Z.leb_gt in E.
      assert (B = A * 2 ^ (- l)) as Hab
        by (unfold A, B; rewrite <- Hpow by lia; f_equal; lia).
      rewrite (proj2 (Z.leb_gt 0 (l - 1))) by lia. cbn [fst snd].
      assert (2 ^ (- (l - 1)) = 2 * 2 ^ (- l)) as Hd
        by (rewrite <- Z.pow_succ_r by lia; f_equal; lia).
      pose proof (Hpos (- l) ltac:(lia)) as Hx.
      set (X := 2 ^ (- l)) in *. rewrite Hd.
      assert (A * X <= p * X) by nia. lia.
  - rewrite S. cbn [fst snd]. split; [exact L|].
    unfold scaled in S.
    destruct (0 <=? l) eqn:E; injection S as <- <-.
    + apply Z.leb_le in E.
      assert (A = B * 2 ^ l) as Hab
        by (unfold A, B; rewrite <- Hpow by lia; f_equal; lia).
      pose proof (Hpos l E) as Hx. set (X := 2 ^ l) in *.
      assert (B * X <= q * X) by nia. lia.
    + apply Z.leb_gt in E.
      assert (B = A * 2 ^ (- l)) as Hab
        by (unfold A, B; rewrite <- Hpow by lia; f_equal; lia).
      pose proof (Hpos (- l) ltac:(lia)) as Hx. set (X := 2 ^ (- l)) in *.
      assert (p * X < 2 * A * X) by nia. lia.
Qed.

Lemma scaled_pos (p q e : Z) :
  0 < p -> 0 < q -> 0 < fst (scaled p q e) /\ 0 < snd (scaled p q e).
Proof.
  intros Hp Hq. unfold scaled.
  destruct (0 <=? e) eqn:E; cbn [fst snd].
  - apply Z.leb_le in E. pose proof (Z.pow_pos_nonneg 2 e ltac:(lia) E). nia.
  - apply Z.leb_gt in E.
    pose proof (Z.pow_pos_nonneg 2 (- e) ltac:(lia) ltac:(lia)). nia.
Qed.

(** Lowering the exponent by k multiplies the scaled fraction by 2^k. *)
Lemma scaled_shift (p q e k : Z) :
  0 <= k ->
  fst (scaled p q (e - k)) * snd (scaled p q e)
  = fst (scaled p q e) * snd (scaled p q (e - k)) * 2 ^ k.
Proof.
  intros Hk. unfold scaled.
  destruct (0 <=? e) eqn:E; destruct (0 <=? e - k) eqn:E'; cbn [fst snd];
    try apply Z.leb_le in E; try apply Z.leb_le in E';
    try apply Z.leb_gt in E; try apply Z.leb_gt in E'; try lia.
  - replace (2 ^ e) with (2 ^ (e - k) * 2 ^ k)
      by (rewrite <- Z.pow_add_r by lia; f_equal; lia).
    ring.
  - replace (2 ^ k) with (2 ^ (- (e - k)) * 2 ^ e)
      by (rewrite <- Z.pow_add_r by lia; f_equal; lia).
    ring.
  - replace (2 ^ (- (e - k))) with (2 ^ (- e) * 2 ^ k)
      by (rewrite <- Z.pow_add_r by lia; f_equal; lia).
    ring.
Qed.

(** What [toDouble] returns is a double, the nearest to p/q and the one
    with the even significand of two that are equally near: m is at least
    2^52 unless the exponent is the least one, and at most 2^53, where
    m = 2^53 stands for the double 2^52 * 2^(e + 1). *)
Lemma toDouble_spec (p q m e : Z) :
  0 < p -> 0 < q -> toDouble p q = Some (m, e) ->
  -1074 <= e <= 971
  /\ 0 <= m <= 2 ^ 53
  /\ (e = -1074 \/ 2 ^ 52 <= m)
  /\ 2 * Z.abs (fst (scaled p q e) - m * snd (scaled p q e))
     <= snd (scaled p q e)
  /\ (2 * Z.abs (fst (scaled p q e) - m * snd (scaled p q e))
      = snd (scaled p q e) -> Z.even m = true).
Proof.
  intros Hp Hq. unfold toDouble.
  rewrite (proj2 (Z.eqb_neq p 0)) by lia.
  set (lg := binaryExponent p q).
  set (ex := Z.max (lg - 52) (-1074)).
  destruct (scaled p q ex) as [n d] eqn:S.
  destruct ((971 <? ex) || ((ex =? 971) && (roundHalfEven n d =? 2 ^ 53)))
    eqn:O; [discriminate|].
  intros [= <- <-]. rewrite S. cbn [fst snd].
  pose proof (scaled_pos p q ex Hp Hq) as [Hn Hd]. rewrite S in Hn, Hd.
  cbn [fst snd] in Hn, Hd.
  pose proof (roundHalfEven_nearest n d Hd) as [Hnear Heven].
  apply orb_false_iff in O. destruct O as [O1 O2]. apply Z.ltb_ge in O1.
  pose proof (binaryExponent_spec p q Hp Hq) as [Hlo Hhi]. fold lg in Hlo, Hhi.
  pose proof (scaled_pos p q lg Hp Hq) as [Hn0 Hd0].
  pose proof (scaled_pos p q (lg - 52) Hp Hq) as [Hn1 Hd1].
  pose proof (scaled_shift p q lg 52 ltac:(lia)) as Hshift.
  set (n0 := fst (scaled p q lg)) in *. set (d0 := snd (scaled p q lg)) in *.
  set (n1 := fst (scaled p q (lg - 52))) in *.
  set (d1 := snd (scaled p q (lg - 52))) in *.
  assert (2 ^ 52 * d1 <= n1 < 2 ^ 53 * d1) as Hn1b.
  { change (2 ^ 53) with (2 * 2 ^ 52). set (K := 2 ^ 52) in *.
    assert (0 < K) by (unfold K; lia).
    split.
    - assert (d0 * (d1 * K) <= n1 * d0) by nia. nia.
    - assert (n1 * d0 < 2 * d0 * (d1 * K)) by nia. nia. }
  set (m := roundHalfEven n d) in *.
  split; [unfold ex; lia|].
  destruct (Z.max_spec (lg - 52) (-1074)) as [[Hlt Hex]|[Hge Hex]];
    fold ex in Hex.
  - (* the least exponent: the value is below 2^-1022 *)
    pose proof (scaled_shift p q ex (ex - (lg - 52)) ltac:(lia)) as Hs.
    replace (ex - (ex - (lg - 52))) with (lg - 52) in Hs by lia.
    fold n1 d1 in Hs. rewrite S in Hs. cbn [fst snd] in Hs.
    pose proof (Z.pow_pos_nonneg 2 (ex - (lg - 52)) ltac:(lia) ltac:(lia))
      as Hk.
    set (K := 2 ^ (ex - (lg - 52))) in *.
    assert (n < 2 ^ 53 * d) as Hnb.
    { assert (n * d1 * K < 2 ^ 53 * d1 * d) by nia.
      assert (n * d1 <= n * d1 * K) by nia. nia. }
    split; [|split; [left; exact Hex|split; assumption]].
    destruct (Z.abs_spec (n - m * d)) as [[_ Ha]|[_ Ha]]; rewrite Ha in Hnear;
      split; nia.
  - (* a normal number *)
    assert (n = n1 /\ d = d1) as [-> ->].
    { unfold n1, d1. rewrite <- Hex, S. split; reflexivity. }
    split; [|split; [|split; assumption]].
    + destruct (Z.abs_spec (n1 - m * d1)) as [[_ Ha]|[_ Ha]];
        rewrite Ha in Hnear; split; nia.
    + right.
      destruct (Z.abs_spec (n1 - m * d1)) as [[_ Ha]|[_ Ha]];
        rewrite Ha in Hnear; nia.
Qed.

(** The largest double is (2^53 - 1) * 2^971. *)
Lemma toDouble_finite (p q m : Z) :
  toDouble p q = Some (m, 971) -> m <> 2 ^ 53.
Proof.
  unfold toDouble. destruct (p =? 0); [intros [= _ E]; discriminate E|].
  set (ex := Z.max (binaryExponent p q - 52) (-1074)).
  destruct (scaled p q ex) as [n d].
  destruct (971 <? ex) eqn:O1; [discriminate|].
  destruct (ex =? 971) eqn:O2; cbn [orb andb].
  - destruct (roundHalfEven n d =? 2 ^ 53) eqn:O3; [discriminate|].
    intros [= <- _]. apply Z.eqb_neq in O3. exact O3.
  - intros [= _ He]. apply Z.eqb_neq in O2. contradiction.
Qed.

(** ** The order of the errors *)

Lemma failuresOf_ascending (fieldMapping : list (option columnTarget))
    (rest : list jsstring) :
  forall i,
    Forall (fun e => i < row e) (failuresOf fieldMapping (numberedFrom i rest))
    /\ StronglySorted (fun a b => row a < row b)
         (failuresOf fieldMapping (numberedFrom i rest)).
Proof.
  induction rest as [|l rest IH]; intros i; [split; constructor|].
  destruct (IH (i + 1)) as [Hall Hsorted].
  cbn [numberedFrom]. unfold failuresOf in *. cbn [flat_map fst].
  assert (Forall (fun e => i < row e)
            (flat_map
               (fun nl => match outcomeOf fieldMapping nl with
                          | RowInvalid m => [mkImportError (fst nl) m]
                          | _ => []
                          end)
               (numberedFrom (i + 1) rest))) as Hall'.
  { revert Hall. apply Forall_impl. intros e He; lia. }
  destruct (outcomeOf fieldMapping (i + 1, l)); cbn [app];
    try (split; assumption).
  split.
  - constructor; [cbn [row]; lia|exact Hall'].
  - constructor; [exact Hsorted|]. exact Hall.
Qed.

(** X28.  The errors of an import are listed in the order of the file:
    their row numbers ascend strictly, so no row is reported twice. *)
Theorem parseXLSXFile_errors_in_order (text : jsstring) (r : ImportResult) :
  parseXLSXFile (ReadText text) = Resolved r ->
  StronglySorted (fun a b => row a < row b) (errors r).
Proof.
  intros H. destruct (resolved_lists text r H) as (header & rest & _ & _ & ->).
  apply failuresOf_ascending.
Qed.

Lemma parseXLSXFile_errors_in_order_witness :
  StronglySorted (fun a b => row a < row b)
    [mkImportError 2 (js "Row 2: Manual Date is required");
     mkImportError 3 (js "Row 3: Customer Name is required")].
Proof.
  apply (parseXLSXFile_errors_in_order
           (js "Date,Name,Mobile,Amount" ++ lineFeed
            ++ js ",Joe,12,x" ++ lineFeed ++ js "2024-01-01,,12,x")
           (mkImportResult []
              [mkImportError 2 (js "Row 2: Manual Date is required");
               mkImportError 3 (js "Row 3: Customer Name is required")])).
  reflexivity.
Defined.

(** ** Every dated entry is counted once *)

Section YearCounts.

Variable LocalTZA : Z -> bool -> Z.
Variable num : Type.
Variable numZero : num.
Variable numAdd : num -> num -> num.
Variable Number : Z -> num.

Lemma inYear_hasDate (year : Z) (e : Backend.Entry) :
  inYear LocalTZA year e = true -> hasDate LocalTZA e = true.
Proof.
  unfold inYear, hasDate.
  destruct (parseManualDate LocalTZA (Backend.manualDate e));
    [reflexivity|discriminate].
Qed.

Lemma inYear_unique (y1 y2 : Z) (e : Backend.Entry) :
  inYear LocalTZA y1 e = true -> inYear LocalTZA y2 e = true -> y1 = y2.
Proof.
  unfold inYear.
  destruct (parseManualDate LocalTZA (Backend.manualDate e));
    [|discriminate].
  intros H1 H2. apply Z.eqb_eq in H1, H2. congruence.
Qed.

Lemma fold_add_from (l : list Z) (a : Z) :
  fold_left Z.add l a = a + fold_left Z.add l 0.
Proof.
  revert a. induction l as [|x l IH]; intros a; cbn [fold_left]; [lia|].
  rewrite (IH (a + x)), (IH (0 + x)). lia.
Qed.

(** Of distinct years an entry is dated in at most one. *)
Lemma years_of_entry (years : list Z) (e : Backend.Entry) :
  NoDup years ->
  fold_left Z.add
    (map (fun y => if inYear LocalTZA y e then 1 else 0) years) 0
  = if existsb (fun y => inYear LocalTZA y e) years then 1 else 0.
Proof.
  induction 1 as [|y years Hnin Hnd IH]; [reflexivity|].
  cbn [map fold_left existsb]. rewrite fold_add_from, IH.
  destruct (inYear LocalTZA y e) eqn:E; cbn [orb]; [|lia].
  destruct (existsb (fun y0 => inYear LocalTZA y0 e) years) eqn:X; [|lia].
  apply existsb_exists in X. destruct X as (y' & Hin & Hy').
  rewrite (inYear_unique y y' e E Hy') in Hnin. contradiction.
Qed.

Lemma year_lengths (years : list Z) (entries : list Backend.Entry) :
  NoDup years ->
  (forall e y, In e entries -> inYear LocalTZA y e = true -> In y years) ->
  fold_left Z.add
    (map (fun y => Z.of_nat (List.length (filter (inYear LocalTZA y) entries)))
         years) 0
  = Z.of_nat (List.length (filter (hasDate LocalTZA) entries)).
Proof.
  intros Hnd. induction entries as [|e rest IH]; intros Hcover.
  - cbn [filter List.length]. clear. induction years; [reflexivity|assumption].
  - rewrite (map_ext _
               (fun y => (if inYear LocalTZA y e then 1 else 0)
                         + Z.of_nat (List.length (filter (inYear LocalTZA y) rest)))).
    + pose proof (fold_add_pointwise
                    (fun y => if inYear LocalTZA y e then 1 else 0)
                    (fun y => Z.of_nat (List.length (filter (inYear LocalTZA y) rest)))
                    years 0 0) as H.
      change (0 + 0) with 0 in H.
      rewrite H, IH, (years_of_entry years e Hnd);
        [|intros e' y He'; apply Hcover; right; exact He'].
      cbn [filter]. unfold hasDate at 2.
      destruct (existsb (fun y => inYear LocalTZA y e) years) eqn:X.
      * apply existsb_exists in X. destruct X as (y & _ & Hy).
        pose proof (inYear_hasDate y e Hy) as Hd. unfold hasDate in Hd.
        rewrite Hd. cbn [List.length]. lia.
      * destruct (parseManualDate LocalTZA (Backend.manualDate e)) as [t|]
          eqn:P; cbn [isSome]; [|lia].
        exfalso.
        assert (inYear LocalTZA (YearFromTime (LocalTime LocalTZA t)) e = true)
          as Hy by (unfold inYear; rewrite P; apply Z.eqb_refl).
        assert (existsb (fun y => inYear LocalTZA y e) years = true);
          [|congruence].
        apply existsb_exists. eexists. split; [|exact Hy].
        apply (Hcover e _ (or_introl eq_refl) Hy).
    + intros y. cbn [filter].
      destruct (inYear LocalTZA y e); cbn [List.length]; lia.
Qed.

Lemma ascending_NoDup (l : list Z) : StronglySorted Z.lt l -> NoDup l.
Proof.
  induction 1 as [|y rest Hs IH Hy]; constructor; [|exact IH].
  intros Hin. rewrite Forall_forall in Hy. specialize (Hy y Hin). lia.
Qed.

(** X29.  The counts of the yearly buckets add up to the number of
    entries whose date parses: each such entry is counted in one bucket
    and in one only, and the others in none. *)
Theorem aggregateByYear_counts_dated_entries (entries : list Backend.Entry) :
  yearCounts (aggregateByYear LocalTZA num numZero numAdd Number entries)
  = Z.of_nat (List.length (filter (hasDate LocalTZA) entries)).
Proof.
  destruct (aggregateByYear_spec LocalTZA num numZero numAdd Number entries)
    as (Hsorted & Hin & Heq).
  unfold yearCounts.
  set (years := map Yearly.year _) in *.
  rewrite Heq, map_map. cbn [yearBucket Yearly.count].
  apply year_lengths.
  - apply ascending_NoDup; exact Hsorted.
  - intros e y He Hy. apply Hin. exists e. split; assumption.
Qed.

End YearCounts.
